(** * Pawn-structure hash table and king shelter: [src/pawns.cpp], [src/prng.h]

    A shallow embedding of the pawn classifier [evaluate], of the cache
    operation [probe], of the king-safety functions [shelter_storm] and
    [do_king_safety], and of the xorshift64star generator [PRNG].

    Conventions.
    - A [Bitboard] is a [uint64_t]: a [Z] in [0, 2^64), bit [s] standing for
      square [s] (a1 = 0, h1 = 7, a8 = 56, h8 = 63).  Shifts to the left are
      truncated to 64 bits with [u64].
    - Code that can abort (a failed [assert] of a debug build) or that leaves
      the defined behaviour of the language (bit scan of an empty bitboard,
      an index past the end of a table) returns in the [result] type.
    - The headers [types.h], [bitboard.h], [position.h] and [pawns.h] are
      not part of the sources at hand; what the functions of [pawns.cpp] use
      from them is modelled here and marked as such. *)

From Stdlib Require Import ZArith Lia Bool List Permutation.
From stdpp Require Import base option list.
Import ListNotations.

Local Open Scope Z_scope.

(** ** Outcomes of fallible code *)

Inductive fault : Type :=
  | AssertSeed       (* prng.h:   assert(seed)                                  *)
  | AssertPieceOn    (* pawns.cpp: assert(pos.piece_on(s) == make_piece(Us, PAWN)) *)
  | AssertFlags      (* pawns.cpp: assert(opposed | passed | (span & theirPawns))  *)
  | EmptyScan        (* lsb / msb of an empty bitboard                          *)
  | DivideByZero     (* Score / 0                                               *)
  | OutOfBounds.     (* index past the end of an array                          *)

Inductive result (A : Type) : Type :=
  | Ok (a : A)
  | Abort (f : fault).
Arguments Ok {A} a.
Arguments Abort {A} f.

#[global] Instance result_ret : MRet result := fun A a => Ok a.
#[global] Instance result_bind : MBind result := fun A B k m =>
  match m with
  | Ok a => k a
  | Abort f => Abort f
  end.

Definition of_option {A : Type} (f : fault) (o : option A) : result A :=
  match o with
  | Some a => Ok a
  | None => Abort f
  end.

(** ** Machine integers *)

Definition u64 (z : Z) : Z := Z.land z 0xFFFFFFFFFFFFFFFF.

(** [nz b] is the conversion of an integer to [bool] of C++. *)
Definition nz (b : Z) : bool := negb (b =? 0).

(** ** prng.h *)

Module PRNG.

Record t : Type := mk { x : Z }.

(** [PRNG(uint64_t seed) : x(seed) { assert(seed); }] *)
Definition PRNG (seed : Z) : result t :=
  let s := mk seed in
  if nz seed then Ok s else Abort AssertSeed.

(** [x^=x>>12; x^=x<<25; x^=x>>27; return x * 2685821657736338717LL;] *)
Definition rand64 (s : t) : Z * t :=
  let x1 := Z.lxor (x s) (Z.shiftr (x s) 12) in
  let x2 := Z.lxor x1 (u64 (Z.shiftl x1 25)) in
  let x3 := Z.lxor x2 (Z.shiftr x2 27) in
  (u64 (x3 * 2685821657736338717), mk x3).

(** [template<typename T> T rand() { return T(rand64()); }], at [T = uint64_t] *)
Definition rand (s : t) : Z * t := rand64 s.

(** [sparse_rand() { return T(rand64() & rand64() & rand64()); }] *)
Definition sparse_rand (s : t) : Z * t :=
  let '(a, s1) := rand64 s in
  let '(b, s2) := rand64 s1 in
  let '(c, s3) := rand64 s2 in
  (Z.land (Z.land a b) c, s3).

End PRNG.

(** ** types.h (modelled) *)

(** Modelled from the spec: the sides, squares, files, ranks and steps of
    [types.h], which is not among the sources: squares are numbered rank by
    rank from a1 = 0 to h8 = 63, [SQ_NONE] = 64 ends a piece list, a step to
    the north adds 8. *)
Inductive Color : Type := WHITE | BLACK.

#[global] Instance Color_eq_dec : EqDecision Color.
Proof. solve_decision. Defined.

(** [~c]: the other side. *)
Definition opp (c : Color) : Color :=
  match c with WHITE => BLACK | BLACK => WHITE end.

Definition color_index (c : Color) : Z :=
  match c with WHITE => 0 | BLACK => 1 end.

Definition Square := Z.
Definition File := Z.
Definition Rank := Z.
Definition Bitboard := Z.
Definition Key := Z.
Definition Value := Z.

Definition SQ_A1 : Square := 0.
Definition SQ_C1 : Square := 2.
Definition SQ_G1 : Square := 6.
Definition SQ_A8 : Square := 56.
Definition SQ_NONE : Square := 64.

Definition DELTA_N : Square := 8.
Definition DELTA_S : Square := -8.
Definition DELTA_NE : Square := 9.
Definition DELTA_SE : Square := -7.
Definition DELTA_NW : Square := 7.
Definition DELTA_SW : Square := -9.

Definition FILE_A : File := 0.
Definition FILE_B : File := 1.
Definition FILE_G : File := 6.
Definition FILE_H : File := 7.

Definition RANK_1 : Rank := 0.
Definition RANK_2 : Rank := 1.
Definition RANK_3 : Rank := 2.
Definition RANK_4 : Rank := 3.
Definition RANK_8 : Rank := 7.

Definition PAWN : Z := 1.

(** [make_piece(c, pt) = (c << 3) | pt] *)
Definition make_piece (c : Color) (pt : Z) : Z := Z.lor (Z.shiftl (color_index c) 3) pt.

Definition file_of (s : Square) : File := Z.land s 7.
Definition rank_of (s : Square) : Rank := Z.shiftr s 3.
Definition make_square (f : File) (r : Rank) : Square := Z.lor (Z.shiftl r 3) f.

(** [relative_rank(c, r) = r ^ (c * 7)], and its overload on squares. *)
Definition relative_rank (c : Color) (r : Rank) : Rank := Z.lxor r (color_index c * 7).
Definition relative_rank_sq (c : Color) (s : Square) : Rank := relative_rank c (rank_of s).

(** [relative_square(c, s) = s ^ (c * 56)] *)
Definition relative_square (c : Color) (s : Square) : Square := Z.lxor s (color_index c * 56).

(** [~s]: the vertical flip of a square, [s ^ SQ_A8]. *)
Definition flip_sq (s : Square) : Square := Z.lxor s SQ_A8.

Definition pawn_push (c : Color) : Square :=
  match c with WHITE => DELTA_N | BLACK => DELTA_S end.

(** Castling rights: [WHITE_OO = 1], [WHITE_OOO = 2], [BLACK_OO = 4],
    [BLACK_OOO = 8]. *)
Inductive CastlingSide : Type := KING_SIDE | QUEEN_SIDE.

Definition MakeCastling_right (c : Color) (cs : CastlingSide) : Z :=
  match c, cs with
  | WHITE, KING_SIDE => 1
  | WHITE, QUEEN_SIDE => 2
  | BLACK, KING_SIDE => 4
  | BLACK, QUEEN_SIDE => 8
  end.

(** Modelled from the spec: the [Score] of [types.h], a phase-weighted pair
    (midgame, endgame), with the operators the pawn code uses.  Division of a
    score by an integer divides each term, rounding towards zero as C++ does. *)
Record Score : Type := make_score { mg_value : Z; eg_value : Z }.

Definition SCORE_ZERO : Score := make_score 0 0.

Definition score_add (a b : Score) : Score :=
  make_score (mg_value a + mg_value b) (eg_value a + eg_value b).
Definition score_sub (a b : Score) : Score :=
  make_score (mg_value a - mg_value b) (eg_value a - eg_value b).
Definition score_neg (a : Score) : Score :=
  make_score (- mg_value a) (- eg_value a).
Definition score_div (a : Score) (i : Z) : result Score :=
  if i =? 0 then Abort DivideByZero
  else Ok (make_score (Z.quot (mg_value a) i) (Z.quot (eg_value a) i)).

(** Arrays indexed by colour. *)
Record ByColor (A : Type) : Type := by_color { of_white : A; of_black : A }.
Arguments by_color {A} _ _.
Arguments of_white {A} _.
Arguments of_black {A} _.

Definition get {A : Type} (c : Color) (a : ByColor A) : A :=
  match c with WHITE => of_white a | BLACK => of_black a end.

Definition set {A : Type} (c : Color) (v : A) (a : ByColor A) : ByColor A :=
  match c with
  | WHITE => by_color v (of_black a)
  | BLACK => by_color (of_white a) v
  end.

(** ** bitboard.h (modelled) *)

(** Modelled from the spec: the constant bitboards of [bitboard.h], which is
    not among the sources. *)
Definition DarkSquares : Bitboard := 0xAA55AA55AA55AA55.

Definition FileABB : Bitboard := 0x0101010101010101.
Definition FileHBB : Bitboard := Z.shiftl FileABB 7.
Definition Rank1BB : Bitboard := 0xFF.
Definition Rank2BB : Bitboard := Z.shiftl Rank1BB 8.
Definition Rank3BB : Bitboard := Z.shiftl Rank1BB 16.

(** [~b] on a [uint64_t]. *)
Definition bb_not (b : Bitboard) : Bitboard := u64 (Z.lnot b).

(** The squares a1 .. h8, in increasing order. *)
Definition squares : list Square := map Z.of_nat (seq 0 64).

Definition is_ok (s : Square) : bool := (SQ_A1 <=? s) && (s <? SQ_NONE).

(** Modelled from the spec: [SquareBB[s]], the bitboard of the square [s]
    alone, [1ULL << s]. *)
Definition SquareBB (s : Square) : Bitboard := Z.shiftl 1 s.

(** Modelled from the spec: [file_bb(f)] and [rank_bb(r)], the squares of a
    file and of a rank, and the overload [rank_bb(Square)]. *)
Definition file_bb (f : File) : Bitboard := Z.shiftl FileABB f.
Definition rank_bb (r : Rank) : Bitboard := Z.shiftl Rank1BB (8 * r).
Definition rank_bb_sq (s : Square) : Bitboard := rank_bb (rank_of s).

(** Modelled from the spec: [adjacent_files_bb], the "files adjacent to a
    square" mask: the file to the left, if any, and the file to the right. *)
Definition adjacent_files_bb (f : File) : Bitboard :=
  Z.lor (if f >? FILE_A then file_bb (f - 1) else 0)
        (if f <? FILE_H then file_bb (f + 1) else 0).

(** Modelled from the spec: [in_front_bb], the "ranks ahead relative to
    side": all ranks above [r] for White, all ranks below [r] for Black. *)
Definition in_front_bb (c : Color) (r : Rank) : Bitboard :=
  match c with
  | WHITE => bb_not (Z.ones (8 * (r + 1)))
  | BLACK => Z.ones (8 * r)
  end.

(** Modelled from the spec: [forward_bb], the squares "strictly ahead on the
    same file". *)
Definition forward_bb (c : Color) (s : Square) : Bitboard :=
  Z.land (in_front_bb c (rank_of s)) (file_bb (file_of s)).

(** Modelled from the spec: [pawn_attack_span], the "forward attack-span on
    adjacent files": every square of the adjacent files ahead of [s]. *)
Definition pawn_attack_span (c : Color) (s : Square) : Bitboard :=
  Z.land (in_front_bb c (rank_of s)) (adjacent_files_bb (file_of s)).

(** Modelled from the spec: [passed_pawn_mask], "same and adjacent files,
    all ranks ahead". *)
Definition passed_pawn_mask (c : Color) (s : Square) : Bitboard :=
  Z.land (in_front_bb c (rank_of s))
         (Z.lor (file_bb (file_of s)) (adjacent_files_bb (file_of s))).

(** Modelled from the spec: [shift_bb<Delta>(b)], the bitboard moved one
    step along [Delta]; a step to the east or west loses the squares that
    would leave the board. *)
Definition shift_bb (Delta : Square) (b : Bitboard) : Bitboard :=
  if Delta =? DELTA_N then u64 (Z.shiftl b 8)
  else if Delta =? DELTA_S then Z.shiftr b 8
  else if Delta =? DELTA_NE then u64 (Z.shiftl (Z.land b (bb_not FileHBB)) 9)
  else if Delta =? DELTA_SE then Z.shiftr (Z.land b (bb_not FileHBB)) 7
  else if Delta =? DELTA_NW then u64 (Z.shiftl (Z.land b (bb_not FileABB)) 7)
  else if Delta =? DELTA_SW then Z.shiftr (Z.land b (bb_not FileABB)) 9
  else 0.

(** Modelled from the spec: [lsb] and [msb], the least and the most
    significant set bit of a bitboard; undefined on the empty bitboard. *)
Definition lsb (b : Bitboard) : option Square := List.find (Z.testbit b) squares.
Definition msb (b : Bitboard) : option Square := List.find (Z.testbit b) (rev squares).

Definition frontmost_sq (c : Color) (b : Bitboard) : option Square :=
  match c with WHITE => msb b | BLACK => lsb b end.
Definition backmost_sq (c : Color) (b : Bitboard) : option Square :=
  match c with WHITE => lsb b | BLACK => msb b end.

(** Modelled from the spec: [popcount], the number of set bits. *)
Definition popcount (b : Bitboard) : Z :=
  Z.of_nat (length (List.filter (Z.testbit b) squares)).

(** Modelled from the spec: [distance<File>], [distance<Rank>] and the
    square distance (the number of king steps between two squares). *)
Definition distance_File (s1 s2 : Square) : Z := Z.abs (file_of s1 - file_of s2).
Definition distance_Rank (s1 s2 : Square) : Z := Z.abs (rank_of s1 - rank_of s2).
Definition SquareDistance (s1 s2 : Square) : Z :=
  Z.max (distance_File s1 s2) (distance_Rank s1 s2).

(** Modelled from the spec: [DistanceRingsBB[s][d]], the ring of squares at
    distance [d + 1] of [s] that the "expanding ring search" walks. *)
Definition DistanceRingsBB (s1 : Square) (d : Z) : Bitboard :=
  fold_left
    (fun acc s2 =>
       if negb (s1 =? s2) && (SquareDistance s1 s2 - 1 =? d)
       then Z.lor acc (SquareBB s2) else acc)
    squares 0.

(** Modelled from the spec: [StepAttacksBB[make_piece(c, PAWN)][s]], the
    "direct pawn-attack lookup": the two squares diagonally ahead of [s]. *)
Definition pawn_attacks_bb (c : Color) (s : Square) : Bitboard :=
  fold_left
    (fun acc step =>
       let to := s + (match c with WHITE => step | BLACK => - step end) in
       if is_ok to && (SquareDistance s to <? 3)
       then Z.lor acc (SquareBB to) else acc)
    [7; 9] 0.

(** ** position.h (modelled): what the pawn code reads of a position *)

(** Modelled from the spec: the read-only position of [position.h], which is
    not among the sources: the pawn bitboard, the bitboards of the two
    sides, the board, the pawn list of each side, the castling rights and
    the pawn key (the structural fingerprint). *)
Record Position : Type := mkPosition {
  byTypeBB_PAWN : Bitboard;                (* pieces(PAWN)            *)
  byColorBB : ByColor Bitboard;            (* pieces(c)               *)
  board : list Z;                          (* piece_on(s), 64 entries *)
  pieceList_PAWN : ByColor (list Square);  (* list<PAWN>(c), up to the SQ_NONE sentinel *)
  st_castlingRights : Z;
  st_pawnKey : Key
}.

Definition pieces_pt (pos : Position) : Bitboard := byTypeBB_PAWN pos.
Definition pieces_c (pos : Position) (c : Color) : Bitboard := get c (byColorBB pos).
(** [pieces(c, PAWN) = byColorBB[c] & byTypeBB[PAWN]] *)
Definition pieces (pos : Position) (c : Color) : Bitboard :=
  Z.land (get c (byColorBB pos)) (byTypeBB_PAWN pos).
Definition piece_on (pos : Position) (s : Square) : Z := nth (Z.to_nat s) (board pos) 0.
Definition list_PAWN (pos : Position) (c : Color) : list Square := get c (pieceList_PAWN pos).
Definition count_PAWN (pos : Position) (c : Color) : Z := Z.of_nat (length (list_PAWN pos c)).
Definition pawn_key (pos : Position) : Key := st_pawnKey pos.
(** [can_castle(CastlingRight)] and [can_castle(Color)] *)
Definition can_castle (pos : Position) (cr : Z) : Z := Z.land (st_castlingRights pos) cr.
Definition can_castle_c (pos : Position) (c : Color) : Z :=
  Z.land (st_castlingRights pos) (Z.shiftl 3 (2 * color_index c)).

(** ** pawns.h (modelled): the cache entry *)

(** Modelled from the spec: the [Entry] of [pawns.h], which is not among the
    sources, with the fields that [pawns.cpp] reads and writes. *)
Record Entry : Type := mkEntry {
  key : Key;
  value : Score;
  passedPawns : ByColor Bitboard;
  pawnAttacks : ByColor Bitboard;
  kingSquares : ByColor Square;
  kingSafety : ByColor Score;
  minKingPawnDistance : ByColor Z;
  castlingRights : ByColor Z;
  semiopenFiles : ByColor Z;
  pawnSpan : ByColor Z;
  pawnsOnSquares : ByColor (ByColor Z)
}.

Definition set_key (k : Key) (e : Entry) : Entry :=
  mkEntry k (value e) (passedPawns e) (pawnAttacks e) (kingSquares e) (kingSafety e)
          (minKingPawnDistance e) (castlingRights e) (semiopenFiles e) (pawnSpan e)
          (pawnsOnSquares e).
Definition set_value (v : Score) (e : Entry) : Entry :=
  mkEntry (key e) v (passedPawns e) (pawnAttacks e) (kingSquares e) (kingSafety e)
          (minKingPawnDistance e) (castlingRights e) (semiopenFiles e) (pawnSpan e)
          (pawnsOnSquares e).
Definition set_passedPawns (c : Color) (b : Bitboard) (e : Entry) : Entry :=
  mkEntry (key e) (value e) (set c b (passedPawns e)) (pawnAttacks e) (kingSquares e)
          (kingSafety e) (minKingPawnDistance e) (castlingRights e) (semiopenFiles e)
          (pawnSpan e) (pawnsOnSquares e).
Definition set_pawnAttacks (c : Color) (b : Bitboard) (e : Entry) : Entry :=
  mkEntry (key e) (value e) (passedPawns e) (set c b (pawnAttacks e)) (kingSquares e)
          (kingSafety e) (minKingPawnDistance e) (castlingRights e) (semiopenFiles e)
          (pawnSpan e) (pawnsOnSquares e).
Definition set_kingSquares (c : Color) (s : Square) (e : Entry) : Entry :=
  mkEntry (key e) (value e) (passedPawns e) (pawnAttacks e) (set c s (kingSquares e))
          (kingSafety e) (minKingPawnDistance e) (castlingRights e) (semiopenFiles e)
          (pawnSpan e) (pawnsOnSquares e).
Definition set_minKingPawnDistance (c : Color) (d : Z) (e : Entry) : Entry :=
  mkEntry (key e) (value e) (passedPawns e) (pawnAttacks e) (kingSquares e)
          (kingSafety e) (set c d (minKingPawnDistance e)) (castlingRights e)
          (semiopenFiles e) (pawnSpan e) (pawnsOnSquares e).
Definition set_castlingRights (c : Color) (r : Z) (e : Entry) : Entry :=
  mkEntry (key e) (value e) (passedPawns e) (pawnAttacks e) (kingSquares e)
          (kingSafety e) (minKingPawnDistance e) (set c r (castlingRights e))
          (semiopenFiles e) (pawnSpan e) (pawnsOnSquares e).
Definition set_semiopenFiles (c : Color) (m : Z) (e : Entry) : Entry :=
  mkEntry (key e) (value e) (passedPawns e) (pawnAttacks e) (kingSquares e)
          (kingSafety e) (minKingPawnDistance e) (castlingRights e)
          (set c m (semiopenFiles e)) (pawnSpan e) (pawnsOnSquares e).
Definition set_pawnSpan (c : Color) (n : Z) (e : Entry) : Entry :=
  mkEntry (key e) (value e) (passedPawns e) (pawnAttacks e) (kingSquares e)
          (kingSafety e) (minKingPawnDistance e) (castlingRights e) (semiopenFiles e)
          (set c n (pawnSpan e)) (pawnsOnSquares e).
Definition set_pawnsOnSquares (c shade : Color) (n : Z) (e : Entry) : Entry :=
  mkEntry (key e) (value e) (passedPawns e) (pawnAttacks e) (kingSquares e)
          (kingSafety e) (minKingPawnDistance e) (castlingRights e) (semiopenFiles e)
          (pawnSpan e) (set c (set shade n (get c (pawnsOnSquares e))) (pawnsOnSquares e)).

(** A zero-initialised entry, as the table holds them at start. *)
Definition zero_entry : Entry :=
  let z := by_color 0 0 in
  mkEntry 0 SCORE_ZERO z z z (by_color SCORE_ZERO SCORE_ZERO) z z z z (by_color z z).

(** ** pawns.cpp: the constant tables *)

(** Reading [a[i]] of an array given by its initialisers; the elements
    without an initialiser are zero. *)
Definition at_Z (a : list Z) (i : Z) : Z := nth (Z.to_nat i) a 0.
Definition at_S (a : list Score) (i : Z) : Score := nth (Z.to_nat i) a SCORE_ZERO.

Section Tables.

(** [#define S(mg, eg) make_score(mg, eg)], until its [#undef]. *)
Let S (mg eg : Z) : Score := make_score mg eg.

(** Doubled pawn penalty by file *)
Definition Doubled : list Score :=
  [ S 13 43; S 20 48; S 23 48; S 23 48; S 23 48; S 23 48; S 20 48; S 13 43 ].

(** Isolated pawn penalty by opposed flag and file *)
Definition Isolated (opposed : bool) : list Score :=
  if opposed
  then [ S 25 30; S 36 35; S 40 35; S 40 35; S 40 35; S 40 35; S 36 35; S 25 30 ]
  else [ S 37 45; S 54 52; S 60 52; S 60 52; S 60 52; S 60 52; S 54 52; S 37 45 ].

(** Backward pawn penalty by opposed flag and file *)
Definition Backward (opposed : bool) : list Score :=
  if opposed
  then [ S 20 28; S 29 31; S 33 31; S 33 31; S 33 31; S 33 31; S 29 31; S 20 28 ]
  else [ S 30 42; S 43 46; S 49 46; S 49 46; S 49 46; S 49 46; S 43 46; S 30 42 ].

(** Levers bonus by rank *)
Definition Lever : list Score :=
  [ S 0 0; S 0 0; S 0 0; S 0 0; S 20 20; S 40 40; S 0 0; S 0 0 ].

(** Unsupported pawn penalty *)
Definition UnsupportedPawnPenalty : Score := S 20 10.

(** Weakness of our pawn shelter in front of the king indexed by [rank] *)
Definition ShelterWeakness : list Value := [ 100; 0; 27; 73; 92; 101; 101 ].

(** Danger of enemy pawns moving toward our king indexed by
    [no friendly pawn | pawn unblocked | pawn blocked][rank of enemy pawn] *)
Definition StormDanger (row : Z) : list Value :=
  if row =? 0 then [ 0; 64; 128; 51; 26 ]
  else if row =? 1 then [ 26; 32; 96; 38; 20 ]
  else [ 0; 0; 160; 25; 13 ].

(** Max bonus for king safety. Corresponds to start position with all the pawns
    in front of the king and no enemy pawn on the horizon. *)
Definition MaxSafetyBonus : Value := 263.

End Tables.

(** [Pawns::init()]: the table [Connected[opposed][phalanx][rank]] as [init]
    leaves it; the ranks the loop does not visit keep their zero. *)
Definition Seed : list Z := [ 0; 6; 15; 10; 57; 75; 135; 258 ].

Definition init (opposed phalanx : bool) (r : Rank) : Score :=
  if (RANK_2 <=? r) && (r <? RANK_8) then
    let bonus := at_Z Seed r
                 + (if phalanx then Z.quot (at_Z Seed (r + 1) - at_Z Seed r) 2 else 0) in
    make_score (Z.quot bonus 2) (Z.shiftr bonus (Z.b2z opposed))
  else SCORE_ZERO.

Definition Connected (opposed phalanx : bool) (r : Rank) : Score := init opposed phalanx r.

(** ** pawns.cpp: [evaluate<Us>] *)

(** The flags of one pawn, as the loop body holds them in its locals. *)
Record PawnFlags : Type := mkFlags {
  connected : Bitboard;
  phalanx : bool;
  unsupported : bool;
  isolated : bool;
  doubled : Bitboard;
  opposed : bool;
  passed : bool;
  lever : bool;
  backward : bool
}.

(** Lines 116-152 of the loop body: the flags of the pawn on [s], and the
    assertion that closes their computation. *)
Definition classify (Us : Color) (ourPawns theirPawns : Bitboard) (s : Square)
  : result PawnFlags :=
  let Them := opp Us in
  let Up := pawn_push Us in
  let f := file_of s in
  (* Previous rank *)
  let p := rank_bb_sq (s - pawn_push Us) in
  let connected := Z.land (Z.land ourPawns (adjacent_files_bb f)) (Z.lor (rank_bb_sq s) p) in
  let phalanx := nz (Z.land connected (rank_bb_sq s)) in
  let unsupported := negb (nz (Z.land (Z.land ourPawns (adjacent_files_bb f)) p)) in
  let isolated := negb (nz (Z.land ourPawns (adjacent_files_bb f))) in
  let doubled := Z.land ourPawns (forward_bb Us s) in
  let opposed := nz (Z.land theirPawns (forward_bb Us s)) in
  let passed := negb (nz (Z.land theirPawns (passed_pawn_mask Us s))) in
  let lever := nz (Z.land theirPawns (pawn_attacks_bb Us s)) in
  backward ←
    (if nz (Z.lor (Z.lor (Z.b2z passed) (Z.b2z isolated)) connected)
        || nz (Z.land ourPawns (pawn_attack_span Them s))
        || nz (Z.land (pawn_attacks_bb Us s) theirPawns)
     then Ok false
     else
       let b := Z.land (pawn_attack_span Us s) (Z.lor ourPawns theirPawns) in
       sq ← of_option EmptyScan (backmost_sq Us b);
       let b := Z.land (pawn_attack_span Us s) (rank_bb_sq sq) in
       Ok (nz (Z.land (Z.lor b (shift_bb Up b)) theirPawns)));
  if nz (Z.lor (Z.lor (Z.b2z opposed) (Z.b2z passed))
               (Z.land (pawn_attack_span Us s) theirPawns))
  then Ok (mkFlags connected phalanx unsupported isolated doubled opposed passed lever
                   backward)
  else Abort AssertFlags.

(** Lines 161-177 of the loop body: the score of the pawn on [s]. *)
Definition score_pawn (Us : Color) (s : Square) (fl : PawnFlags) (value : Score)
  : result Score :=
  let f := file_of s in
  let value := if isolated fl then score_sub value (at_S (Isolated (opposed fl)) f)
               else value in
  let value := if unsupported fl && negb (isolated fl)
               then score_sub value UnsupportedPawnPenalty else value in
  value ← (if nz (doubled fl)
           then front ← of_option EmptyScan (frontmost_sq Us (doubled fl));
                d ← score_div (at_S Doubled f) (distance_Rank s front);
                Ok (score_sub value d)
           else Ok value);
  let value := if backward fl then score_sub value (at_S (Backward (opposed fl)) f)
               else value in
  let value := if nz (connected fl)
               then score_add value
                      (Connected (opposed fl) (phalanx fl) (relative_rank_sq Us s))
               else value in
  let value := if lever fl then score_add value (at_S Lever (relative_rank_sq Us s))
               else value in
  Ok value.

(** One turn of [while ((s = *pl++) != SQ_NONE)]. *)
Definition pawn_step (Us : Color) (pos : Position) (s : Square) (st : Entry * Score)
  : result (Entry * Score) :=
  let '(e, value) := st in
  if negb (piece_on pos s =? make_piece Us PAWN) then Abort AssertPieceOn else
  let f := file_of s in
  (* This file cannot be semi-open *)
  let e := set_semiopenFiles Us
             (Z.land (get Us (semiopenFiles e)) (Z.lnot (Z.shiftl 1 f))) e in
  fl ← classify Us (pieces pos Us) (pieces pos (opp Us)) s;
  let e := if passed fl && negb (nz (doubled fl))
           then set_passedPawns Us (Z.lor (get Us (passedPawns e)) (SquareBB s)) e
           else e in
  value ← score_pawn Us s fl value;
  Ok (e, value).

Fixpoint pawn_loop (Us : Color) (pos : Position) (pl : list Square) (st : Entry * Score)
  : result (Entry * Score) :=
  match pl with
  | [] => Ok st
  | s :: pl' => st' ← pawn_step Us pos s st; pawn_loop Us pos pl' st'
  end.

Definition evaluate (Us : Color) (pos : Position) (e : Entry) : result (Score * Entry) :=
  let Right := match Us with WHITE => DELTA_NE | BLACK => DELTA_SW end in
  let Left := match Us with WHITE => DELTA_NW | BLACK => DELTA_SE end in
  let ourPawns := pieces pos Us in
  let e := set_passedPawns Us 0 e in
  let e := set_kingSquares Us SQ_NONE e in
  let e := set_semiopenFiles Us 0xFF e in
  let e := set_pawnAttacks Us (Z.lor (shift_bb Right ourPawns) (shift_bb Left ourPawns)) e in
  let e := set_pawnsOnSquares Us BLACK (popcount (Z.land ourPawns DarkSquares)) e in
  let e := set_pawnsOnSquares Us WHITE
             (count_PAWN pos Us - get BLACK (get Us (pawnsOnSquares e))) e in
  '(e, value) ← pawn_loop Us pos (list_PAWN pos Us) (e, SCORE_ZERO);
  let b := Z.lxor (get Us (semiopenFiles e)) 0xFF in
  span ← (if nz b
          then hi ← of_option EmptyScan (msb b);
               lo ← of_option EmptyScan (lsb b);
               Ok (hi - lo)
          else Ok 0);
  Ok (value, set_pawnSpan Us span e).

(** ** pawns.cpp: [Pawns::probe] *)

(** Modelled from the spec: the Cache Table of [pawns.h], a "fixed-capacity
    array of N entries (power-of-two sized for masking), addressed by
    [fingerprint & (N-1)]".  Next to the array the model keeps the record of
    the classifier runs made on it (which side, for which key), oldest first. *)
Record Table : Type := mkTable {
  table : list Entry;
  runs : list (Color * Key)
}.

(** [entries[key]]: the index of the slot of [k]. *)
Definition slot (entries : Table) (k : Key) : nat :=
  Z.to_nat (Z.land k (Z.of_nat (length (table entries)) - 1)).

(** A table of [n] zero-initialised entries, on which no classifier has run. *)
Definition new_table (n : nat) : Table := mkTable (replicate n zero_entry) [].

(** [probe] returns the pointer [e], here the index of the slot in the table. *)
Definition probe (pos : Position) (entries : Table) : result (nat * Table) :=
  let k := pawn_key pos in
  let i := slot entries k in
  e ← of_option OutOfBounds (table entries !! i);
  if key e =? k then Ok (i, entries)
  else
    let e := set_key k e in
    '(w, e) ← evaluate WHITE pos e;
    '(b, e) ← evaluate BLACK pos e;
    let e := set_value (score_sub w b) e in
    Ok (i, mkTable (<[i := e]> (table entries)) (runs entries ++ [(WHITE, k); (BLACK, k)])).

(** ** pawns.cpp: [Entry::shelter_storm<Us>] *)

Definition Edges : Bitboard :=
  Z.land (Z.lor FileABB FileHBB) (Z.lor Rank2BB Rank3BB).

(** The body of [for (File f = kf - File(1); f <= kf + File(1); ++f)]. *)
Definition shelter_file (Us : Color) (ourPawns theirPawns : Bitboard) (ksq : Square)
  (f : File) (safety : Value) : result Value :=
  let Them := opp Us in
  let b := Z.land ourPawns (file_bb f) in
  rkUs ← (if nz b then sq ← of_option EmptyScan (backmost_sq Us b);
                       Ok (relative_rank_sq Us sq)
          else Ok RANK_1);
  let b := Z.land theirPawns (file_bb f) in
  rkThem ← (if nz b then sq ← of_option EmptyScan (frontmost_sq Them b);
                         Ok (relative_rank_sq Us sq)
            else Ok RANK_1);
  if nz (Z.land Edges (SquareBB (make_square f rkThem)))
     && (file_of ksq =? f)
     && (relative_rank_sq Us ksq =? rkThem - 1)
  then Ok (safety + 200)
  else Ok (safety - (at_Z ShelterWeakness rkUs
                     + at_Z (StormDanger (if rkUs =? RANK_1 then 0
                                          else if negb (rkThem =? rkUs + 1) then 1
                                          else 2)) rkThem)).

Definition shelter_storm (Us : Color) (pos : Position) (ksq : Square) : result Value :=
  let Them := opp Us in
  let b := Z.land (pieces_pt pos) (Z.lor (in_front_bb Us (rank_of ksq)) (rank_bb_sq ksq)) in
  let ourPawns := Z.land b (pieces_c pos Us) in
  let theirPawns := Z.land b (pieces_c pos Them) in
  let safety := MaxSafetyBonus in
  let kf := Z.max FILE_B (Z.min FILE_G (file_of ksq)) in
  safety ← shelter_file Us ourPawns theirPawns ksq (kf - 1) safety;
  safety ← shelter_file Us ourPawns theirPawns ksq kf safety;
  safety ← shelter_file Us ourPawns theirPawns ksq (kf + 1) safety;
  Ok safety.

(** ** pawns.cpp: [Entry::do_king_safety<Us>] *)

(** [while (!(DistanceRingsBB[ksq][minKingPawnDistance[Us]++] & pawns)) {}]:
    [d] is the counter before the test; the table has 8 rings per square, and
    [rings] counts those not read yet. *)
Fixpoint ring_search (rings : nat) (ksq : Square) (pawns : Bitboard) (d : Z) : result Z :=
  match rings with
  | O => Abort OutOfBounds
  | S n =>
      if nz (Z.land (DistanceRingsBB ksq d) pawns) then Ok (d + 1)
      else ring_search n ksq pawns (d + 1)
  end.

Definition do_king_safety (Us : Color) (pos : Position) (ksq : Square) (e : Entry)
  : result (Score * Entry) :=
  let e := set_kingSquares Us ksq e in
  let e := set_castlingRights Us (can_castle_c pos Us) e in
  let e := set_minKingPawnDistance Us 0 e in
  let pawns := pieces pos Us in
  e ← (if nz pawns
       then d ← ring_search 8 ksq pawns (get Us (minKingPawnDistance e));
            Ok (set_minKingPawnDistance Us d e)
       else Ok e);
  if relative_rank_sq Us ksq >? RANK_4
  then Ok (make_score 0 (-16 * get Us (minKingPawnDistance e)), e)
  else
    bonus ← shelter_storm Us pos ksq;
    (* If we can castle use the bonus after the castling if it is bigger *)
    bonus ← (if nz (can_castle pos (MakeCastling_right Us KING_SIDE))
             then b' ← shelter_storm Us pos (relative_square Us SQ_G1);
                  Ok (Z.max bonus b')
             else Ok bonus);
    bonus ← (if nz (can_castle pos (MakeCastling_right Us QUEEN_SIDE))
             then b' ← shelter_storm Us pos (relative_square Us SQ_C1);
                  Ok (Z.max bonus b')
             else Ok bonus);
    Ok (make_score bonus (-16 * get Us (minKingPawnDistance e)), e).

(** * Notions the properties are stated with *)

(** ** Well-formed inputs *)

(** A [uint64_t] value. *)
Definition is_bb (b : Z) : bool := (0 <=? b) && (b <? 2 ^ 64).

(** A position is well formed when its bitboards are 64-bit values, and, for
    each side, the pawn list, the pawn bitboard and the board agree: the list
    holds at most eight squares, all on the ranks 2 to 7, each carrying a
    pawn of the side on the board and in the bitboard, and every pawn of the
    bitboard is in the list. *)
Definition wf_side (pos : Position) (c : Color) : bool :=
  (length (list_PAWN pos c) <=? 8)%nat
  && forallb (fun s => (8 <=? s) && (s <? 56)
                       && (piece_on pos s =? make_piece c PAWN)
                       && Z.testbit (pieces pos c) s)
             (list_PAWN pos c)
  && forallb (fun s => implb (Z.testbit (pieces pos c) s)
                             (existsb (Z.eqb s) (list_PAWN pos c)))
             squares.

Definition wf_position (pos : Position) : bool :=
  is_bb (byTypeBB_PAWN pos)
  && is_bb (pieces_c pos WHITE) && is_bb (pieces_c pos BLACK)
  && wf_side pos WHITE && wf_side pos BLACK.

(** A king square for side [c]: on the board, and not on a pawn of [c]. *)
Definition wf_king (pos : Position) (c : Color) (ksq : Square) : bool :=
  is_ok ksq && negb (Z.testbit (pieces pos c) ksq).

(** ** Board geometry, square by square *)

(** [t] lies on a rank ahead of [s], seen from side [c]. *)
Definition ahead (c : Color) (s t : Square) : bool :=
  match c with
  | WHITE => rank_of s <? rank_of t
  | BLACK => rank_of t <? rank_of s
  end.

Definition same_file (s t : Square) : bool := file_of s =? file_of t.
Definition adjacent_file (s t : Square) : bool := Z.abs (file_of s - file_of t) =? 1.
Definition same_rank (s t : Square) : bool := rank_of s =? rank_of t.

(** Some pawn of the bitboard [pawns] stands on a square that satisfies [p]. *)
Definition some_pawn (pawns : Bitboard) (p : Square -> bool) : bool :=
  existsb (fun t => Z.testbit pawns t && p t) squares.

(** A pawn on [s] is doubled: an own pawn strictly ahead on its file. *)
Definition is_doubled (c : Color) (ourPawns : Bitboard) (s : Square) : bool :=
  some_pawn ourPawns (fun t => same_file s t && ahead c s t).

(** A pawn on [s] is passed: no enemy pawn ahead on its file or on an
    adjacent file. *)
Definition is_passed (c : Color) (theirPawns : Bitboard) (s : Square) : bool :=
  negb (some_pawn theirPawns
          (fun t => (same_file s t || adjacent_file s t) && ahead c s t)).

(** ** Files and their span *)

Definition files : list File := [0; 1; 2; 3; 4; 5; 6; 7].

(** The distance between the leftmost and the rightmost file that satisfies
    [p], and 0 when there is none. *)
Definition file_span (p : File -> bool) : Z :=
  match List.filter p files with
  | [] => 0
  | f :: fs => List.last fs f - f
  end.

(** A file is semi-open for a side iff no pawn of that side occupies it. *)
Definition semiopen_file (pos : Position) (c : Color) (f : File) : bool :=
  negb (existsb (fun s => file_of s =? f) (list_PAWN pos c)).

Definition occupied_file (pos : Position) (c : Color) (f : File) : bool :=
  existsb (fun s => file_of s =? f) (list_PAWN pos c).

(** ** The closest pawn *)

(** [d] is the least distance between [ksq] and a pawn of [pawns]. *)
Definition closest_pawn_at (ksq : Square) (pawns : Bitboard) (d : Z) : Prop :=
  (exists t, 0 <= t < 64 /\ Z.testbit pawns t = true /\ SquareDistance ksq t = d)
  /\ (forall t, 0 <= t < 64 -> Z.testbit pawns t = true -> d <= SquareDistance ksq t).

(** ** The colour-flipped mirror of a position *)

(** The bitboard seen upside down: rank 1 and rank 8 exchanged, and so on. *)
Definition flip_bb (b : Bitboard) : Bitboard :=
  fold_left
    (fun acc r => Z.lor acc (Z.shiftl (Z.land (Z.shiftr b (8 * r)) Rank1BB) (8 * (7 - r))))
    files 0.

(** [~pc]: the piece of the other colour. *)
Definition flip_piece (pc : Z) : Z := if pc =? 0 then 0 else Z.lxor pc 8.

Definition flip_castling (cr : Z) : Z :=
  Z.lor (Z.shiftl (Z.land cr 3) 2) (Z.land (Z.shiftr cr 2) 3).

(** The mirror of [pos]: every piece moved to the vertically flipped square
    and given to the other side.  Its pawn key [k] is whatever the host
    computes for it. *)
Definition mirror (k : Key) (pos : Position) : Position :=
  mkPosition
    (flip_bb (byTypeBB_PAWN pos))
    (by_color (flip_bb (pieces_c pos BLACK)) (flip_bb (pieces_c pos WHITE)))
    (map (fun s => flip_piece (piece_on pos (flip_sq s))) squares)
    (by_color (map flip_sq (list_PAWN pos BLACK)) (map flip_sq (list_PAWN pos WHITE)))
    (flip_castling (st_castlingRights pos))
    k.

(** [l1] and [l2] hold the same squares of the board, in any order. *)
Definition same_squares (l1 l2 : list Square) : bool :=
  forallb is_ok l1 && forallb is_ok l2
  && forallb (fun s => (count_occ Z.eq_dec l1 s =? count_occ Z.eq_dec l2 s)%nat) squares.

(** [mpos] is a colour-flipped mirror of [pos]: every piece stands on the
    vertically flipped square and belongs to the other side.  The order of
    the pawn lists and the pawn key are left to the host. *)
Definition is_mirror (pos mpos : Position) : bool :=
  (byTypeBB_PAWN mpos =? flip_bb (byTypeBB_PAWN pos))
  && (pieces_c mpos WHITE =? flip_bb (pieces_c pos BLACK))
  && (pieces_c mpos BLACK =? flip_bb (pieces_c pos WHITE))
  && forallb (fun s => piece_on mpos (flip_sq s) =? flip_piece (piece_on pos s)) squares
  && same_squares (list_PAWN mpos WHITE) (map flip_sq (list_PAWN pos BLACK))
  && same_squares (list_PAWN mpos BLACK) (map flip_sq (list_PAWN pos WHITE))
  && (st_castlingRights mpos =? flip_castling (st_castlingRights pos)).

(** ** The cache *)

(** The number of slots of the table is a power of two. *)
Definition wf_table (entries : Table) : bool :=
  existsb (fun n => Z.of_nat (length (table entries)) =? 2 ^ n) squares.

(** The slot of [pos] holds another key: [probe] takes its slow path. *)
Definition is_miss (pos : Position) (entries : Table) : bool :=
  match table entries !! slot entries (pawn_key pos) with
  | Some e => negb (key e =? pawn_key pos)
  | None => false
  end.

(** The slow path of [probe]: the entry [e] of the slot, repopulated for [pos]. *)
Definition repopulate (pos : Position) (e : Entry) : result Entry :=
  let e := set_key (pawn_key pos) e in
  '(w, e) ← evaluate WHITE pos e;
  '(b, e) ← evaluate BLACK pos e;
  Ok (set_value (score_sub w b) e).

(** ** Sample positions *)

Definition bb_of (l : list Square) : Bitboard :=
  fold_right (fun s acc => Z.lor (SquareBB s) acc) 0 l.

(** A position with white pawns on [wp], black pawns on [bp] and nothing else. *)
Definition pawns_position (wp bp : list Square) (cr : Z) (k : Key) : Position :=
  mkPosition
    (bb_of (wp ++ bp))
    (by_color (bb_of wp) (bb_of bp))
    (map (fun s => if existsb (Z.eqb s) wp then make_piece WHITE PAWN
                   else if existsb (Z.eqb s) bp then make_piece BLACK PAWN
                   else 0) squares)
    (by_color wp bp) cr k.

(** All sixteen pawns at home, full castling rights. *)
Definition start_position (k : Key) : Position :=
  pawns_position [8; 9; 10; 11; 12; 13; 14; 15] [48; 49; 50; 51; 52; 53; 54; 55] 15 k.

(** White: a2, a3, d4.  Black: d5, b6. *)
Definition sample_position (k : Key) : Position :=
  pawns_position [8; 16; 27] [35; 41] 0 k.

(** White pawns on a2 and h2 only. *)
Definition rook_pawns_position : Position := pawns_position [8; 15] [] 0 99.

(** * Notions of the proofs *)

(** What one turn of the loop does to the entry. *)
Definition step_entry (Us : Color) (s : Square) (fl : PawnFlags) (e : Entry) : Entry :=
  let e := set_semiopenFiles Us
             (Z.land (get Us (semiopenFiles e)) (Z.lnot (Z.shiftl 1 (file_of s)))) e in
  if passed fl && negb (nz (doubled fl))
  then set_passedPawns Us (Z.lor (get Us (passedPawns e)) (SquareBB s)) e
  else e.

(** The semi-open mask after the pawns [pl], starting from [m]. *)
Definition semiopen_after (pl : list Square) (m : Z) : Z :=
  fold_left (fun m s => Z.land m (Z.lnot (Z.shiftl 1 (file_of s)))) pl m.

(** The pawn on [s] is entered in [passedPawns]. *)
Definition candidate (Us : Color) (ours theirs : Bitboard) (s : Square) : bool :=
  negb (nz (Z.land theirs (passed_pawn_mask Us s)))
  && negb (nz (Z.land ours (forward_bb Us s))).

(** [b ? int(msb(b) - lsb(b)) : 0] for [b = semiopenFiles ^ 0xFF]. *)
Definition span_of_mask (m : Z) : result Z :=
  let b := Z.lxor m 0xFF in
  if nz b
  then hi ← of_option EmptyScan (msb b);
       lo ← of_option EmptyScan (lsb b);
       Ok (hi - lo)
  else Ok 0.

(** The entry as [evaluate] prepares it before the loop. *)
Definition evaluate_init (Us : Color) (pos : Position) (e : Entry) : Entry :=
  let Right := match Us with WHITE => DELTA_NE | BLACK => DELTA_SW end in
  let Left := match Us with WHITE => DELTA_NW | BLACK => DELTA_SE end in
  let ourPawns := pieces pos Us in
  let e := set_passedPawns Us 0 e in
  let e := set_kingSquares Us SQ_NONE e in
  let e := set_semiopenFiles Us 0xFF e in
  let e := set_pawnAttacks Us (Z.lor (shift_bb Right ourPawns) (shift_bb Left ourPawns)) e in
  let e := set_pawnsOnSquares Us BLACK (popcount (Z.land ourPawns DarkSquares)) e in
  set_pawnsOnSquares Us WHITE (count_PAWN pos Us - get BLACK (get Us (pawnsOnSquares e))) e.

(** The scan of the flipped board, seen from the other side, finds a square
    on the mirrored rank. *)
Definition mirrored_scan (o o' : option Square) : Prop :=
  match o with
  | Some i => exists j, o' = Some j /\ 0 <= j < 64 /\ rank_of j = 7 - rank_of i
  | None => o' = None
  end.

(** The flags of the mirrored pawn: the same, on the flipped board. *)
Definition flip_flags (fl : PawnFlags) : PawnFlags :=
  mkFlags (flip_bb (connected fl)) (phalanx fl) (unsupported fl) (isolated fl)
          (flip_bb (doubled fl)) (opposed fl) (passed fl) (lever fl) (backward fl).

Definition result_map {A B : Type} (f : A -> B) (r : result A) : result B :=
  match r with
  | Ok a => Ok (f a)
  | Abort x => Abort x
  end.

(** * Notions of the further properties *)

(** ** The generator, draw by draw *)

(** The three xor-shifts of [rand64], as one function of the state. *)
Definition xorshift (a : Z) : Z :=
  let x1 := Z.lxor a (Z.shiftr a 12) in
  let x2 := Z.lxor x1 (u64 (Z.shiftl x1 25)) in
  Z.lxor x2 (Z.shiftr x2 27).

(** A state the generator can be in: a non-zero [uint64_t]. *)
Definition live (s : PRNG.t) : bool := is_bb (PRNG.x s) && nz (PRNG.x s).

(** ** One rank ahead, one rank behind *)

(** [t] lies on the rank next to that of [s], ahead or behind, seen from
    side [c]. *)
Definition one_rank_ahead (c : Color) (s t : Square) : bool :=
  rank_of t =? rank_of s + (1 - 2 * color_index c).
Definition one_rank_behind (c : Color) (s t : Square) : bool :=
  rank_of t =? rank_of s - (1 - 2 * color_index c).

(** ** Pawns ahead on the adjacent files *)

(** [t] holds a pawn of the bitboard [pawns], on a file adjacent to that of
    [s] and ahead of [s], seen from side [c]. *)
Definition pawn_ahead_beside (c : Color) (pawns : Bitboard) (s t : Square) : bool :=
  Z.testbit pawns t && adjacent_file s t && ahead c s t.

(** ** The slots of one side *)

(** What an entry holds of the pawns of side [c]: the slots that
    [evaluate<c>] writes. *)
Definition pawn_slots (c : Color) (e : Entry)
  : Bitboard * Bitboard * Square * Z * Z * ByColor Z :=
  (get c (passedPawns e), get c (pawnAttacks e), get c (kingSquares e),
   get c (semiopenFiles e), get c (pawnSpan e), get c (pawnsOnSquares e)).

(** What an entry holds of the king of side [c]: the slots that
    [do_king_safety<c>] writes, and the score the caller keeps next to them. *)
Definition king_slots (c : Color) (e : Entry) : Square * Z * Z * Score :=
  (get c (kingSquares e), get c (castlingRights e), get c (minKingPawnDistance e),
   get c (kingSafety e)).

(** ** The score of one pawn *)

(** What the pawn on [s] adds to the value of its side: its flags, scored
    from zero. *)
Definition pawn_score (Us : Color) (pos : Position) (s : Square) : result Score :=
  fl ← classify Us (pieces pos Us) (pieces pos (opp Us)) s;
  score_pawn Us s fl SCORE_ZERO.

(** ** The shelter of one file *)

(** [rkUs]: the relative rank of the rearmost own pawn of the file, and
    [RANK_1] when the file holds none. *)
Definition shelter_rank (Us : Color) (ourPawns : Bitboard) (f : File) : result Rank :=
  let b := Z.land ourPawns (file_bb f) in
  if nz b then sq ← of_option EmptyScan (backmost_sq Us b); Ok (relative_rank_sq Us sq)
  else Ok RANK_1.

(** [rkThem]: the relative rank of the foremost enemy pawn of the file, and
    [RANK_1] when the file holds none. *)
Definition storm_rank (Us : Color) (theirPawns : Bitboard) (f : File) : result Rank :=
  let b := Z.land theirPawns (file_bb f) in
  if nz b then sq ← of_option EmptyScan (frontmost_sq (opp Us) b);
               Ok (relative_rank_sq Us sq)
  else Ok RANK_1.

(** What the file [f] subtracts from [safety] when it gives no bonus. *)
Definition file_penalty (rkUs rkThem : Rank) : Value :=
  at_Z ShelterWeakness rkUs
  + at_Z (StormDanger (if rkUs =? RANK_1 then 0
                       else if negb (rkThem =? rkUs + 1) then 1 else 2)) rkThem.

(** The test of the bonus of 200. *)
Definition edge_bonus (Us : Color) (ksq : Square) (f : File) (rkThem : Rank) : bool :=
  nz (Z.land Edges (SquareBB (make_square f rkThem)))
  && (file_of ksq =? f) && (relative_rank_sq Us ksq =? rkThem - 1).

(** ** The score of [do_king_safety] *)

(** [minKingPawnDistance[Us]] as [do_king_safety] leaves it. *)
Definition king_distance (Us : Color) (pos : Position) (ksq : Square) : result Z :=
  if nz (pieces pos Us) then ring_search 8 ksq (pieces pos Us) 0 else Ok 0.

(** The shelter bonus, with the squares the king can castle to. *)
Definition king_bonus (Us : Color) (pos : Position) (ksq : Square) : result Value :=
  bonus ← shelter_storm Us pos ksq;
  bonus ← (if nz (can_castle pos (MakeCastling_right Us KING_SIDE))
           then b' ← shelter_storm Us pos (relative_square Us SQ_G1);
                Ok (Z.max bonus b')
           else Ok bonus);
  bonus ← (if nz (can_castle pos (MakeCastling_right Us QUEEN_SIDE))
           then b' ← shelter_storm Us pos (relative_square Us SQ_C1);
                Ok (Z.max bonus b')
           else Ok bonus);
  Ok bonus.

(** The score [do_king_safety] returns. *)
Definition king_score (Us : Color) (pos : Position) (ksq : Square) : result Score :=
  d ← king_distance Us pos ksq;
  if relative_rank_sq Us ksq >? RANK_4 then Ok (make_score 0 (-16 * d))
  else bonus ← king_bonus Us pos ksq; Ok (make_score bonus (-16 * d)).

(** ** The pawns in front of the king *)

(** The pawns of side [c] that [shelter_storm<Us>] looks at: those on the
    rank of the king or ahead of it. *)
Definition shelter_pawns (Us : Color) (pos : Position) (ksq : Square) (c : Color)
  : Bitboard :=
  Z.land (Z.land (pieces_pt pos) (Z.lor (in_front_bb Us (rank_of ksq)) (rank_bb_sq ksq)))
         (pieces_c pos c).

(** The two files that [shelter_storm] examines next to a king on the a-file
    (b and c) or on the h-file (f and g). *)
Definition inner_files (ksq : Square) : File * File :=
  if file_of ksq =? FILE_A then (FILE_B, 2) else (5, FILE_G).

(** [shelter_storm] returns the baseline plus 200, less the weakness and the
    storm danger of the two inner files: the file of the king gives the
    bonus and subtracts nothing. *)
Definition bonus_on_king_file (Us : Color) (pos : Position) (ksq : Square) : Prop :=
  let ours := shelter_pawns Us pos ksq Us in
  let theirs := shelter_pawns Us pos ksq (opp Us) in
  exists ru1 rt1 ru2 rt2,
    shelter_rank Us ours (fst (inner_files ksq)) = Ok ru1
    /\ storm_rank Us theirs (fst (inner_files ksq)) = Ok rt1
    /\ shelter_rank Us ours (snd (inner_files ksq)) = Ok ru2
    /\ storm_rank Us theirs (snd (inner_files ksq)) = Ok rt2
    /\ shelter_storm Us pos ksq
       = Ok (MaxSafetyBonus + 200 - file_penalty ru1 rt1 - file_penalty ru2 rt2).

(** * Proofs *)

(** ** Integers, bitboards and squares *)

Lemma nz_true (b : Z) : nz b = true <-> b <> 0.
Proof. unfold nz. rewrite negb_true_iff, Z.eqb_neq. tauto. Qed.

Lemma nz_false (b : Z) : nz b = false <-> b = 0.
Proof. unfold nz. rewrite negb_false_iff, Z.eqb_eq. tauto. Qed.

Lemma nz_lor (a b : Z) : nz (Z.lor a b) = nz a || nz b.
Proof.
  destruct (nz a) eqn:Ea, (nz b) eqn:Eb; cbn;
    rewrite ?nz_true, ?nz_false in *; rewrite Z.lor_eq_0_iff; tauto.
Qed.

Lemma nz_b2z (b : bool) : nz (Z.b2z b) = b.
Proof. now destruct b. Qed.

Lemma nz_land_0_l (a b : Z) : nz a = false -> nz (Z.land a b) = false.
Proof. rewrite !nz_false. intros ->. apply Z.land_0_l. Qed.

Lemma squares_spec (s : Z) : In s squares <-> 0 <= s < 64.
Proof.
  unfold squares. rewrite in_map_iff. split.
  - intros (n & <- & Hn). apply in_seq in Hn. lia.
  - intros H. exists (Z.to_nat s). split; [lia|]. apply in_seq. lia.
Qed.

Lemma forallb_squares (P : Z -> bool) :
  forallb P squares = true -> forall s, 0 <= s < 64 -> P s = true.
Proof.
  intros H s Hs. rewrite forallb_forall in H. apply H, squares_spec, Hs.
Qed.

Lemma is_bb_spec (b : Z) : is_bb b = true <-> 0 <= b < 2 ^ 64.
Proof. unfold is_bb. rewrite andb_true_iff, Z.leb_le, Z.ltb_lt. tauto. Qed.

Lemma is_bb_high (m i : Z) : is_bb m = true -> 64 <= i -> Z.testbit m i = false.
Proof.
  rewrite is_bb_spec. intros [H0 H1] Hi.
  destruct (Z.eq_dec m 0) as [->|Hm]; [apply Z.bits_0|].
  apply Z.bits_above_log2; [lia|].
  assert (Z.log2 m < 64); [|lia]. apply Z.log2_lt_pow2; lia.
Qed.

Lemma u64_mod (z : Z) : u64 z = z mod 2 ^ 64.
Proof. unfold u64. change 0xFFFFFFFFFFFFFFFF with (Z.ones 64). apply Z.land_ones. lia. Qed.

Lemma is_bb_u64 (b : Z) : is_bb b = true <-> u64 b = b.
Proof.
  rewrite is_bb_spec, u64_mod. split.
  - intros H. apply Z.mod_small, H.
  - intros <-. apply Z.mod_pos_bound. lia.
Qed.

Lemma u64_is_bb (z : Z) : is_bb (u64 z) = true.
Proof. rewrite is_bb_spec, u64_mod. apply Z.mod_pos_bound. lia. Qed.

Lemma is_bb_land_r (a m : Z) : is_bb m = true -> is_bb (Z.land a m) = true.
Proof.
  rewrite !is_bb_u64. unfold u64. intros H.
  rewrite <- Z.land_assoc. now rewrite H.
Qed.

Lemma is_bb_land_l (m a : Z) : is_bb m = true -> is_bb (Z.land m a) = true.
Proof. rewrite Z.land_comm. apply is_bb_land_r. Qed.

Lemma is_bb_lor (a b : Z) : is_bb a = true -> is_bb b = true -> is_bb (Z.lor a b) = true.
Proof.
  rewrite !is_bb_u64. unfold u64. intros Ha Hb.
  rewrite Z.land_lor_distr_l. now rewrite Ha, Hb.
Qed.

(** The test [a & m] of the code, bit by bit. *)
Lemma nz_land_squares (a m : Z) :
  is_bb m = true ->
  nz (Z.land a m) = some_pawn a (Z.testbit m).
Proof.
  intros Hm. unfold some_pawn. destruct (existsb _ _) eqn:E.
  - apply existsb_exists in E as (i & Hi & Hb). apply nz_true. intros H0.
    assert (Z.testbit (Z.land a m) i = true) by (rewrite Z.land_spec; exact Hb).
    rewrite H0, Z.bits_0 in H. discriminate.
  - apply nz_false. apply Z.bits_inj'. intros i Hi. rewrite Z.bits_0, Z.land_spec.
    destruct (Z_lt_le_dec i 64).
    + assert (Hin : In i squares) by (apply squares_spec; lia).
      destruct (Z.testbit a i && Z.testbit m i) eqn:Eb; [|reflexivity].
      assert (existsb (fun i => Z.testbit a i && Z.testbit m i) squares = true).
      { apply existsb_exists. eauto. }
      congruence.
    + rewrite (is_bb_high m i) by (auto; lia). apply andb_false_r.
Qed.

Lemma existsb_ext_in {A : Type} (f g : A -> bool) (l : list A) :
  (forall x, In x l -> f x = g x) -> existsb f l = existsb g l.
Proof.
  induction l as [|a l IH]; intros H; cbn; [reflexivity|].
  rewrite (H a) by (left; reflexivity). f_equal. apply IH.
  intros x Hx. apply H. right. exact Hx.
Qed.

Lemma some_pawn_ext (a : Z) (p q : Square -> bool) :
  (forall t, 0 <= t < 64 -> p t = q t) -> some_pawn a p = some_pawn a q.
Proof.
  intros H. unfold some_pawn. apply existsb_ext_in.
  intros t Ht. apply squares_spec in Ht. now rewrite H.
Qed.

Lemma some_pawn_true (a : Z) (p : Square -> bool) :
  some_pawn a p = true <-> exists t, 0 <= t < 64 /\ Z.testbit a t = true /\ p t = true.
Proof.
  unfold some_pawn. rewrite existsb_exists. split.
  - intros (t & Ht & Hb). apply andb_true_iff in Hb. apply squares_spec in Ht. eauto.
  - intros (t & Ht & Ha & Hp). exists t. rewrite squares_spec, Ha, Hp. auto.
Qed.

Lemma nz_testbit (x t : Z) : Z.testbit x t = true -> nz x = true.
Proof. intros H. apply nz_true. intros ->. rewrite Z.bits_0 in H. discriminate. Qed.

Lemma nz_bit (x : Z) :
  is_bb x = true -> nz x = true -> exists t, 0 <= t < 64 /\ Z.testbit x t = true.
Proof.
  intros Hx Hn. assert (E : x = Z.land x x) by (symmetry; apply Z.land_diag).
  rewrite E, nz_land_squares in Hn by exact Hx.
  apply some_pawn_true in Hn as (t & Ht & Hb & _). eauto.
Qed.

(** *** Bit scans *)

Lemma find_up (f : Z -> bool) (n a : nat) (x : Z) :
  List.find f (map Z.of_nat (seq a n)) = Some x ->
  f x = true /\ Z.of_nat a <= x < Z.of_nat (a + n)
  /\ forall j, Z.of_nat a <= j < x -> f j = false.
Proof.
  revert a. induction n as [|n IH]; intros a; cbn; [discriminate|].
  destruct (f (Z.of_nat a)) eqn:E.
  - intros [= <-]. repeat split; auto; lia.
  - intros H. apply IH in H as (Hf & Hr & Hl). repeat split; auto; try lia.
    intros j Hj. destruct (Z.eq_dec j (Z.of_nat a)) as [->|Hne]; [exact E|].
    apply Hl. lia.
Qed.

Lemma find_down (f : Z -> bool) (n a : nat) (x : Z) :
  List.find f (rev (map Z.of_nat (seq a n))) = Some x ->
  f x = true /\ Z.of_nat a <= x < Z.of_nat (a + n)
  /\ forall j, x < j < Z.of_nat (a + n) -> f j = false.
Proof.
  induction n as [|n IH]; [cbn; discriminate|].
  rewrite seq_S, map_app, rev_app_distr. cbn.
  destruct (f (Z.of_nat (a + n))) eqn:E.
  - intros [= <-]. repeat split; auto; lia.
  - intros H. apply IH in H as (Hf & Hr & Hl). repeat split; auto; try lia.
    intros j Hj. destruct (Z.eq_dec j (Z.of_nat (a + n))) as [->|Hne]; [exact E|].
    apply Hl. lia.
Qed.

Lemma lsb_Some (b : Bitboard) (i : Square) :
  lsb b = Some i ->
  Z.testbit b i = true /\ 0 <= i < 64 /\ forall j, 0 <= j < i -> Z.testbit b j = false.
Proof. intros H. apply find_up in H. exact H. Qed.

Lemma msb_Some (b : Bitboard) (i : Square) :
  msb b = Some i ->
  Z.testbit b i = true /\ 0 <= i < 64 /\ forall j, i < j < 64 -> Z.testbit b j = false.
Proof. intros H. apply find_down in H. exact H. Qed.

Lemma find_is_Some {A : Type} (f : A -> bool) (l : list A) (x : A) :
  In x l -> f x = true -> exists y, List.find f l = Some y.
Proof.
  intros Hin Hf. destruct (List.find f l) as [y|] eqn:E; [eauto|].
  rewrite (find_none _ _ E x Hin) in Hf. discriminate.
Qed.

Lemma lsb_defined (b : Bitboard) :
  is_bb b = true -> nz b = true -> exists i, lsb b = Some i.
Proof.
  intros Hb Hn. destruct (nz_bit b Hb Hn) as (t & Ht & Hbit).
  apply (find_is_Some _ _ t); [apply squares_spec, Ht|exact Hbit].
Qed.

Lemma msb_defined (b : Bitboard) :
  is_bb b = true -> nz b = true -> exists i, msb b = Some i.
Proof.
  intros Hb Hn. destruct (nz_bit b Hb Hn) as (t & Ht & Hbit).
  apply (find_is_Some _ _ t); [|exact Hbit].
  apply in_rev. rewrite rev_involutive. apply squares_spec, Ht.
Qed.

Lemma backmost_sq_defined (c : Color) (b : Bitboard) :
  is_bb b = true -> nz b = true -> exists i, backmost_sq c b = Some i.
Proof. destruct c; [apply lsb_defined|apply msb_defined]. Qed.

Lemma frontmost_sq_defined (c : Color) (b : Bitboard) :
  is_bb b = true -> nz b = true -> exists i, frontmost_sq c b = Some i.
Proof. destruct c; [apply msb_defined|apply lsb_defined]. Qed.

(** *** The masks, square by square *)

Lemma mask_cases (M : Square -> Bitboard) (P : Square -> Square -> bool) :
  forallb (fun s => is_bb (M s)
                    && forallb (fun t => eqb (Z.testbit (M s) t) (P s t)) squares)
          squares = true ->
  forall s, 0 <= s < 64 ->
    is_bb (M s) = true /\ forall t, 0 <= t < 64 -> Z.testbit (M s) t = P s t.
Proof.
  intros H s Hs. apply (forallb_squares _ H) in Hs. apply andb_true_iff in Hs as [Hb Hs].
  split; [exact Hb|]. intros t Ht. apply (forallb_squares _ Hs) in Ht.
  apply eqb_prop in Ht. exact Ht.
Qed.

Lemma forward_bb_spec (c : Color) (s : Square) :
  0 <= s < 64 ->
  is_bb (forward_bb c s) = true
  /\ forall t, 0 <= t < 64 -> Z.testbit (forward_bb c s) t = same_file s t && ahead c s t.
Proof.
  apply (mask_cases (forward_bb c) (fun s t => same_file s t && ahead c s t)).
  destruct c; vm_compute; reflexivity.
Qed.

Lemma pawn_attack_span_spec (c : Color) (s : Square) :
  0 <= s < 64 ->
  is_bb (pawn_attack_span c s) = true
  /\ forall t, 0 <= t < 64 ->
       Z.testbit (pawn_attack_span c s) t = adjacent_file s t && ahead c s t.
Proof.
  apply (mask_cases (pawn_attack_span c) (fun s t => adjacent_file s t && ahead c s t)).
  destruct c; vm_compute; reflexivity.
Qed.

Lemma passed_pawn_mask_spec (c : Color) (s : Square) :
  0 <= s < 64 ->
  is_bb (passed_pawn_mask c s) = true
  /\ forall t, 0 <= t < 64 ->
       Z.testbit (passed_pawn_mask c s) t
       = (same_file s t || adjacent_file s t) && ahead c s t.
Proof.
  apply (mask_cases (passed_pawn_mask c)
           (fun s t => (same_file s t || adjacent_file s t) && ahead c s t)).
  destruct c; vm_compute; reflexivity.
Qed.

Lemma rank_bb_sq_spec (s : Square) :
  0 <= s < 64 ->
  is_bb (rank_bb_sq s) = true
  /\ forall t, 0 <= t < 64 -> Z.testbit (rank_bb_sq s) t = same_rank s t.
Proof. apply (mask_cases rank_bb_sq same_rank). vm_compute; reflexivity. Qed.

Lemma adjacent_files_bb_spec (s : Square) :
  0 <= s < 64 ->
  is_bb (adjacent_files_bb (file_of s)) = true
  /\ forall t, 0 <= t < 64 ->
       Z.testbit (adjacent_files_bb (file_of s)) t = adjacent_file s t.
Proof.
  apply (mask_cases (fun s => adjacent_files_bb (file_of s)) adjacent_file).
  vm_compute; reflexivity.
Qed.

Lemma pawn_attacks_bb_spec (c : Color) (s : Square) :
  0 <= s < 64 ->
  is_bb (pawn_attacks_bb c s) = true
  /\ forall t, 0 <= t < 64 ->
       Z.testbit (pawn_attacks_bb c s) t
       = adjacent_file s t && (rank_of t =? rank_of s + (1 - 2 * color_index c)).
Proof.
  apply (mask_cases (pawn_attacks_bb c)
           (fun s t => adjacent_file s t
                       && (rank_of t =? rank_of s + (1 - 2 * color_index c)))).
  destruct c; vm_compute; reflexivity.
Qed.

Lemma file_bb_spec (f : File) :
  0 <= f < 8 ->
  is_bb (file_bb f) = true
  /\ forall t, 0 <= t < 64 -> Z.testbit (file_bb f) t = (file_of t =? f).
Proof.
  intros Hf. assert (Hs : 0 <= f < 64) by lia.
  revert f Hs Hf.
  enough (H : forall s, 0 <= s < 64 -> (s <? 8) = true ->
             is_bb (file_bb s) = true
             /\ forall t, 0 <= t < 64 -> Z.testbit (file_bb s) t = (file_of t =? s)).
  { intros f Hs Hf. apply H; [exact Hs|]. apply Z.ltb_lt. lia. }
  intros s Hs.
  pose proof (mask_cases (fun s => if s <? 8 then file_bb s else 0)
                         (fun s t => (s <? 8) && (file_of t =? s))) as M.
  specialize (M ltac:(vm_compute; reflexivity) s Hs). cbv beta in M.
  intros E. rewrite E in M. exact M.
Qed.

(** ** The generator *)

(** C9.  Constructing the generator with seed 0 fails its assertion; with
    any other seed the construction succeeds, and the state is the seed. *)
Theorem PRNG_requires_a_nonzero_seed :
  PRNG.PRNG 0 = Abort AssertSeed
  /\ forall seed, seed <> 0 -> PRNG.PRNG seed = Ok (PRNG.mk seed).
Proof.
  split; [reflexivity|].
  intros seed Hseed. unfold PRNG.PRNG. rewrite (proj2 (nz_true seed) Hseed). reflexivity.
Qed.

Lemma PRNG_requires_a_nonzero_seed_witness :
  PRNG.PRNG 1070372 = Ok (PRNG.mk 1070372).
Proof. apply (proj2 PRNG_requires_a_nonzero_seed). lia. Defined.

(** ** The classifier: the flags of one pawn *)

(** Inversion of a successful [classify]. *)
Lemma classify_Ok (Us : Color) (ours theirs : Bitboard) (s : Square) (fl : PawnFlags) :
  classify Us ours theirs s = Ok fl ->
  let adj := Z.land ours (adjacent_files_bb (file_of s)) in
  connected fl = Z.land adj (Z.lor (rank_bb_sq s) (rank_bb_sq (s - pawn_push Us)))
  /\ phalanx fl = nz (Z.land (connected fl) (rank_bb_sq s))
  /\ unsupported fl = negb (nz (Z.land adj (rank_bb_sq (s - pawn_push Us))))
  /\ isolated fl = negb (nz adj)
  /\ doubled fl = Z.land ours (forward_bb Us s)
  /\ opposed fl = nz (Z.land theirs (forward_bb Us s))
  /\ passed fl = negb (nz (Z.land theirs (passed_pawn_mask Us s)))
  /\ lever fl = nz (Z.land theirs (pawn_attacks_bb Us s))
  /\ (backward fl = true ->
      passed fl = false /\ isolated fl = false /\ nz (connected fl) = false
      /\ nz (Z.land ours (pawn_attack_span (opp Us) s)) = false
      /\ lever fl = false)
  /\ (opposed fl || passed fl || nz (Z.land (pawn_attack_span Us s) theirs) = true).
Proof.
  unfold classify. cbv zeta.
  set (adj := Z.land ours (adjacent_files_bb (file_of s))).
  set (conn := Z.land adj _).
  set (psd := negb (nz (Z.land theirs (passed_pawn_mask Us s)))).
  set (iso := negb (nz adj)).
  set (opd := nz (Z.land theirs (forward_bb Us s))).
  set (lev := Z.land (pawn_attacks_bb Us s) theirs).
  rewrite !nz_lor, !nz_b2z.
  destruct (psd || iso || nz conn || nz (Z.land ours (pawn_attack_span (opp Us) s))
            || nz lev) eqn:Ec;
    cbn [mbind result_bind].
  - destruct (opd || psd || _) eqn:Ea; [|discriminate].
    intros [= <-]; cbn. repeat split; try reflexivity; try discriminate; assumption.
  - apply orb_false_iff in Ec as [Ec Hlev]. apply orb_false_iff in Ec as [Ec Hspan].
    apply orb_false_iff in Ec as [Ec Hconn]. apply orb_false_iff in Ec as [Hpsd Hiso].
    destruct (backmost_sq Us _) as [sq|]; cbn; [|discriminate].
    destruct (opd || psd || _) eqn:Ea; [|discriminate].
    intros [= <-]; cbn. repeat split; try reflexivity; try assumption.
    subst lev. rewrite Z.land_comm. assumption.
Qed.

(** C6.  For every pawn that [evaluate] classifies, [isolated] and [backward]
    are never both true, and [isolated] and [connected] are never both true. *)
Theorem isolated_excludes_backward_and_connected
  (Us : Color) (ourPawns theirPawns : Bitboard) (s : Square) (fl : PawnFlags) :
  classify Us ourPawns theirPawns s = Ok fl ->
  isolated fl && backward fl = false /\ isolated fl && nz (connected fl) = false.
Proof.
  intros H. apply classify_Ok in H. cbv zeta in H.
  destruct H as (Hc & _ & _ & Hi & _ & _ & _ & _ & Hb & _).
  split.
  - destruct (isolated fl) eqn:Ei; [cbn|reflexivity].
    destruct (backward fl); [|reflexivity].
    destruct Hb as (_ & Hb & _); [reflexivity|discriminate].
  - destruct (isolated fl) eqn:Ei; [cbn|reflexivity].
    rewrite Hc. apply nz_land_0_l. symmetry in Hi. apply negb_true_iff in Hi. exact Hi.
Qed.

Lemma isolated_excludes_backward_and_connected_witness :
  exists fl,
    classify WHITE (pieces (sample_position 5) WHITE) (pieces (sample_position 5) BLACK) 27
    = Ok fl
    /\ isolated fl = true
    /\ isolated fl && backward fl = false /\ isolated fl && nz (connected fl) = false.
Proof.
  eexists. split; [vm_compute; reflexivity|]. split; [reflexivity|].
  apply (isolated_excludes_backward_and_connected
           WHITE (pieces (sample_position 5) WHITE) (pieces (sample_position 5) BLACK) 27).
  vm_compute; reflexivity.
Defined.

Lemma passed_pawn_mask_split (c : Color) (s : Square) :
  passed_pawn_mask c s = Z.lor (forward_bb c s) (pawn_attack_span c s).
Proof. unfold passed_pawn_mask, forward_bb, pawn_attack_span. apply Z.land_lor_distr_r. Qed.

(** The asserted expression of line 152 is true whatever the pawns are. *)
Lemma asserted_flags (Us : Color) (theirPawns : Bitboard) (s : Square) :
  nz (Z.land theirPawns (forward_bb Us s))
  || negb (nz (Z.land theirPawns (passed_pawn_mask Us s)))
  || nz (Z.land (pawn_attack_span Us s) theirPawns) = true.
Proof.
  rewrite passed_pawn_mask_split, Z.land_lor_distr_r, nz_lor.
  rewrite (Z.land_comm (pawn_attack_span Us s)).
  destruct (nz (Z.land theirPawns (forward_bb Us s))),
           (nz (Z.land theirPawns (pawn_attack_span Us s))); reflexivity.
Qed.

Lemma rank_trichotomy (c : Color) (s t : Square) :
  ahead c s t || same_rank s t || ahead (opp c) s t = true.
Proof.
  unfold ahead, same_rank.
  destruct c; cbn;
    destruct (Z.ltb_spec (rank_of s) (rank_of t)), (Z.eqb_spec (rank_of s) (rank_of t)),
             (Z.ltb_spec (rank_of t) (rank_of s)); cbn; try reflexivity; lia.
Qed.

(** On a square of the board the classification ends: the bit scan of the
    backward test never meets an empty bitboard, and the assertion holds. *)
Lemma classify_total (Us : Color) (ours theirs : Bitboard) (s : Square) :
  0 <= s < 64 -> exists fl, classify Us ours theirs s = Ok fl.
Proof.
  intros Hs. unfold classify. cbv zeta.
  rewrite !nz_lor, !nz_b2z, (asserted_flags Us theirs s).
  set (adj := Z.land ours (adjacent_files_bb (file_of s))).
  set (conn := Z.land adj _).
  destruct (_ || _ || nz conn || _ || _) eqn:Ec; cbn [mbind result_bind]; [eauto|].
  apply orb_false_iff in Ec as [Ec _]. apply orb_false_iff in Ec as [Ec Hspan].
  apply orb_false_iff in Ec as [Ec Hconn]. apply orb_false_iff in Ec as [_ Hiso].
  apply negb_false_iff in Hiso.
  destruct (adjacent_files_bb_spec s Hs) as [Hadj_bb Hadj].
  destruct (pawn_attack_span_spec Us s Hs) as [Hsp_bb Hsp].
  destruct (pawn_attack_span_spec (opp Us) s Hs) as [_ Hsp'].
  destruct (rank_bb_sq_spec s Hs) as [_ Hrk].
  unfold adj in Hiso. rewrite nz_land_squares in Hiso by exact Hadj_bb.
  apply some_pawn_true in Hiso as (t & Ht & Hours & Hadjt).
  rewrite Hadj in Hadjt by exact Ht.
  pose proof (rank_trichotomy Us s t) as Htri.
  apply orb_true_iff in Htri as [Htri|Hbehind]; [apply orb_true_iff in Htri as [Hahead|Hsame]|].
  - (* the neighbour is ahead: the span is not empty *)
    destruct (backmost_sq_defined Us
                (Z.land (pawn_attack_span Us s) (Z.lor ours theirs))) as [sq Hsq].
    + apply is_bb_land_l, Hsp_bb.
    + apply (nz_testbit _ t).
      rewrite Z.land_spec, Z.lor_spec, Hsp, Hadjt, Hahead, Hours by exact Ht.
      reflexivity.
    + rewrite Hsq. cbn. eauto.
  - (* the neighbour is beside: the pawn is connected *)
    exfalso. assert (nz conn = true); [|congruence].
    apply (nz_testbit _ t). unfold conn, adj.
    rewrite !Z.land_spec, Z.lor_spec, Hours, Hadj, Hadjt, Hrk, Hsame by exact Ht. reflexivity.
  - (* the neighbour is behind *)
    exfalso. assert (nz (Z.land ours (pawn_attack_span (opp Us) s)) = true); [|congruence].
    apply (nz_testbit _ t). rewrite Z.land_spec, Hours, Hsp', Hadjt, Hbehind by exact Ht.
    reflexivity.
Qed.

(** *** Squares, files and ranks *)

Lemma file_of_mod (s : Square) : file_of s = s mod 8.
Proof. unfold file_of. change 7 with (Z.ones 3). rewrite Z.land_ones by lia. reflexivity. Qed.

Lemma rank_of_div (s : Square) : rank_of s = s / 8.
Proof. unfold rank_of. rewrite Z.shiftr_div_pow2 by lia. reflexivity. Qed.

Lemma square_file_rank (s : Square) : s = 8 * rank_of s + file_of s.
Proof. rewrite file_of_mod, rank_of_div. apply Z.div_mod. lia. Qed.

Lemma file_of_range (s : Square) : 0 <= file_of s < 8.
Proof. rewrite file_of_mod. apply Z.mod_pos_bound. lia. Qed.

Lemma rank_of_range (s : Square) : 0 <= s < 64 -> 0 <= rank_of s < 8.
Proof.
  intros H. rewrite rank_of_div.
  split; [apply Z.div_pos; lia|apply Z.div_lt_upper_bound; lia].
Qed.

Lemma SquareBB_spec (s t : Square) :
  0 <= s -> Z.testbit (SquareBB s) t = (s =? t).
Proof.
  intros Hs. unfold SquareBB. rewrite Z.shiftl_1_l. apply Z.pow2_bits_eqb. exact Hs.
Qed.

(** *** Well-formed positions *)

Lemma wf_side_list (pos : Position) (c : Color) (s : Square) :
  wf_side pos c = true -> In s (list_PAWN pos c) ->
  8 <= s < 56 /\ piece_on pos s = make_piece c PAWN /\ Z.testbit (pieces pos c) s = true.
Proof.
  unfold wf_side. rewrite !andb_true_iff. intros [[_ H] _] Hin.
  rewrite forallb_forall in H. specialize (H s Hin).
  rewrite !andb_true_iff, Z.leb_le, Z.ltb_lt, Z.eqb_eq in H. tauto.
Qed.

Lemma wf_position_side (pos : Position) (c : Color) :
  wf_position pos = true -> wf_side pos c = true.
Proof. unfold wf_position. rewrite !andb_true_iff. destruct c; tauto. Qed.

Lemma wf_position_list (pos : Position) (c : Color) (s : Square) :
  wf_position pos = true -> In s (list_PAWN pos c) ->
  8 <= s < 56 /\ piece_on pos s = make_piece c PAWN /\ Z.testbit (pieces pos c) s = true.
Proof. intros H. apply wf_side_list, wf_position_side, H. Qed.

Lemma wf_position_pieces (pos : Position) (c : Color) :
  wf_position pos = true -> is_bb (pieces pos c) = true.
Proof.
  unfold wf_position. rewrite !andb_true_iff. intros [[[[H _] _] _] _].
  apply is_bb_land_r, H.
Qed.

(** *** The score of one pawn *)

Lemma score_pawn_total (Us : Color) (ours theirs : Bitboard) (s : Square)
  (fl : PawnFlags) (v : Score) :
  0 <= s < 64 -> classify Us ours theirs s = Ok fl ->
  exists v', score_pawn Us s fl v = Ok v'.
Proof.
  intros Hs Hfl. apply classify_Ok in Hfl. cbv zeta in Hfl.
  destruct Hfl as (_ & _ & _ & _ & Hd & _).
  unfold score_pawn. cbv zeta.
  destruct (nz (doubled fl)) eqn:End; cbn [mbind result_bind]; [|eauto].
  destruct (forward_bb_spec Us s Hs) as [Hf_bb Hf].
  destruct (frontmost_sq_defined Us (doubled fl)) as [front Hfront].
  { rewrite Hd. apply is_bb_land_r, Hf_bb. }
  { exact End. }
  rewrite Hfront. cbn [of_option mbind result_bind].
  assert (Hahead : 0 <= front < 64 /\ Z.testbit (doubled fl) front = true).
  { destruct Us; cbn in Hfront;
      [apply msb_Some in Hfront|apply lsb_Some in Hfront]; tauto. }
  destruct Hahead as [Hfr Hbit].
  rewrite Hd, Z.land_spec, Hf in Hbit by exact Hfr.
  apply andb_true_iff in Hbit as [_ Hbit]. apply andb_true_iff in Hbit as [_ Hah].
  unfold score_div.
  assert (distance_Rank s front <> 0) as Hne.
  { unfold distance_Rank. unfold ahead in Hah.
    destruct Us; apply Z.ltb_lt in Hah; lia. }
  apply Z.eqb_neq in Hne. rewrite Hne. cbn. eauto.
Qed.

(** *** The loop over the pawns *)

Lemma pawn_step_Ok (Us : Color) (pos : Position) (s : Square) (e e1 : Entry)
  (v v1 : Score) :
  pawn_step Us pos s (e, v) = Ok (e1, v1) ->
  piece_on pos s = make_piece Us PAWN
  /\ exists fl, classify Us (pieces pos Us) (pieces pos (opp Us)) s = Ok fl
                /\ score_pawn Us s fl v = Ok v1
                /\ e1 = step_entry Us s fl e.
Proof.
  unfold pawn_step.
  destruct (Z.eqb_spec (piece_on pos s) (make_piece Us PAWN)) as [Hp|]; cbn [negb];
    [|discriminate].
  destruct (classify Us (pieces pos Us) (pieces pos (opp Us)) s) as [fl|] eqn:Hc;
    cbn [mbind result_bind]; [|discriminate].
  destruct (score_pawn Us s fl v) as [v'|] eqn:Hv; cbn [mbind result_bind]; [|discriminate].
  intros [= <- <-]. split; [exact Hp|]. exists fl. repeat split; auto.
Qed.

Lemma pawn_step_total (Us : Color) (pos : Position) (s : Square) (e : Entry) (v : Score) :
  0 <= s < 64 -> piece_on pos s = make_piece Us PAWN ->
  exists e1 v1, pawn_step Us pos s (e, v) = Ok (e1, v1).
Proof.
  intros Hs Hp. unfold pawn_step. rewrite Hp, Z.eqb_refl. cbn [negb].
  destruct (classify_total Us (pieces pos Us) (pieces pos (opp Us)) s Hs) as [fl Hfl].
  rewrite Hfl. cbn [mbind result_bind].
  destruct (score_pawn_total Us _ _ s fl v Hs Hfl) as [v' Hv].
  rewrite Hv. cbn. eauto.
Qed.

Lemma pawn_loop_total (Us : Color) (pos : Position) (pl : list Square) (e : Entry)
  (v : Score) :
  (forall s, In s pl -> 0 <= s < 64 /\ piece_on pos s = make_piece Us PAWN) ->
  exists e1 v1, pawn_loop Us pos pl (e, v) = Ok (e1, v1).
Proof.
  revert e v. induction pl as [|s pl IH]; intros e v H; cbn [pawn_loop]; [eauto|].
  destruct (H s (or_introl eq_refl)) as [Hs Hp].
  destruct (pawn_step_total Us pos s e v Hs Hp) as (e1 & v1 & H1).
  rewrite H1. cbn [mbind result_bind]. apply IH. intros t Ht. apply H. right. exact Ht.
Qed.

Lemma step_entry_fields (Us : Color) (s : Square) (fl : PawnFlags) (e : Entry) :
  let e1 := step_entry Us s fl e in
  key e1 = key e /\ value e1 = value e
  /\ get Us (semiopenFiles e1)
     = Z.land (get Us (semiopenFiles e)) (Z.lnot (Z.shiftl 1 (file_of s)))
  /\ get Us (passedPawns e1)
     = (if passed fl && negb (nz (doubled fl))
        then Z.lor (get Us (passedPawns e)) (SquareBB s)
        else get Us (passedPawns e)).
Proof.
  unfold step_entry. cbv zeta.
  destruct (passed fl && negb (nz (doubled fl))); destruct Us; cbn; auto.
Qed.

Lemma classify_candidate (Us : Color) (ours theirs : Bitboard) (s : Square)
  (fl : PawnFlags) :
  classify Us ours theirs s = Ok fl ->
  passed fl && negb (nz (doubled fl)) = candidate Us ours theirs s.
Proof.
  intros H. apply classify_Ok in H. cbv zeta in H.
  destruct H as (_ & _ & _ & _ & Hd & _ & Hp & _).
  unfold candidate. now rewrite Hp, Hd.
Qed.

Lemma pawn_loop_fields (Us : Color) (pos : Position) (pl : list Square)
  (e e' : Entry) (v v' : Score) :
  (forall s, In s pl -> 0 <= s < 64) ->
  pawn_loop Us pos pl (e, v) = Ok (e', v') ->
  key e' = key e /\ value e' = value e
  /\ get Us (semiopenFiles e') = semiopen_after pl (get Us (semiopenFiles e))
  /\ forall t, Z.testbit (get Us (passedPawns e')) t
               = Z.testbit (get Us (passedPawns e)) t
                 || existsb (fun s => (s =? t)
                                      && candidate Us (pieces pos Us) (pieces pos (opp Us)) s)
                            pl.
Proof.
  revert e v. induction pl as [|s pl IH]; intros e v Hpl; cbn [pawn_loop].
  - intros [= <- <-]. cbn. repeat split; auto. intros t. now rewrite orb_false_r.
  - destruct (pawn_step Us pos s (e, v)) as [[e1 v1]|] eqn:H1; cbn [mbind result_bind];
      [|discriminate].
    intros H. apply IH in H; [|intros t Ht; apply Hpl; right; exact Ht].
    apply pawn_step_Ok in H1 as (_ & fl & Hfl & _ & ->).
    destruct (step_entry_fields Us s fl e) as (Hk & Hv & Hso & Hpp).
    destruct H as (Hk' & Hv' & Hso' & Hpp').
    repeat split; try congruence.
    + rewrite Hso', Hso. reflexivity.
    + intros t. rewrite Hpp', Hpp, (classify_candidate _ _ _ _ _ Hfl). cbn [existsb].
      destruct (candidate Us (pieces pos Us) (pieces pos (opp Us)) s).
      * rewrite Z.lor_spec, SquareBB_spec by (apply Hpl; left; reflexivity).
        rewrite andb_true_r, orb_assoc. reflexivity.
      * rewrite andb_false_r. reflexivity.
Qed.

Lemma semiopen_after_spec (pl : list Square) (m i : Z) :
  Z.testbit (semiopen_after pl m) i
  = Z.testbit m i && negb (existsb (fun s => file_of s =? i) pl).
Proof.
  revert m. induction pl as [|s pl IH]; intros m; cbn.
  - now rewrite andb_true_r.
  - fold (semiopen_after pl (Z.land m (Z.lnot (Z.shiftl 1 (file_of s))))).
    rewrite IH, negb_orb, andb_assoc. f_equal.
    destruct (Z.ltb_spec i 0) as [Hneg|Hpos].
    + rewrite !Z.testbit_neg_r by lia. reflexivity.
    + rewrite Z.land_spec, Z.lnot_spec by lia. f_equal. f_equal.
      apply SquareBB_spec. apply file_of_range.
Qed.

Lemma semiopen_after_range (pl : list Square) : 0 <= semiopen_after pl 0xFF < 256.
Proof.
  assert (E : semiopen_after pl 0xFF = semiopen_after pl 0xFF mod 2 ^ 8).
  { rewrite <- Z.land_ones by lia. apply Z.bits_inj'. intros i Hi.
    rewrite Z.land_spec, semiopen_after_spec. change 255 with (Z.ones 8).
    destruct (Z.testbit (Z.ones 8) i); [now rewrite andb_true_r|reflexivity]. }
  rewrite E. apply Z.mod_pos_bound. lia.
Qed.

Lemma file_span_ext (p q : File -> bool) :
  (forall f, 0 <= f < 8 -> p f = q f) -> file_span p = file_span q.
Proof.
  intros H. unfold file_span. rewrite (filter_ext_in p q); [reflexivity|].
  intros f Hf. apply H. cbn in Hf. intuition lia.
Qed.

Lemma span_of_mask_spec (m : Z) :
  0 <= m < 256 -> span_of_mask m = Ok (file_span (fun f => negb (Z.testbit m f))).
Proof.
  intros Hm.
  assert (H : forallb (fun m => match span_of_mask m with
                                | Ok x => x =? file_span (fun f => negb (Z.testbit m f))
                                | Abort _ => false
                                end) (map Z.of_nat (seq 0 256)) = true)
    by (vm_compute; reflexivity).
  rewrite forallb_forall in H. specialize (H m).
  destruct (span_of_mask m) as [x|].
  - f_equal. apply Z.eqb_eq, H. apply in_map_iff. exists (Z.to_nat m).
    split; [lia|]. apply in_seq. lia.
  - discriminate H. apply in_map_iff. exists (Z.to_nat m).
    split; [lia|]. apply in_seq. lia.
Qed.

Lemma evaluate_unfold (Us : Color) (pos : Position) (e : Entry) :
  evaluate Us pos e
  = '(e1, value) ← pawn_loop Us pos (list_PAWN pos Us) (evaluate_init Us pos e, SCORE_ZERO);
    span ← span_of_mask (get Us (semiopenFiles e1));
    Ok (value, set_pawnSpan Us span e1).
Proof. reflexivity. Qed.

Lemma evaluate_init_fields (Us : Color) (pos : Position) (e : Entry) :
  let e0 := evaluate_init Us pos e in
  key e0 = key e /\ value e0 = value e
  /\ get Us (semiopenFiles e0) = 0xFF /\ get Us (passedPawns e0) = 0.
Proof. destruct Us; cbn; auto. Qed.

(** The result of a successful [evaluate], field by field. *)
Lemma evaluate_Ok (Us : Color) (pos : Position) (e e' : Entry) (v : Score) :
  (forall s, In s (list_PAWN pos Us) -> 0 <= s < 64) ->
  evaluate Us pos e = Ok (v, e') ->
  key e' = key e /\ value e' = value e
  /\ get Us (semiopenFiles e') = semiopen_after (list_PAWN pos Us) 0xFF
  /\ get Us (pawnSpan e') = file_span (occupied_file pos Us)
  /\ (forall t, Z.testbit (get Us (passedPawns e')) t
                = existsb (fun s => (s =? t)
                                    && candidate Us (pieces pos Us) (pieces pos (opp Us)) s)
                          (list_PAWN pos Us))
  /\ exists e1, pawn_loop Us pos (list_PAWN pos Us) (evaluate_init Us pos e, SCORE_ZERO)
                = Ok (e1, v).
Proof.
  intros Hpl. rewrite evaluate_unfold.
  destruct (pawn_loop _ _ _ _) as [[e1 v1]|] eqn:Hloop; cbn [mbind result_bind];
    [|discriminate].
  pose proof (pawn_loop_fields _ _ _ _ _ _ _ Hpl Hloop) as (Hk & Hv & Hso & Hpp).
  destruct (evaluate_init_fields Us pos e) as (Hk0 & Hv0 & Hso0 & Hpp0).
  rewrite Hso0 in Hso. rewrite Hso, span_of_mask_spec by apply semiopen_after_range.
  cbn [mbind result_bind]. intros [= <- <-].
  assert (Hget : forall n, get Us (semiopenFiles (set_pawnSpan Us n e1))
                           = get Us (semiopenFiles e1)
                           /\ get Us (passedPawns (set_pawnSpan Us n e1))
                              = get Us (passedPawns e1)
                           /\ get Us (pawnSpan (set_pawnSpan Us n e1)) = n)
    by (intros n; destruct Us; cbn; auto).
  destruct (Hget (file_span (fun f => negb (Z.testbit (semiopen_after (list_PAWN pos Us) 255) f))))
    as (G1 & G2 & G3).
  repeat split.
  - cbn. congruence.
  - cbn. congruence.
  - rewrite G1. exact Hso.
  - rewrite G3. apply file_span_ext. intros f Hf.
    rewrite semiopen_after_spec. unfold occupied_file.
    change 255 with (Z.ones 8). rewrite Z.ones_spec_low by lia. cbn [andb].
    apply negb_involutive.
  - intros t. rewrite G2, Hpp, Hpp0, Z.bits_0. reflexivity.
  - eauto.
Qed.

(** On a well-formed position the classifier runs to its end. *)
Lemma evaluate_total (Us : Color) (pos : Position) (e : Entry) :
  wf_position pos = true -> exists v e', evaluate Us pos e = Ok (v, e').
Proof.
  intros Hwf. rewrite evaluate_unfold.
  destruct (pawn_loop_total Us pos (list_PAWN pos Us) (evaluate_init Us pos e) SCORE_ZERO)
    as (e1 & v1 & Hloop).
  { intros s Hs. destruct (wf_position_list pos Us s Hwf Hs) as (Hr & Hp & _).
    split; [lia|exact Hp]. }
  rewrite Hloop. cbn [mbind result_bind].
  assert (Hpl : forall s, In s (list_PAWN pos Us) -> 0 <= s < 64).
  { intros s Hs. destruct (wf_position_list pos Us s Hwf Hs) as (Hr & _). lia. }
  pose proof (pawn_loop_fields _ _ _ _ _ _ _ Hpl Hloop) as (_ & _ & Hso & _).
  destruct (evaluate_init_fields Us pos e) as (_ & _ & Hso0 & _).
  rewrite Hso0 in Hso. rewrite Hso, span_of_mask_spec by apply semiopen_after_range.
  cbn. eauto.
Qed.

Lemma pawn_loop_key (Us : Color) (pos : Position) (pl : list Square)
  (e e' : Entry) (v v' : Score) :
  pawn_loop Us pos pl (e, v) = Ok (e', v') -> key e' = key e.
Proof.
  revert e v. induction pl as [|s pl IH]; intros e v; cbn [pawn_loop].
  - now intros [= <- <-].
  - destruct (pawn_step Us pos s (e, v)) as [[e1 v1]|] eqn:H1; cbn [mbind result_bind];
      [|discriminate].
    intros H. apply IH in H. apply pawn_step_Ok in H1 as (_ & fl & _ & _ & ->).
    rewrite H. apply step_entry_fields.
Qed.

Lemma evaluate_key (Us : Color) (pos : Position) (e e' : Entry) (v : Score) :
  evaluate Us pos e = Ok (v, e') -> key e' = key e.
Proof.
  rewrite evaluate_unfold.
  destruct (pawn_loop _ _ _ _) as [[e1 v1]|] eqn:Hloop; cbn [mbind result_bind];
    [|discriminate].
  destruct (span_of_mask _) as [n|]; cbn [mbind result_bind]; [|discriminate].
  intros [= <- <-]. apply pawn_loop_key in Hloop. cbn. rewrite Hloop.
  apply evaluate_init_fields.
Qed.

(** *** The cache *)

Lemma slot_lt (entries : Table) (k : Key) :
  wf_table entries = true -> (slot entries k < length (table entries))%nat.
Proof.
  unfold wf_table, slot. intros H. apply existsb_exists in H as (n & Hn & Hlen).
  apply squares_spec in Hn. apply Z.eqb_eq in Hlen. rewrite Hlen.
  replace (2 ^ n - 1) with (Z.ones n) by (rewrite Z.ones_equiv; lia).
  rewrite Z.land_ones by lia.
  pose proof (Z.mod_pos_bound k (2 ^ n) ltac:(lia)). lia.
Qed.

Lemma slot_same_length (t t' : Table) (k : Key) :
  length (table t') = length (table t) -> slot t' k = slot t k.
Proof. unfold slot. now intros ->. Qed.

Lemma wf_table_same_length (t t' : Table) :
  length (table t') = length (table t) -> wf_table t = true -> wf_table t' = true.
Proof. unfold wf_table. now intros ->. Qed.

Lemma wf_table_lookup (entries : Table) (k : Key) :
  wf_table entries = true -> exists e, table entries !! slot entries k = Some e.
Proof. intros H. apply lookup_lt_is_Some, slot_lt, H. Qed.

Lemma repopulate_Ok (pos : Position) (e e' : Entry) :
  repopulate pos e = Ok e' ->
  key e' = pawn_key pos
  /\ exists w b e1 e2,
       evaluate WHITE pos (set_key (pawn_key pos) e) = Ok (w, e1)
       /\ evaluate BLACK pos e1 = Ok (b, e2)
       /\ e' = set_value (score_sub w b) e2.
Proof.
  unfold repopulate.
  destruct (evaluate WHITE pos _) as [[w e1]|] eqn:Hw; cbn [mbind result_bind];
    [|discriminate].
  destruct (evaluate BLACK pos e1) as [[b e2]|] eqn:Hb; cbn [mbind result_bind];
    [|discriminate].
  intros [= <-]. split.
  - apply evaluate_key in Hw, Hb. cbn. rewrite Hb, Hw. reflexivity.
  - exists w, b, e1, e2. auto.
Qed.

Lemma repopulate_total (pos : Position) (e : Entry) :
  wf_position pos = true -> exists e', repopulate pos e = Ok e'.
Proof.
  intros Hwf. unfold repopulate.
  destruct (evaluate_total WHITE pos (set_key (pawn_key pos) e) Hwf) as (w & e1 & Hw).
  rewrite Hw. cbn [mbind result_bind].
  destruct (evaluate_total BLACK pos e1 Hwf) as (b & e2 & Hb).
  rewrite Hb. cbn [mbind result_bind]. eauto.
Qed.

(** [probe], by cases on the key found in the slot. *)
Lemma probe_unfold (pos : Position) (entries : Table) (e : Entry) :
  table entries !! slot entries (pawn_key pos) = Some e ->
  probe pos entries
  = if key e =? pawn_key pos then Ok (slot entries (pawn_key pos), entries)
    else e' ← repopulate pos e;
         Ok (slot entries (pawn_key pos),
             mkTable (<[slot entries (pawn_key pos) := e']> (table entries))
                     (runs entries ++ [(WHITE, pawn_key pos); (BLACK, pawn_key pos)])).
Proof.
  intros H. unfold probe, repopulate. cbv zeta. rewrite H.
  cbn [of_option mbind result_bind].
  destruct (key e =? pawn_key pos); [reflexivity|].
  destruct (evaluate WHITE pos _) as [[w e1]|]; cbn [mbind result_bind]; [|reflexivity].
  destruct (evaluate BLACK pos e1) as [[b e2]|]; cbn [mbind result_bind]; reflexivity.
Qed.

Lemma probe_miss (pos : Position) (entries : Table) :
  wf_position pos = true -> is_miss pos entries = true ->
  exists e e',
    table entries !! slot entries (pawn_key pos) = Some e
    /\ repopulate pos e = Ok e'
    /\ probe pos entries
       = Ok (slot entries (pawn_key pos),
             mkTable (<[slot entries (pawn_key pos) := e']> (table entries))
                     (runs entries ++ [(WHITE, pawn_key pos); (BLACK, pawn_key pos)])).
Proof.
  intros Hwf Hmiss. unfold is_miss in Hmiss.
  destruct (table entries !! slot entries (pawn_key pos)) as [e|] eqn:He; [|discriminate].
  destruct (repopulate_total pos e Hwf) as [e' He'].
  exists e, e'. repeat split; auto.
  rewrite (probe_unfold _ _ _ He). apply negb_true_iff in Hmiss. rewrite Hmiss, He'.
  reflexivity.
Qed.

(** Whatever [probe] returns, it is the slot of the key, in a table of the
    same size, and the entry there carries the key. *)
Lemma probe_key (pos : Position) (entries entries' : Table) (i : nat) :
  probe pos entries = Ok (i, entries') ->
  i = slot entries (pawn_key pos)
  /\ length (table entries') = length (table entries)
  /\ exists e, table entries' !! i = Some e /\ key e = pawn_key pos.
Proof.
  destruct (table entries !! slot entries (pawn_key pos)) as [e|] eqn:He.
  - rewrite (probe_unfold _ _ _ He).
    destruct (Z.eqb_spec (key e) (pawn_key pos)) as [Hk|Hk].
    + intros [= <- <-]. eauto.
    + destruct (repopulate pos e) as [e'|] eqn:Hre; cbn [mbind result_bind]; [|discriminate].
      intros [= <- <-]. cbn [table]. split; [reflexivity|].
      split; [apply length_insert|]. exists e'. split.
      * apply list_lookup_insert_eq. apply lookup_lt_Some in He. exact He.
      * apply repopulate_Ok in Hre. apply Hre.
  - unfold probe. cbv zeta. rewrite He. discriminate.
Qed.

Lemma probe_total (pos : Position) (entries : Table) :
  wf_position pos = true -> wf_table entries = true ->
  exists entries', probe pos entries = Ok (slot entries (pawn_key pos), entries').
Proof.
  intros Hwf Ht. destruct (wf_table_lookup entries (pawn_key pos) Ht) as [e He].
  rewrite (probe_unfold _ _ _ He). destruct (key e =? pawn_key pos); [eauto|].
  destruct (repopulate_total pos e Hwf) as [e' He']. rewrite He'. cbn [mbind result_bind].
  eauto.
Qed.

(** C1.  [probe] never hands out another key's data.
    - Whenever [probe] returns, the entry it returns carries the pawn key of
      the position; on a well-formed position and a table whose size is a
      power of two it does return.
    - When the slot holds another key, the entry is repopulated before it is
      returned: the classifier runs for White and for Black on this
      position, and the slot is overwritten with the result.
    - For two positions whose keys differ and share a slot, the third probe
      of the sequence first, second, first is again a miss: it runs the
      classifier for both sides on the first position and returns the
      repopulated entry, not the one evicted by the second probe. *)
Theorem probe_never_stale :
  (forall pos entries i entries',
      probe pos entries = Ok (i, entries') ->
      exists e, table entries' !! i = Some e /\ key e = pawn_key pos)
  /\ (forall pos entries,
        wf_position pos = true -> wf_table entries = true ->
        exists i entries' e,
          probe pos entries = Ok (i, entries')
          /\ table entries' !! i = Some e /\ key e = pawn_key pos)
  /\ (forall pos entries,
        wf_position pos = true -> is_miss pos entries = true ->
        exists e e',
          table entries !! slot entries (pawn_key pos) = Some e
          /\ repopulate pos e = Ok e'
          /\ probe pos entries
             = Ok (slot entries (pawn_key pos),
                   mkTable (<[slot entries (pawn_key pos) := e']> (table entries))
                           (runs entries
                              ++ [(WHITE, pawn_key pos); (BLACK, pawn_key pos)])))
  /\ (forall pos1 pos2 entries,
        wf_position pos1 = true -> wf_position pos2 = true ->
        wf_table entries = true ->
        pawn_key pos1 <> pawn_key pos2 ->
        slot entries (pawn_key pos1) = slot entries (pawn_key pos2) ->
        exists i t1 t2 t3 e2 e3,
          probe pos1 entries = Ok (i, t1)
          /\ probe pos2 t1 = Ok (i, t2)
          /\ probe pos1 t2 = Ok (i, t3)
          /\ table t2 !! i = Some e2 /\ key e2 = pawn_key pos2
          /\ repopulate pos1 e2 = Ok e3
          /\ table t3 !! i = Some e3
          /\ runs t3 = runs t2 ++ [(WHITE, pawn_key pos1); (BLACK, pawn_key pos1)]).
Proof.
  split; [intros pos entries i entries' H; apply probe_key in H; apply H|].
  split.
  { intros pos entries Hwf Ht. destruct (probe_total pos entries Hwf Ht) as (t & Hp).
    destruct (probe_key _ _ _ _ Hp) as (_ & _ & e & He & Hk). eauto 6. }
  split; [exact probe_miss|].
  intros pos1 pos2 entries Hwf1 Hwf2 Ht Hne Hslot.
  destruct (probe_total pos1 entries Hwf1 Ht) as (t1 & H1).
  destruct (probe_key _ _ _ _ H1) as (_ & Hlen1 & _).
  pose proof (wf_table_same_length _ _ Hlen1 Ht) as Ht1.
  destruct (probe_total pos2 t1 Hwf2 Ht1) as (t2 & H2).
  destruct (probe_key _ _ _ _ H2) as (_ & Hlen2 & e2 & He2 & Hk2).
  rewrite (slot_same_length _ _ _ Hlen1), <- Hslot in H2, He2.
  assert (Hs2 : slot t2 (pawn_key pos1) = slot entries (pawn_key pos1)).
  { apply slot_same_length. congruence. }
  assert (Hmiss : is_miss pos1 t2 = true).
  { unfold is_miss. rewrite Hs2, He2, Hk2. apply negb_true_iff, Z.eqb_neq. congruence. }
  destruct (probe_miss pos1 t2 Hwf1 Hmiss) as (e2' & e3 & He2' & Hre & H3).
  rewrite Hs2 in He2', H3. rewrite He2 in He2'. injection He2' as <-.
  exists (slot entries (pawn_key pos1)), t1, t2. eexists. exists e2, e3.
  repeat split; try eassumption; try reflexivity.
  cbn [table]. apply list_lookup_insert_eq. apply lookup_lt_Some in He2. exact He2.
Qed.

Lemma probe_never_stale_witness :
  exists i t1 t2 t3 e2 e3,
    probe (sample_position 5) (new_table 1024) = Ok (i, t1)
    /\ probe (start_position 1029) t1 = Ok (i, t2)
    /\ probe (sample_position 5) t2 = Ok (i, t3)
    /\ table t2 !! i = Some e2 /\ key e2 = pawn_key (start_position 1029)
    /\ repopulate (sample_position 5) e2 = Ok e3
    /\ table t3 !! i = Some e3
    /\ runs t3 = runs t2 ++ [(WHITE, pawn_key (sample_position 5));
                             (BLACK, pawn_key (sample_position 5))].
Proof.
  apply (proj2 (proj2 (proj2 probe_never_stale))).
  - vm_compute; reflexivity.
  - vm_compute; reflexivity.
  - vm_compute; reflexivity.
  - vm_compute; lia.
  - vm_compute; reflexivity.
Defined.

Lemma wf_position_squares (pos : Position) (c : Color) :
  wf_position pos = true -> forall s, In s (list_PAWN pos c) -> 0 <= s < 64.
Proof. intros Hwf s Hs. destruct (wf_position_list pos c s Hwf Hs) as [H _]. lia. Qed.

(** C5.  On a well-formed position, for every pawn of the list of the side,
    the classification ends without a failed assertion, and its flags satisfy
    the asserted disjunction: the pawn is opposed, or passed, or some enemy
    pawn stands in its forward attack span. *)
Theorem flags_assertion_never_fails (Us : Color) (pos : Position) (s : Square) :
  wf_position pos = true -> In s (list_PAWN pos Us) ->
  exists fl,
    classify Us (pieces pos Us) (pieces pos (opp Us)) s = Ok fl
    /\ (opposed fl = true \/ passed fl = true
        \/ Z.land (pawn_attack_span Us s) (pieces pos (opp Us)) <> 0).
Proof.
  intros Hwf Hs.
  destruct (classify_total Us (pieces pos Us) (pieces pos (opp Us)) s) as [fl Hfl].
  { eapply wf_position_squares; eauto. }
  exists fl. split; [exact Hfl|].
  apply classify_Ok in Hfl. cbv zeta in Hfl.
  destruct Hfl as (_ & _ & _ & _ & _ & _ & _ & _ & _ & Ha).
  apply orb_true_iff in Ha as [Ha|Ha]; [apply orb_true_iff in Ha as [Ha|Ha]|]; auto.
  right. right. apply nz_true. exact Ha.
Qed.

Lemma flags_assertion_never_fails_witness :
  exists fl,
    classify WHITE (pieces (sample_position 5) WHITE) (pieces (sample_position 5) BLACK) 27
    = Ok fl
    /\ (opposed fl = true \/ passed fl = true
        \/ Z.land (pawn_attack_span WHITE 27) (pieces (sample_position 5) BLACK) <> 0).
Proof.
  apply (flags_assertion_never_fails WHITE (sample_position 5) 27).
  - vm_compute; reflexivity.
  - simpl; lia.
Defined.

(** C2, as stated, fails.  With white pawns on a2 and h2 only, the
    semi-open files of White are b to g, at distance 5, and [pawnSpan] is 7.
    (With all eight files occupied there is no semi-open file, and
    [pawnSpan] is 7 as well, not 0.) *)
Lemma pawnSpan_is_not_the_semiopen_distance :
  wf_position rook_pawns_position = true
  /\ exists v e,
       evaluate WHITE rook_pawns_position zero_entry = Ok (v, e)
       /\ get WHITE (pawnSpan e) = 7
       /\ file_span (semiopen_file rook_pawns_position WHITE) = 5
       /\ get WHITE (pawnSpan e) <> file_span (semiopen_file rook_pawns_position WHITE).
Proof.
  split; [vm_compute; reflexivity|].
  eexists. eexists. split; [vm_compute; reflexivity|].
  split; [reflexivity|]. split; [reflexivity|]. vm_compute. discriminate.
Qed.

(** C2, amended.  After the classifier has run for a side, [pawnSpan] of
    that side is the distance between the leftmost and the rightmost file
    occupied by a pawn of that side (a file that is not semi-open), and 0
    when the side has no pawn; bit [f] of [semiopenFiles] is set iff no pawn
    of the side stands on file [f]. *)
Theorem pawnSpan_is_the_occupied_distance (Us : Color) (pos : Position) (e : Entry) :
  wf_position pos = true ->
  exists v e',
    evaluate Us pos e = Ok (v, e')
    /\ get Us (pawnSpan e') = file_span (occupied_file pos Us)
    /\ forall f, 0 <= f < 8 ->
         Z.testbit (get Us (semiopenFiles e')) f = semiopen_file pos Us f.
Proof.
  intros Hwf. destruct (evaluate_total Us pos e Hwf) as (v & e' & He).
  exists v, e'. split; [exact He|].
  apply evaluate_Ok in He; [|apply wf_position_squares, Hwf].
  destruct He as (_ & _ & Hso & Hspan & _). split; [exact Hspan|].
  intros f Hf. rewrite Hso, semiopen_after_spec. change 255 with (Z.ones 8).
  rewrite Z.ones_spec_low by lia. reflexivity.
Qed.

Lemma pawnSpan_is_the_occupied_distance_witness :
  exists v e',
    evaluate WHITE rook_pawns_position zero_entry = Ok (v, e')
    /\ get WHITE (pawnSpan e') = file_span (occupied_file rook_pawns_position WHITE)
    /\ forall f, 0 <= f < 8 ->
         Z.testbit (get WHITE (semiopenFiles e')) f
         = semiopen_file rook_pawns_position WHITE f.
Proof.
  apply (pawnSpan_is_the_occupied_distance WHITE rook_pawns_position zero_entry).
  vm_compute; reflexivity.
Defined.

(** *** Passed-pawn candidates *)

Lemma candidate_spec (Us : Color) (ours theirs : Bitboard) (s : Square) :
  0 <= s < 64 ->
  candidate Us ours theirs s = is_passed Us theirs s && negb (is_doubled Us ours s).
Proof.
  intros Hs. unfold candidate, is_passed, is_doubled.
  destruct (passed_pawn_mask_spec Us s Hs) as [Hp_bb Hp].
  destruct (forward_bb_spec Us s Hs) as [Hf_bb Hf].
  rewrite !nz_land_squares by assumption.
  rewrite (some_pawn_ext theirs _ _ Hp), (some_pawn_ext ours _ _ Hf). reflexivity.
Qed.

Lemma existsb_eqb_and (p : Square -> bool) (pl : list Square) (t : Square) :
  In t pl -> existsb (fun s => (s =? t) && p s) pl = p t.
Proof.
  intros Hin. destruct (p t) eqn:Ept.
  - apply existsb_exists. exists t. rewrite Z.eqb_refl, Ept. auto.
  - destruct (existsb (fun s => (s =? t) && p s) pl) eqn:E; [|reflexivity].
    apply existsb_exists in E as (s & _ & Hs). apply andb_true_iff in Hs as [Heq Hp].
    apply Z.eqb_eq in Heq. congruence.
Qed.

Lemma same_file_ranks (c : Color) (s t : Square) :
  file_of s = file_of t -> s <> t -> ahead c s t = true \/ ahead c t s = true.
Proof.
  intros Hf Hne. unfold ahead.
  assert (rank_of s <> rank_of t).
  { intros Hr. apply Hne. rewrite (square_file_rank s), (square_file_rank t). congruence. }
  destruct c; rewrite !Z.ltb_lt; lia.
Qed.

(** C3.  After the classifier has run for a side on a well-formed position,
    the square of a pawn of that side is in [passedPawns] iff the pawn is
    passed (no enemy pawn ahead on its file or an adjacent file) and not
    doubled (no own pawn ahead on its file); hence no two pawns of the side
    on one file are both flagged. *)
Theorem passed_candidates_are_the_frontmost_passed (Us : Color) (pos : Position)
  (e : Entry) :
  wf_position pos = true ->
  exists v e',
    evaluate Us pos e = Ok (v, e')
    /\ (forall s, In s (list_PAWN pos Us) ->
          Z.testbit (get Us (passedPawns e')) s
          = is_passed Us (pieces pos (opp Us)) s && negb (is_doubled Us (pieces pos Us) s))
    /\ (forall s1 s2,
          In s1 (list_PAWN pos Us) -> In s2 (list_PAWN pos Us) ->
          file_of s1 = file_of s2 ->
          Z.testbit (get Us (passedPawns e')) s1 = true ->
          Z.testbit (get Us (passedPawns e')) s2 = true ->
          s1 = s2).
Proof.
  intros Hwf. destruct (evaluate_total Us pos e Hwf) as (v & e' & He).
  exists v, e'. split; [exact He|].
  apply evaluate_Ok in He; [|apply wf_position_squares, Hwf].
  destruct He as (_ & _ & _ & _ & Hpp & _).
  assert (Hflag : forall s, In s (list_PAWN pos Us) ->
            Z.testbit (get Us (passedPawns e')) s
            = is_passed Us (pieces pos (opp Us)) s
              && negb (is_doubled Us (pieces pos Us) s)).
  { intros s Hs. rewrite Hpp, existsb_eqb_and by exact Hs.
    apply candidate_spec. eapply wf_position_squares; eauto. }
  split; [exact Hflag|].
  intros s1 s2 H1 H2 Hfile Hb1 Hb2.
  destruct (Z.eq_dec s1 s2) as [|Hne]; [assumption|exfalso].
  rewrite Hflag in Hb1, Hb2 by assumption.
  apply andb_true_iff in Hb1 as [_ Hd1], Hb2 as [_ Hd2].
  apply negb_true_iff in Hd1, Hd2.
  destruct (wf_position_list pos Us s1 Hwf H1) as (Hr1 & _ & Hbit1).
  destruct (wf_position_list pos Us s2 Hwf H2) as (Hr2 & _ & Hbit2).
  destruct (same_file_ranks Us s1 s2 Hfile Hne) as [Hah|Hah].
  - assert (is_doubled Us (pieces pos Us) s1 = true); [|congruence].
    apply some_pawn_true. exists s2. split; [lia|]. split; [exact Hbit2|].
    unfold same_file. rewrite Hfile, Z.eqb_refl, Hah. reflexivity.
  - assert (is_doubled Us (pieces pos Us) s2 = true); [|congruence].
    apply some_pawn_true. exists s1. split; [lia|]. split; [exact Hbit1|].
    unfold same_file. rewrite Hfile, Z.eqb_refl, Hah. reflexivity.
Qed.

Lemma passed_candidates_are_the_frontmost_passed_witness :
  exists v e',
    evaluate WHITE rook_pawns_position zero_entry = Ok (v, e')
    /\ (forall s, In s (list_PAWN rook_pawns_position WHITE) ->
          Z.testbit (get WHITE (passedPawns e')) s
          = is_passed WHITE (pieces rook_pawns_position BLACK) s
            && negb (is_doubled WHITE (pieces rook_pawns_position WHITE) s))
    /\ (forall s1 s2,
          In s1 (list_PAWN rook_pawns_position WHITE) ->
          In s2 (list_PAWN rook_pawns_position WHITE) ->
          file_of s1 = file_of s2 ->
          Z.testbit (get WHITE (passedPawns e')) s1 = true ->
          Z.testbit (get WHITE (passedPawns e')) s2 = true ->
          s1 = s2).
Proof.
  apply (passed_candidates_are_the_frontmost_passed WHITE rook_pawns_position zero_entry).
  vm_compute; reflexivity.
Defined.

(** ** King safety *)

(** *** King shelter *)

Lemma nz_land_SquareBB (a : Bitboard) (x : Square) :
  0 <= x -> nz (Z.land a (SquareBB x)) = Z.testbit a x.
Proof.
  intros Hx. destruct (Z.testbit a x) eqn:E.
  - apply (nz_testbit _ x). rewrite Z.land_spec, E, SquareBB_spec, Z.eqb_refl by exact Hx.
    reflexivity.
  - apply nz_false. apply Z.bits_inj'. intros i Hi.
    rewrite Z.land_spec, SquareBB_spec, Z.bits_0 by exact Hx.
    destruct (Z.eqb_spec x i) as [<-|]; [now rewrite E|apply andb_false_r].
Qed.

Lemma frontmost_sq_Some (c : Color) (b : Bitboard) (sq : Square) :
  frontmost_sq c b = Some sq -> 0 <= sq < 64 /\ Z.testbit b sq = true.
Proof. destruct c; cbn; intros H; [apply msb_Some in H|apply lsb_Some in H]; tauto. Qed.

Lemma backmost_sq_Some (c : Color) (b : Bitboard) (sq : Square) :
  backmost_sq c b = Some sq -> 0 <= sq < 64 /\ Z.testbit b sq = true.
Proof. destruct c; cbn; intros H; [apply lsb_Some in H|apply msb_Some in H]; tauto. Qed.

Lemma make_square_relative (c : Color) (sq : Square) :
  0 <= sq < 64 ->
  make_square (file_of sq) (relative_rank_sq c sq) = relative_square c sq.
Proof.
  intros Hs.
  assert (H : forallb (fun sq => make_square (file_of sq) (relative_rank_sq c sq)
                                 =? relative_square c sq) squares = true)
    by (destruct c; vm_compute; reflexivity).
  apply Z.eqb_eq. exact (forallb_squares _ H sq Hs).
Qed.

Lemma relative_square_range (c : Color) (sq : Square) :
  0 <= sq < 64 -> 0 <= relative_square c sq < 64.
Proof.
  intros Hs.
  assert (H : forallb (fun sq => (0 <=? relative_square c sq)
                                 && (relative_square c sq <? 64)) squares = true)
    by (destruct c; vm_compute; reflexivity).
  pose proof (forallb_squares _ H sq Hs) as H'.
  apply andb_true_iff in H' as [H1 H2]. apply Z.leb_le in H1. apply Z.ltb_lt in H2. lia.
Qed.

(** The two bit scans of [shelter_file] are guarded: each runs on a non-empty
    part of a file. *)
Ltac guarded_scan Hf defined :=
  match goal with
  | |- context [nz (Z.land ?p (file_bb ?f))] =>
      let E := fresh "E" in
      destruct (nz (Z.land p (file_bb f))) eqn:E;
      [ let i := fresh "sq" in
        let Hi := fresh "Hsq" in
        destruct (defined (Z.land p (file_bb f))) as [i Hi];
        [ apply is_bb_land_r, file_bb_spec, Hf | exact E | rewrite Hi ]
      | ];
      cbn [of_option mbind result_bind]
  end.

Lemma shelter_file_total (Us : Color) (ours theirs : Bitboard) (ksq : Square) (f : File)
  (safety : Value) :
  0 <= f < 8 -> exists v, shelter_file Us ours theirs ksq f safety = Ok v.
Proof.
  intros Hf. unfold shelter_file. cbv zeta.
  guarded_scan Hf (backmost_sq_defined Us);
    guarded_scan Hf (frontmost_sq_defined (opp Us));
    destruct (_ && _ && _); eauto.
Qed.

Lemma shelter_storm_total (Us : Color) (pos : Position) (ksq : Square) :
  exists v, shelter_storm Us pos ksq = Ok v.
Proof.
  unfold shelter_storm. cbv zeta.
  set (kf := Z.max FILE_B (Z.min FILE_G (file_of ksq))).
  assert (Hkf : 1 <= kf <= 6) by (unfold kf, FILE_B, FILE_G; lia).
  set (ours := Z.land _ (pieces_c pos Us)). set (theirs := Z.land _ (pieces_c pos (opp Us))).
  destruct (shelter_file_total Us ours theirs ksq (kf - 1) MaxSafetyBonus) as [v1 ->]; [lia|].
  cbn [mbind result_bind].
  destruct (shelter_file_total Us ours theirs ksq kf v1) as [v2 ->]; [lia|].
  cbn [mbind result_bind].
  destruct (shelter_file_total Us ours theirs ksq (kf + 1) v2) as [v3 ->]; [lia|].
  cbn. eauto.
Qed.

(** One turn of the loop over the files: when the frontmost enemy pawn [sq]
    of the file [f], seen from the side of the king, stands on one of the
    squares a2, a3, h2, h3, the king is on file [f] and one rank behind that
    pawn, the turn adds 200 to [safety]. *)
Lemma shelter_file_edge_bonus (Us : Color) (ourPawns theirPawns : Bitboard)
  (ksq : Square) (f : File) (safety : Value) (sq : Square) :
  0 <= f < 8 ->
  frontmost_sq (opp Us) (Z.land theirPawns (file_bb f)) = Some sq ->
  Z.testbit Edges (relative_square Us sq) = true ->
  file_of ksq = f ->
  relative_rank_sq Us ksq = relative_rank_sq Us sq - 1 ->
  shelter_file Us ourPawns theirPawns ksq f safety = Ok (safety + 200).
Proof.
  intros Hf Hfront Hedge Hfile Hrank. unfold shelter_file. cbv zeta.
  destruct (frontmost_sq_Some _ _ _ Hfront) as [Hsq Hbit].
  guarded_scan Hf (backmost_sq_defined Us);
    rewrite (nz_testbit _ _ Hbit), Hfront; cbn [of_option mbind result_bind].
  all: rewrite Z.land_spec in Hbit; apply andb_true_iff in Hbit as [_ Hbit].
  all: destruct (file_bb_spec f Hf) as [_ Hfb]; rewrite Hfb in Hbit by exact Hsq.
  all: apply Z.eqb_eq in Hbit; rewrite <- Hbit at 1.
  all: rewrite make_square_relative by exact Hsq.
  all: rewrite nz_land_SquareBB by (apply relative_square_range, Hsq).
  all: rewrite Hedge, Hfile, Z.eqb_refl, Hrank, Z.eqb_refl; reflexivity.
Qed.

(** *** The ring search *)

Lemma DistanceRingsBB_spec (ksq : Square) (d : Z) :
  0 <= ksq < 64 -> 0 <= d < 8 ->
  is_bb (DistanceRingsBB ksq d) = true
  /\ forall t, 0 <= t < 64 ->
       Z.testbit (DistanceRingsBB ksq d) t
       = negb (ksq =? t) && (SquareDistance ksq t =? d + 1).
Proof.
  intros Hk Hd.
  assert (H : forallb (fun d =>
                forallb (fun s => is_bb (DistanceRingsBB s d)
                   && forallb (fun t => eqb (Z.testbit (DistanceRingsBB s d) t)
                                            (negb (s =? t) && (SquareDistance s t =? d + 1)))
                              squares) squares) files = true)
    by (vm_compute; reflexivity).
  rewrite forallb_forall in H. specialize (H d).
  assert (Hin : In d files) by (cbn; lia).
  apply H in Hin. 
  exact (mask_cases (fun s => DistanceRingsBB s d)
           (fun s t => negb (s =? t) && (SquareDistance s t =? d + 1)) Hin ksq Hk).
Qed.

Lemma SquareDistance_range (s t : Square) :
  0 <= s < 64 -> 0 <= t < 64 -> s <> t -> 1 <= SquareDistance s t <= 7.
Proof.
  intros Hs Ht Hne.
  pose proof (rank_of_range s Hs). pose proof (rank_of_range t Ht).
  pose proof (file_of_range s). pose proof (file_of_range t).
  pose proof (square_file_rank s). pose proof (square_file_rank t).
  unfold SquareDistance, distance_File, distance_Rank. lia.
Qed.

Lemma ring_test (ksq : Square) (pawns : Bitboard) (d : Z) :
  0 <= ksq < 64 -> 0 <= d < 8 ->
  nz (Z.land (DistanceRingsBB ksq d) pawns)
  = some_pawn pawns (fun t => negb (ksq =? t) && (SquareDistance ksq t =? d + 1)).
Proof.
  intros Hk Hd. destruct (DistanceRingsBB_spec ksq d Hk Hd) as [Hbb Hbits].
  rewrite Z.land_comm, nz_land_squares by exact Hbb.
  apply some_pawn_ext. exact Hbits.
Qed.

Lemma ring_hit (ksq : Square) (pawns : Bitboard) (d t : Z) :
  0 <= t < 64 -> Z.testbit pawns t = true -> t <> ksq -> SquareDistance ksq t = d + 1 ->
  some_pawn pawns (fun t => negb (ksq =? t) && (SquareDistance ksq t =? d + 1)) = true.
Proof.
  intros Ht Hbit Hne Hdist. apply some_pawn_true. exists t.
  split; [exact Ht|]. split; [exact Hbit|].
  apply andb_true_iff. split; [apply negb_true_iff, Z.eqb_neq; congruence|apply Z.eqb_eq, Hdist].
Qed.

(** The search stops at the first ring that holds a pawn. *)
Lemma ring_search_Ok (rings : nat) (ksq : Square) (pawns : Bitboard) (d r : Z) :
  0 <= ksq < 64 -> 0 <= d -> d + Z.of_nat rings <= 8 ->
  ring_search rings ksq pawns d = Ok r ->
  d < r <= d + Z.of_nat rings
  /\ (exists t, 0 <= t < 64 /\ Z.testbit pawns t = true /\ SquareDistance ksq t = r)
  /\ (forall t, 0 <= t < 64 -> Z.testbit pawns t = true -> t <> ksq ->
        d < SquareDistance ksq t -> r <= SquareDistance ksq t).
Proof.
  intros Hk. revert d. induction rings as [|n IH]; intros d Hd Hn; cbn [ring_search];
    [discriminate|].
  rewrite ring_test by lia.
  destruct (some_pawn pawns _) eqn:E.
  - intros [= <-]. apply some_pawn_true in E as (t & Ht & Hbit & Hp).
    apply andb_true_iff in Hp as [_ Hdist]. apply Z.eqb_eq in Hdist.
    split; [lia|]. split; [eauto|]. intros; lia.
  - intros H. apply IH in H as (Hr & Hex & Hmin); [|lia|lia].
    split; [lia|]. split; [exact Hex|].
    intros t Ht Hbit Hne Hlt.
    destruct (Z.eq_dec (SquareDistance ksq t) (d + 1)) as [Heq|Hneq]; [|apply Hmin; auto; lia].
    exfalso. rewrite (ring_hit ksq pawns d t) in E by auto. discriminate.
Qed.

Lemma ring_search_total (rings : nat) (ksq : Square) (pawns : Bitboard) (d t : Z) :
  0 <= ksq < 64 -> 0 <= d -> d + Z.of_nat rings <= 8 ->
  0 <= t < 64 -> Z.testbit pawns t = true -> t <> ksq ->
  d < SquareDistance ksq t <= d + Z.of_nat rings ->
  exists r, ring_search rings ksq pawns d = Ok r.
Proof.
  intros Hk. revert d. induction rings as [|n IH]; intros d Hd Hn Ht Hbit Hne Hdist;
    cbn [ring_search]; [lia|].
  rewrite ring_test by lia.
  destruct (some_pawn pawns _) eqn:E; [eauto|].
  apply IH; auto; try lia.
  destruct (Z.eq_dec (SquareDistance ksq t) (d + 1)) as [Heq|Hneq]; [|lia].
  exfalso. rewrite (ring_hit ksq pawns d t) in E by auto. discriminate.
Qed.

(** With a pawn on the board and the king off the pawns, the search ends on
    the distance of the closest pawn. *)
Lemma ring_search_closest (ksq : Square) (pawns : Bitboard) :
  is_bb pawns = true -> nz pawns = true ->
  0 <= ksq < 64 -> Z.testbit pawns ksq = false ->
  exists d, ring_search 8 ksq pawns 0 = Ok d /\ 1 <= d <= 7 /\ closest_pawn_at ksq pawns d.
Proof.
  intros Hbb Hnz Hk Hoff.
  assert (Hne : forall t, Z.testbit pawns t = true -> t <> ksq) by (intros t Ht ->; congruence).
  destruct (nz_bit pawns Hbb Hnz) as (t & Ht & Hbit).
  pose proof (SquareDistance_range ksq t Hk Ht ltac:(specialize (Hne t Hbit); congruence)).
  destruct (ring_search_total 8 ksq pawns 0 t) as [d Hd]; auto; try lia.
  exists d. split; [exact Hd|].
  apply ring_search_Ok in Hd as (Hr & Hex & Hmin); try lia.
  destruct Hex as (u & Hu & Hubit & Hudist).
  pose proof (SquareDistance_range ksq u Hk Hu ltac:(specialize (Hne u Hubit); congruence)).
  split; [lia|]. split; [eauto|].
  intros w Hw Hwbit. apply Hmin; auto.
  pose proof (SquareDistance_range ksq w Hk Hw ltac:(specialize (Hne w Hwbit); congruence)). lia.
Qed.

Lemma wf_king_spec (pos : Position) (c : Color) (ksq : Square) :
  wf_king pos c ksq = true <-> 0 <= ksq < 64 /\ Z.testbit (pieces pos c) ksq = false.
Proof.
  unfold wf_king, is_ok, SQ_A1, SQ_NONE.
  rewrite !andb_true_iff, negb_true_iff, Z.leb_le, Z.ltb_lt. tauto.
Qed.

(** The entry and the distance after the first lines of [do_king_safety]. *)
Lemma do_king_safety_unfold (Us : Color) (pos : Position) (ksq : Square) (e : Entry) :
  do_king_safety Us pos ksq e
  = let e0 := set_minKingPawnDistance Us 0
                (set_castlingRights Us (can_castle_c pos Us) (set_kingSquares Us ksq e)) in
    e1 ← (if nz (pieces pos Us)
          then d ← ring_search 8 ksq (pieces pos Us) (get Us (minKingPawnDistance e0));
               Ok (set_minKingPawnDistance Us d e0)
          else Ok e0);
    if relative_rank_sq Us ksq >? RANK_4
    then Ok (make_score 0 (-16 * get Us (minKingPawnDistance e1)), e1)
    else
      bonus ← shelter_storm Us pos ksq;
      bonus ← (if nz (can_castle pos (MakeCastling_right Us KING_SIDE))
               then b' ← shelter_storm Us pos (relative_square Us SQ_G1);
                    Ok (Z.max bonus b')
               else Ok bonus);
      bonus ← (if nz (can_castle pos (MakeCastling_right Us QUEEN_SIDE))
               then b' ← shelter_storm Us pos (relative_square Us SQ_C1);
                    Ok (Z.max bonus b')
               else Ok bonus);
      Ok (make_score bonus (-16 * get Us (minKingPawnDistance e1)), e1).
Proof. reflexivity. Qed.

Lemma get_set_minKingPawnDistance (Us : Color) (d : Z) (e : Entry) :
  get Us (minKingPawnDistance (set_minKingPawnDistance Us d e)) = d.
Proof. destruct Us; reflexivity. Qed.

(** C4.  For a king beyond the fourth relative rank, [do_king_safety]
    returns the score (0, -16 * d), whatever the pawns are, where [d] is the
    [minKingPawnDistance] it has stored: the distance of the closest pawn of
    the side, and 0 for a side without pawns. *)
Theorem advanced_king_gets_no_shelter (Us : Color) (pos : Position) (ksq : Square)
  (e : Entry) :
  wf_position pos = true -> wf_king pos Us ksq = true ->
  relative_rank_sq Us ksq > RANK_4 ->
  exists d e',
    do_king_safety Us pos ksq e = Ok (make_score 0 (-16 * d), e')
    /\ get Us (minKingPawnDistance e') = d
    /\ (if nz (pieces pos Us) then closest_pawn_at ksq (pieces pos Us) d else d = 0).
Proof.
  intros Hwf Hking Hrank. apply wf_king_spec in Hking as [Hk Hoff].
  rewrite do_king_safety_unfold. cbv zeta.
  apply Z.gt_lt, Z.ltb_lt in Hrank. rewrite Z.gtb_ltb, Hrank.
  destruct (nz (pieces pos Us)) eqn:Hnz.
  - rewrite get_set_minKingPawnDistance.
    destruct (ring_search_closest ksq (pieces pos Us)) as (d & Hd & _ & Hclosest); auto.
    { apply wf_position_pieces, Hwf. }
    rewrite Hd. cbn [mbind result_bind]. rewrite get_set_minKingPawnDistance.
    eexists. eexists. split; [reflexivity|]. rewrite get_set_minKingPawnDistance. auto.
  - cbn [mbind result_bind]. rewrite get_set_minKingPawnDistance.
    eexists. eexists. split; [reflexivity|]. rewrite get_set_minKingPawnDistance. auto.
Qed.

Lemma advanced_king_gets_no_shelter_witness :
  exists d e',
    do_king_safety WHITE (sample_position 5) 36 zero_entry = Ok (make_score 0 (-16 * d), e')
    /\ get WHITE (minKingPawnDistance e') = d
    /\ (if nz (pieces (sample_position 5) WHITE)
        then closest_pawn_at 36 (pieces (sample_position 5) WHITE) d else d = 0).
Proof.
  apply (advanced_king_gets_no_shelter WHITE (sample_position 5) 36 zero_entry).
  - vm_compute; reflexivity.
  - vm_compute; reflexivity.
  - vm_compute; reflexivity.
Defined.

(** C10.  For a side without pawns [do_king_safety] stores 0 in
    [minKingPawnDistance] and returns an endgame term of 0, on either path.
    The ring search runs only for a side with a pawn, and then it ends
    within the rings of the table, on a distance between 1 and 7. *)
Theorem pawnless_side_has_no_distance_penalty (Us : Color) (pos : Position)
  (ksq : Square) (e : Entry) :
  (pieces pos Us = 0 ->
   exists sc e',
     do_king_safety Us pos ksq e = Ok (sc, e')
     /\ get Us (minKingPawnDistance e') = 0 /\ eg_value sc = 0)
  /\ (wf_position pos = true -> wf_king pos Us ksq = true -> pieces pos Us <> 0 ->
      exists d sc e',
        ring_search 8 ksq (pieces pos Us) 0 = Ok d /\ 1 <= d <= 7
        /\ do_king_safety Us pos ksq e = Ok (sc, e')
        /\ get Us (minKingPawnDistance e') = d /\ eg_value sc = -16 * d).
Proof.
  split.
  - intros Hnone. rewrite do_king_safety_unfold. cbv zeta. rewrite Hnone.
    cbn [nz Z.eqb negb mbind result_bind]. rewrite get_set_minKingPawnDistance.
    destruct (relative_rank_sq Us ksq >? RANK_4).
    + eexists. eexists. split; [reflexivity|]. rewrite get_set_minKingPawnDistance. auto.
    + destruct (shelter_storm_total Us pos ksq) as [b0 ->]. cbn [mbind result_bind].
      destruct (nz (can_castle pos (MakeCastling_right Us KING_SIDE)));
        [destruct (shelter_storm_total Us pos (relative_square Us SQ_G1)) as [b1 ->]|];
        cbn [mbind result_bind];
        (destruct (nz (can_castle pos (MakeCastling_right Us QUEEN_SIDE)));
         [destruct (shelter_storm_total Us pos (relative_square Us SQ_C1)) as [b2 ->]|]);
        cbn [mbind result_bind];
        (eexists; eexists; split; [reflexivity|]);
        rewrite get_set_minKingPawnDistance; auto.
  - intros Hwf Hking Hsome. apply wf_king_spec in Hking as [Hk Hoff].
    destruct (ring_search_closest ksq (pieces pos Us)) as (d & Hd & Hr & _); auto.
    { apply wf_position_pieces, Hwf. }
    { apply nz_true, Hsome. }
    exists d. rewrite do_king_safety_unfold. cbv zeta.
    rewrite (proj2 (nz_true _) Hsome), get_set_minKingPawnDistance, Hd.
    cbn [mbind result_bind].
    destruct (relative_rank_sq Us ksq >? RANK_4).
    + eexists. eexists. split; [reflexivity|]. split; [exact Hr|].
      split; [reflexivity|]. rewrite get_set_minKingPawnDistance. auto.
    + destruct (shelter_storm_total Us pos ksq) as [b0 ->]. cbn [mbind result_bind].
      destruct (nz (can_castle pos (MakeCastling_right Us KING_SIDE)));
        [destruct (shelter_storm_total Us pos (relative_square Us SQ_G1)) as [b1 ->]|];
        cbn [mbind result_bind];
        (destruct (nz (can_castle pos (MakeCastling_right Us QUEEN_SIDE)));
         [destruct (shelter_storm_total Us pos (relative_square Us SQ_C1)) as [b2 ->]|]);
        cbn [mbind result_bind];
        (eexists; eexists; split; [reflexivity|]; split; [exact Hr|];
         split; [reflexivity|]);
        rewrite get_set_minKingPawnDistance; auto.
Qed.

Lemma pawnless_side_has_no_distance_penalty_witness :
  exists sc e',
    do_king_safety BLACK rook_pawns_position 60 zero_entry = Ok (sc, e')
    /\ get BLACK (minKingPawnDistance e') = 0 /\ eg_value sc = 0.
Proof.
  apply (proj1 (pawnless_side_has_no_distance_penalty BLACK rook_pawns_position 60
                  zero_entry)).
  vm_compute; reflexivity.
Defined.

(** ** The mirror *)

(** *** Flipping the board *)

Lemma bb_ext (x y : Bitboard) :
  is_bb x = true -> is_bb y = true ->
  (forall i, 0 <= i < 64 -> Z.testbit x i = Z.testbit y i) -> x = y.
Proof.
  intros Hx Hy H. apply Z.bits_inj'. intros i Hi.
  destruct (Z_lt_le_dec i 64); [apply H; lia|].
  now rewrite (is_bb_high x), (is_bb_high y).
Qed.

Lemma flip_sq_involutive (s : Square) : flip_sq (flip_sq s) = s.
Proof. unfold flip_sq. now rewrite Z.lxor_assoc, Z.lxor_nilpotent, Z.lxor_0_r. Qed.

Lemma flip_sq_rank (s : Square) :
  0 <= s < 64 -> flip_sq s = s + 56 - 16 * rank_of s /\ 0 <= flip_sq s < 64.
Proof.
  intros Hs.
  assert (H : forallb (fun s => (flip_sq s =? s + 56 - 16 * rank_of s)
                                && (0 <=? flip_sq s) && (flip_sq s <? 64)) squares = true)
    by (vm_compute; reflexivity).
  pose proof (forallb_squares _ H s Hs) as H'.
  rewrite !andb_true_iff, Z.eqb_eq, Z.leb_le, Z.ltb_lt in H'. lia.
Qed.

Lemma flip_sq_range (s : Square) : 0 <= s < 64 -> 0 <= flip_sq s < 64.
Proof. intros Hs. apply flip_sq_rank, Hs. Qed.

Lemma flip_sq_file (s : Square) : 0 <= s < 64 -> file_of (flip_sq s) = file_of s.
Proof.
  intros Hs. destruct (flip_sq_rank s Hs) as [-> _]. rewrite !file_of_mod.
  replace (s + 56 - 16 * rank_of s) with (s + (7 - 2 * rank_of s) * 8) by lia.
  apply Z.mod_add. lia.
Qed.

Lemma flip_sq_rank_of (s : Square) : 0 <= s < 64 -> rank_of (flip_sq s) = 7 - rank_of s.
Proof.
  intros Hs.
  pose proof (square_file_rank (flip_sq s)) as E. rewrite flip_sq_file in E by exact Hs.
  destruct (flip_sq_rank s Hs) as [E' _]. pose proof (square_file_rank s). lia.
Qed.

Lemma flip_term_spec (b : Bitboard) (r i : Z) :
  0 <= i -> 0 <= r <= 7 ->
  Z.testbit (Z.shiftl (Z.land (Z.shiftr b (8 * r)) Rank1BB) (8 * (7 - r))) i
  = if (8 * (7 - r) <=? i) && (i <? 8 * (7 - r) + 8)
    then Z.testbit b (i - 8 * (7 - r) + 8 * r) else false.
Proof.
  intros Hi Hr. rewrite Z.shiftl_spec by exact Hi.
  destruct (Z.leb_spec (8 * (7 - r)) i) as [Hle|Hlt]; cbn [andb].
  - rewrite Z.land_spec, Z.shiftr_spec by lia. change Rank1BB with (Z.ones 8).
    destruct (Z.ltb_spec i (8 * (7 - r) + 8)).
    + rewrite Z.ones_spec_low by lia. apply andb_true_r.
    + rewrite Z.ones_spec_high by lia. apply andb_false_r.
  - apply Z.testbit_neg_r. lia.
Qed.

Lemma flip_bb_spec (b : Bitboard) (i : Square) :
  0 <= i < 64 -> Z.testbit (flip_bb b) i = Z.testbit b (flip_sq i).
Proof.
  intros Hi. destruct (flip_sq_rank i Hi) as [-> _].
  pose proof (rank_of_range i Hi) as Hr. pose proof (square_file_rank i) as Hsq.
  pose proof (file_of_range i) as Hf.
  unfold flip_bb, files. cbn [fold_left].
  rewrite !Z.lor_spec, Z.bits_0, !flip_term_spec by lia.
  assert (Hcases : rank_of i = 0 \/ rank_of i = 1 \/ rank_of i = 2 \/ rank_of i = 3
                   \/ rank_of i = 4 \/ rank_of i = 5 \/ rank_of i = 6 \/ rank_of i = 7)
    by lia.
  repeat (destruct Hcases as [Hc|Hcases]);
    repeat match goal with
      | |- context [?a <=? ?b] => destruct (Z.leb_spec a b); try lia
      | |- context [?a <? ?b] => destruct (Z.ltb_spec a b); try lia
      end;
    cbn [andb orb]; rewrite ?orb_false_r; f_equal; lia.
Qed.

Lemma flip_bb_is_bb (b : Bitboard) : is_bb (flip_bb b) = true.
Proof.
  unfold flip_bb, files. cbn [fold_left].
  assert (T : forall r, 0 <= r <= 7 ->
            is_bb (Z.shiftl (Z.land (Z.shiftr b (8 * r)) Rank1BB) (8 * (7 - r))) = true).
  { intros r Hr. apply is_bb_spec.
    assert (0 <= Z.land (Z.shiftr b (8 * r)) Rank1BB < 2 ^ 8).
    { change Rank1BB with (Z.ones 8). rewrite Z.land_ones by lia.
      apply Z.mod_pos_bound. lia. }
    rewrite Z.shiftl_mul_pow2 by lia. split; [apply Z.mul_nonneg_nonneg; lia|].
    apply Z.lt_le_trans with (2 ^ 8 * 2 ^ (8 * (7 - r))).
    - apply Z.mul_lt_mono_pos_r; lia.
    - rewrite <- Z.pow_add_r by lia. apply Z.pow_le_mono_r; lia. }
  repeat apply is_bb_lor; try (apply T; lia). reflexivity.
Qed.

Lemma flip_bb_land (a b : Bitboard) : flip_bb (Z.land a b) = Z.land (flip_bb a) (flip_bb b).
Proof.
  apply bb_ext; [apply flip_bb_is_bb|apply is_bb_land_r, flip_bb_is_bb|].
  intros i Hi. now rewrite Z.land_spec, !flip_bb_spec, Z.land_spec.
Qed.

Lemma flip_bb_lor (a b : Bitboard) : flip_bb (Z.lor a b) = Z.lor (flip_bb a) (flip_bb b).
Proof.
  apply bb_ext; [apply flip_bb_is_bb|apply is_bb_lor; apply flip_bb_is_bb|].
  intros i Hi. now rewrite Z.lor_spec, !flip_bb_spec, Z.lor_spec.
Qed.

Lemma nz_flip_bb (b : Bitboard) : is_bb b = true -> nz (flip_bb b) = nz b.
Proof.
  intros Hb. destruct (nz b) eqn:E.
  - destruct (nz_bit b Hb E) as (t & Ht & Hbit).
    apply (nz_testbit _ (flip_sq t)).
    rewrite flip_bb_spec, flip_sq_involutive by (apply flip_sq_range, Ht). exact Hbit.
  - apply nz_false in E. subst b. reflexivity.
Qed.

Lemma opp_involutive (c : Color) : opp (opp c) = c.
Proof. now destruct c. Qed.

(** *** The masks of the flipped square *)

Ltac by_squares s Hs P :=
  let H := fresh in
  assert (H : forallb P squares = true)
    by (repeat match goal with c : Color |- _ => destruct c end; vm_compute; reflexivity);
  apply Z.eqb_eq; exact (forallb_squares _ H s Hs).

Lemma forward_bb_flip (c : Color) (s : Square) :
  0 <= s < 64 -> forward_bb (opp c) (flip_sq s) = flip_bb (forward_bb c s).
Proof.
  intros Hs.
  by_squares s Hs (fun s => forward_bb (opp c) (flip_sq s) =? flip_bb (forward_bb c s)).
Qed.

Lemma pawn_attack_span_flip (c : Color) (s : Square) :
  0 <= s < 64 -> pawn_attack_span (opp c) (flip_sq s) = flip_bb (pawn_attack_span c s).
Proof.
  intros Hs.
  by_squares s Hs (fun s => pawn_attack_span (opp c) (flip_sq s)
                            =? flip_bb (pawn_attack_span c s)).
Qed.

Lemma passed_pawn_mask_flip (c : Color) (s : Square) :
  0 <= s < 64 -> passed_pawn_mask (opp c) (flip_sq s) = flip_bb (passed_pawn_mask c s).
Proof.
  intros Hs.
  by_squares s Hs (fun s => passed_pawn_mask (opp c) (flip_sq s)
                            =? flip_bb (passed_pawn_mask c s)).
Qed.

Lemma pawn_attacks_bb_flip (c : Color) (s : Square) :
  0 <= s < 64 -> pawn_attacks_bb (opp c) (flip_sq s) = flip_bb (pawn_attacks_bb c s).
Proof.
  intros Hs.
  by_squares s Hs (fun s => pawn_attacks_bb (opp c) (flip_sq s)
                            =? flip_bb (pawn_attacks_bb c s)).
Qed.

Lemma rank_bb_sq_flip (s : Square) :
  0 <= s < 64 -> rank_bb_sq (flip_sq s) = flip_bb (rank_bb_sq s).
Proof.
  intros Hs. by_squares s Hs (fun s => rank_bb_sq (flip_sq s) =? flip_bb (rank_bb_sq s)).
Qed.

Lemma adjacent_files_bb_flip (s : Square) :
  0 <= s < 64 ->
  adjacent_files_bb (file_of (flip_sq s)) = flip_bb (adjacent_files_bb (file_of s)).
Proof.
  intros Hs.
  by_squares s Hs (fun s => adjacent_files_bb (file_of (flip_sq s))
                            =? flip_bb (adjacent_files_bb (file_of s))).
Qed.

Lemma previous_rank_flip (c : Color) (s : Square) :
  8 <= s < 56 ->
  rank_bb_sq (flip_sq s - pawn_push (opp c)) = flip_bb (rank_bb_sq (s - pawn_push c)).
Proof.
  intros Hs.
  assert (H : forallb (fun s => negb ((8 <=? s) && (s <? 56))
                                || (rank_bb_sq (flip_sq s - pawn_push (opp c))
                                    =? flip_bb (rank_bb_sq (s - pawn_push c))))
                      squares = true)
    by (destruct c; vm_compute; reflexivity).
  pose proof (forallb_squares _ H s ltac:(lia)) as H'. cbv beta in H'.
  rewrite (proj2 (Z.leb_le 8 s)), (proj2 (Z.ltb_lt s 56)) in H' by lia.
  apply Z.eqb_eq. exact H'.
Qed.

Lemma rank_bb_flip (s t : Square) :
  0 <= s < 64 -> 0 <= t < 64 -> rank_of t = 7 - rank_of s ->
  rank_bb_sq t = flip_bb (rank_bb_sq s).
Proof.
  intros Hs Ht Hr. rewrite <- rank_bb_sq_flip by exact Hs. unfold rank_bb_sq.
  now rewrite flip_sq_rank_of, Hr.
Qed.

Lemma relative_rank_sq_flip (c : Color) (s : Square) :
  0 <= s < 64 -> relative_rank_sq (opp c) (flip_sq s) = relative_rank_sq c s.
Proof.
  intros Hs.
  by_squares s Hs (fun s => relative_rank_sq (opp c) (flip_sq s) =? relative_rank_sq c s).
Qed.

(** *** Bit scans of the flipped board *)

Lemma rank_of_mono (s t : Square) : s <= t -> rank_of s <= rank_of t.
Proof. intros H. rewrite !rank_of_div. apply Z.div_le_mono; lia. Qed.

Lemma flip_bit (b : Bitboard) (i : Square) :
  0 <= i < 64 -> Z.testbit (flip_bb b) (flip_sq i) = Z.testbit b i.
Proof.
  intros Hi. now rewrite flip_bb_spec, flip_sq_involutive by (apply flip_sq_range, Hi).
Qed.

Lemma lsb_flip (b : Bitboard) (i : Square) :
  lsb b = Some i ->
  exists j, msb (flip_bb b) = Some j /\ 0 <= j < 64 /\ rank_of j = 7 - rank_of i.
Proof.
  intros H. apply lsb_Some in H as (Hbit & Hi & Hlow).
  destruct (msb_defined (flip_bb b)) as [j Hj].
  { apply flip_bb_is_bb. }
  { apply (nz_testbit _ (flip_sq i)). now rewrite flip_bit. }
  exists j. split; [exact Hj|]. apply msb_Some in Hj as (Hjbit & Hjr & Hhigh).
  split; [exact Hjr|].
  assert (i <= flip_sq j).
  { destruct (Z_le_gt_dec i (flip_sq j)); [assumption|].
    rewrite flip_bb_spec, Hlow in Hjbit by (pose proof (flip_sq_range j Hjr); lia).
    discriminate. }
  assert (flip_sq i <= j).
  { destruct (Z_le_gt_dec (flip_sq i) j); [assumption|].
    pose proof (flip_sq_range i Hi).
    rewrite <- (flip_bit b i Hi), Hhigh in Hbit by lia. discriminate. }
  pose proof (rank_of_mono _ _ H) as R1. pose proof (rank_of_mono _ _ H0) as R2.
  rewrite flip_sq_rank_of in R1, R2 by assumption. lia.
Qed.

Lemma msb_flip (b : Bitboard) (i : Square) :
  msb b = Some i ->
  exists j, lsb (flip_bb b) = Some j /\ 0 <= j < 64 /\ rank_of j = 7 - rank_of i.
Proof.
  intros H. apply msb_Some in H as (Hbit & Hi & Hhigh).
  destruct (lsb_defined (flip_bb b)) as [j Hj].
  { apply flip_bb_is_bb. }
  { apply (nz_testbit _ (flip_sq i)). now rewrite flip_bit. }
  exists j. split; [exact Hj|]. apply lsb_Some in Hj as (Hjbit & Hjr & Hlow).
  split; [exact Hjr|].
  assert (flip_sq j <= i).
  { destruct (Z_le_gt_dec (flip_sq j) i); [assumption|].
    pose proof (flip_sq_range j Hjr).
    rewrite flip_bb_spec, Hhigh in Hjbit by lia. discriminate. }
  assert (j <= flip_sq i).
  { destruct (Z_le_gt_dec j (flip_sq i)); [assumption|].
    pose proof (flip_sq_range i Hi).
    rewrite <- (flip_bit b i Hi), Hlow in Hbit by lia. discriminate. }
  pose proof (rank_of_mono _ _ H) as R1. pose proof (rank_of_mono _ _ H0) as R2.
  rewrite flip_sq_rank_of in R1, R2 by assumption. lia.
Qed.

Lemma scan_None_flip (b : Bitboard) (l : list Square) :
  (forall t, In t l <-> 0 <= t < 64) ->
  List.find (Z.testbit b) squares = None -> List.find (Z.testbit (flip_bb b)) l = None.
Proof.
  intros Hl H. destruct (List.find (Z.testbit (flip_bb b)) l) as [j|] eqn:E; [|reflexivity].
  apply find_some in E as [Hin Hbit]. apply Hl in Hin.
  rewrite flip_bb_spec in Hbit by exact Hin.
  rewrite (find_none _ _ H (flip_sq j)) in Hbit; [discriminate|].
  apply squares_spec, flip_sq_range, Hin.
Qed.

Lemma rev_squares_spec (t : Z) : In t (rev squares) <-> 0 <= t < 64.
Proof. rewrite <- in_rev. apply squares_spec. Qed.

Lemma find_rev_None (b : Bitboard) :
  List.find (Z.testbit b) (rev squares) = None -> List.find (Z.testbit b) squares = None.
Proof.
  intros H. destruct (List.find (Z.testbit b) squares) as [j|] eqn:E; [|reflexivity].
  apply find_some in E as [Hin Hbit].
  rewrite (find_none _ _ H j) in Hbit; [discriminate|]. now apply in_rev in Hin.
Qed.

Lemma backmost_sq_flip (c : Color) (b : Bitboard) :
  mirrored_scan (backmost_sq c b) (backmost_sq (opp c) (flip_bb b)).
Proof.
  unfold mirrored_scan. destruct c; cbn [backmost_sq opp].
  - destruct (lsb b) as [i|] eqn:E; [apply lsb_flip, E|].
    apply (scan_None_flip b (rev squares) rev_squares_spec E).
  - destruct (msb b) as [i|] eqn:E; [apply msb_flip, E|].
    apply (scan_None_flip b squares squares_spec), find_rev_None, E.
Qed.

Lemma frontmost_sq_flip (c : Color) (b : Bitboard) :
  mirrored_scan (frontmost_sq c b) (frontmost_sq (opp c) (flip_bb b)).
Proof.
  unfold mirrored_scan. destruct c; cbn [frontmost_sq opp].
  - destruct (msb b) as [i|] eqn:E; [apply msb_flip, E|].
    apply (scan_None_flip b squares squares_spec), find_rev_None, E.
  - destruct (lsb b) as [i|] eqn:E; [apply lsb_flip, E|].
    apply (scan_None_flip b (rev squares) rev_squares_spec E).
Qed.

(** *** One step up the board, flipped *)

Lemma is_bb_shiftr (b : Bitboard) (n : Z) : is_bb b = true -> 0 <= n -> is_bb (Z.shiftr b n) = true.
Proof.
  rewrite !is_bb_spec. intros [H0 H1] Hn. rewrite Z.shiftr_div_pow2 by exact Hn.
  split; [apply Z.div_pos; lia|].
  apply Z.le_lt_trans with b; [|exact H1]. apply Z.div_le_upper_bound; [lia|].
  assert (1 <= 2 ^ n) by (apply (Z.pow_le_mono_r 2 0 n); lia). nia.
Qed.

Lemma u64_spec (x i : Z) : 0 <= i < 64 -> Z.testbit (u64 x) i = Z.testbit x i.
Proof.
  intros Hi. unfold u64. change 0xFFFFFFFFFFFFFFFF with (Z.ones 64).
  rewrite Z.land_spec, Z.ones_spec_low by lia. apply andb_true_r.
Qed.

Lemma rank_of_add8 (i : Square) : rank_of (i + 8) = rank_of i + 1.
Proof. rewrite !rank_of_div. replace (i + 8) with (i + 1 * 8) by lia. apply Z.div_add. lia. Qed.

Lemma shift_bb_flip (c : Color) (b : Bitboard) :
  is_bb b = true ->
  shift_bb (pawn_push (opp c)) (flip_bb b) = flip_bb (shift_bb (pawn_push c) b).
Proof.
  intros Hb. destruct c; cbn [opp pawn_push].
  - (* (flip b) >> 8 = flip (b << 8) *)
    change (Z.shiftr (flip_bb b) 8 = flip_bb (u64 (Z.shiftl b 8))).
    apply bb_ext; [apply is_bb_shiftr; [apply flip_bb_is_bb|lia]|apply flip_bb_is_bb|].
    intros i Hi. rewrite Z.shiftr_spec, (flip_bb_spec (u64 _) i) by lia.
    destruct (flip_sq_rank i Hi) as [Ef Hfr]. pose proof (rank_of_range i Hi).
    pose proof (square_file_rank i). pose proof (file_of_range i).
    rewrite u64_spec, Z.shiftl_spec by lia.
    destruct (Z_lt_le_dec (i + 8) 64).
    + rewrite flip_bb_spec by lia. f_equal.
      destruct (flip_sq_rank (i + 8) ltac:(lia)) as [-> _]. rewrite rank_of_add8. lia.
    + rewrite (is_bb_high (flip_bb b)) by (try apply flip_bb_is_bb; lia).
      symmetry. apply Z.testbit_neg_r. lia.
  - (* (flip b) << 8 = flip (b >> 8) *)
    change (u64 (Z.shiftl (flip_bb b) 8) = flip_bb (Z.shiftr b 8)).
    apply bb_ext; [apply u64_is_bb|apply flip_bb_is_bb|].
    intros i Hi. rewrite u64_spec, Z.shiftl_spec, (flip_bb_spec (Z.shiftr _ _) i) by lia.
    destruct (flip_sq_rank i Hi) as [Ef Hfr]. pose proof (rank_of_range i Hi).
    pose proof (square_file_rank i). pose proof (file_of_range i).
    rewrite Z.shiftr_spec by lia.
    destruct (Z_lt_le_dec i 8).
    + rewrite Z.testbit_neg_r by lia. symmetry. apply is_bb_high; [exact Hb|lia].
    + rewrite flip_bb_spec by lia. f_equal.
      destruct (flip_sq_rank (i - 8) ltac:(lia)) as [-> _].
      pose proof (rank_of_add8 (i - 8)) as R. replace (i - 8 + 8) with i in R by lia. lia.
Qed.

Ltac bb :=
  repeat first
    [ assumption
    | apply flip_bb_is_bb
    | apply u64_is_bb
    | apply is_bb_lor
    | (apply is_bb_land_l; bb; fail)
    | (apply is_bb_land_r; bb; fail) ].

Lemma classify_mirror (c : Color) (ours theirs : Bitboard) (s : Square) :
  is_bb ours = true -> is_bb theirs = true -> 8 <= s < 56 ->
  classify (opp c) (flip_bb ours) (flip_bb theirs) (flip_sq s)
  = result_map flip_flags (classify c ours theirs s).
Proof.
  intros Hours Htheirs Hs. assert (Hs' : 0 <= s < 64) by lia.
  unfold classify. cbv zeta.
  rewrite adjacent_files_bb_flip, rank_bb_sq_flip, previous_rank_flip, forward_bb_flip,
    passed_pawn_mask_flip, pawn_attacks_bb_flip, !pawn_attack_span_flip by lia.
  rewrite <- !flip_bb_lor, <- !flip_bb_land.
  rewrite !nz_lor, !nz_b2z.
  rewrite !nz_flip_bb by bb.
  rewrite (asserted_flags c theirs s).
  destruct (_ || _ || _ || _ || _); cbn [mbind result_bind result_map]; [reflexivity|].
  pose proof (backmost_sq_flip c (Z.land (pawn_attack_span c s) (Z.lor ours theirs))) as Hscan.
  unfold mirrored_scan in Hscan.
  destruct (backmost_sq c _) as [sq|] eqn:Esq.
  - destruct Hscan as (sq' & -> & Hsq' & Hrank). cbn [of_option mbind result_bind result_map].
    apply backmost_sq_Some in Esq as [Hsq _].
    destruct (pawn_attack_span_spec c s Hs') as [Hspan _].
    rewrite (rank_bb_flip sq sq') by assumption.
    rewrite <- flip_bb_land, shift_bb_flip, <- flip_bb_lor, <- flip_bb_land by bb.
    rewrite nz_flip_bb by bb. reflexivity.
  - rewrite Hscan. reflexivity.
Qed.

(** *** The score of the mirrored pawn *)

Lemma score_pawn_mirror (c : Color) (s : Square) (fl : PawnFlags) (v : Score) :
  0 <= s < 64 -> is_bb (connected fl) = true -> is_bb (doubled fl) = true ->
  score_pawn (opp c) (flip_sq s) (flip_flags fl) v = score_pawn c s fl v.
Proof.
  intros Hs Hconn Hdbl. unfold score_pawn. cbv zeta. cbn [flip_flags connected phalanx
    unsupported isolated doubled opposed passed lever backward].
  rewrite flip_sq_file, relative_rank_sq_flip, !nz_flip_bb by assumption.
  pose proof (frontmost_sq_flip c (doubled fl)) as Hscan. unfold mirrored_scan in Hscan.
  destruct (nz (doubled fl)) eqn:End; [|reflexivity].
  destruct (frontmost_sq c (doubled fl)) as [front|] eqn:Efront.
  - destruct Hscan as (front' & -> & Hf' & Hrank). cbn [of_option mbind result_bind].
    assert (Hd : distance_Rank (flip_sq s) front' = distance_Rank s front).
    { unfold distance_Rank. rewrite flip_sq_rank_of, Hrank by exact Hs. lia. }
    rewrite Hd. reflexivity.
  - rewrite Hscan. reflexivity.
Qed.

(** *** The running value and the order of the pawn list *)

Lemma nth_squares {A : Type} (f : Square -> A) (d : A) (s : Square) :
  0 <= s < 64 -> nth (Z.to_nat s) (map f squares) d = f s.
Proof.
  intros Hs. unfold squares. rewrite map_map.
  rewrite (nth_indep _ d (f (Z.of_nat 0))) by (rewrite length_map, length_seq; lia).
  rewrite (map_nth (fun n => f (Z.of_nat n))), seq_nth by lia. f_equal. lia.
Qed.

Lemma list_PAWN_mirror (k : Key) (pos : Position) (c : Color) :
  list_PAWN (mirror k pos) c = map flip_sq (list_PAWN pos (opp c)).
Proof. destruct c; reflexivity. Qed.

Lemma classify_is_bb (c : Color) (ours theirs : Bitboard) (s : Square) (fl : PawnFlags) :
  is_bb ours = true -> classify c ours theirs s = Ok fl ->
  is_bb (connected fl) = true /\ is_bb (doubled fl) = true.
Proof.
  intros Hours H. apply classify_Ok in H. cbv zeta in H.
  destruct H as (-> & _ & _ & _ & -> & _). split; bb.
Qed.

Lemma pawn_loop_semiopen (Us : Color) (pos : Position) (pl : list Square)
  (e e' : Entry) (v v' : Score) :
  pawn_loop Us pos pl (e, v) = Ok (e', v') ->
  get Us (semiopenFiles e') = semiopen_after pl (get Us (semiopenFiles e)).
Proof.
  revert e v. induction pl as [|s pl IH]; intros e v; cbn [pawn_loop].
  - now intros [= <- <-].
  - destruct (pawn_step Us pos s (e, v)) as [[e1 v1]|] eqn:H1; cbn [mbind result_bind];
      [|discriminate].
    intros H. apply IH in H. apply pawn_step_Ok in H1 as (_ & fl & _ & _ & ->).
    destruct (step_entry_fields Us s fl e) as (_ & _ & Hso & _).
    rewrite H, Hso. reflexivity.
Qed.

(** [evaluate] ends as soon as its loop does. *)
Lemma evaluate_of_loop (Us : Color) (pos : Position) (e e1 : Entry) (v : Score) :
  pawn_loop Us pos (list_PAWN pos Us) (evaluate_init Us pos e, SCORE_ZERO) = Ok (e1, v) ->
  exists e', evaluate Us pos e = Ok (v, e').
Proof.
  intros Hloop. rewrite evaluate_unfold, Hloop. cbn [mbind result_bind].
  pose proof (pawn_loop_semiopen _ _ _ _ _ _ _ Hloop) as Hso.
  destruct (evaluate_init_fields Us pos e) as (_ & _ & Hso0 & _).
  rewrite Hso0 in Hso. rewrite Hso, span_of_mask_spec by apply semiopen_after_range.
  cbn. eauto.
Qed.

Lemma score_sub_swap (a b : Score) : score_sub b a = score_neg (score_sub a b).
Proof. unfold score_sub, score_neg. cbn. f_equal; lia. Qed.

Lemma probe_repopulated (pos : Position) (entries : Table) (e e' : Entry) :
  table entries !! slot entries (pawn_key pos) = Some e ->
  is_miss pos entries = true ->
  repopulate pos e = Ok e' ->
  exists entries',
    probe pos entries = Ok (slot entries (pawn_key pos), entries')
    /\ table entries' !! slot entries (pawn_key pos) = Some e'.
Proof.
  intros He Hmiss Hre. unfold is_miss in Hmiss. rewrite He in Hmiss.
  apply negb_true_iff in Hmiss.
  rewrite (probe_unfold _ _ _ He), Hmiss, Hre. cbn [mbind result_bind].
  eexists. split; [reflexivity|]. cbn [table].
  apply list_lookup_insert_eq. apply lookup_lt_Some in He. exact He.
Qed.

Ltac score_eq :=
  unfold score_add, score_sub, score_neg, SCORE_ZERO; cbn [mg_value eg_value];
  f_equal; lia.

(** The score of a pawn is added to the running value. *)
Lemma score_pawn_additive (c : Color) (s : Square) (fl : PawnFlags) (v : Score) :
  score_pawn c s fl v = result_map (score_add v) (score_pawn c s fl SCORE_ZERO).
Proof.
  destruct v as [vm ve]. unfold score_pawn. cbv zeta.
  destruct (nz (doubled fl)); cbn [mbind result_bind result_map].
  - destruct (frontmost_sq c (doubled fl)) as [front|];
      cbn [of_option mbind result_bind result_map];
      [|reflexivity].
    destruct (score_div _ _) as [d|]; cbn [mbind result_bind result_map]; [|reflexivity].
    f_equal.
    destruct (isolated fl), (unsupported fl), (backward fl), (nz (connected fl)), (lever fl);
      cbn [andb negb]; score_eq.
  - f_equal.
    destruct (isolated fl), (unsupported fl), (backward fl), (nz (connected fl)), (lever fl);
      cbn [andb negb]; score_eq.
Qed.

Lemma score_pawn_shift (c : Color) (s : Square) (fl : PawnFlags) (v v1 v' : Score) :
  score_pawn c s fl v = Ok v1 ->
  score_pawn c s fl v' = Ok (score_add v' (score_sub v1 v)).
Proof.
  rewrite (score_pawn_additive c s fl v), (score_pawn_additive c s fl v').
  destruct (score_pawn c s fl SCORE_ZERO) as [d|]; cbn [result_map]; [|discriminate].
  intros [= <-]. f_equal. destruct v, v', d. score_eq.
Qed.

(** A turn of the loop does not read the entry, and adds to the value. *)
Lemma pawn_step_shift (c : Color) (pos : Position) (s : Square) (e e1 e' : Entry)
  (v v1 v' : Score) :
  pawn_step c pos s (e, v) = Ok (e1, v1) ->
  exists e1', pawn_step c pos s (e', v') = Ok (e1', score_add v' (score_sub v1 v)).
Proof.
  intros H. apply pawn_step_Ok in H as (Hp & fl & Hfl & Hv & _).
  unfold pawn_step. rewrite Hp, Z.eqb_refl. cbn [negb]. rewrite Hfl. cbn [mbind result_bind].
  rewrite (score_pawn_shift c s fl v v1 v' Hv). cbn [mbind result_bind]. eauto.
Qed.

Lemma score_shift_id (v v1 : Score) : score_add v (score_sub v1 v) = v1.
Proof. destruct v, v1. score_eq. Qed.

Lemma pawn_loop_shift (c : Color) (pos : Position) (pl : list Square) (e e1 e' : Entry)
  (v v1 v' : Score) :
  pawn_loop c pos pl (e, v) = Ok (e1, v1) ->
  exists e1', pawn_loop c pos pl (e', v') = Ok (e1', score_add v' (score_sub v1 v)).
Proof.
  revert e e' v v'. induction pl as [|s pl IH]; intros e e' v v'; cbn [pawn_loop].
  - intros [= <- <-]. exists e'. f_equal. f_equal. destruct v, v'. score_eq.
  - destruct (pawn_step c pos s (e, v)) as [[e2 v2]|] eqn:H1; cbn [mbind result_bind];
      [|discriminate].
    intros H. destruct (pawn_step_shift c pos s e e2 e' v v2 v' H1) as [e2' ->].
    cbn [mbind result_bind].
    destruct (IH e2 e2' v2 (score_add v' (score_sub v2 v)) H) as [e1' ->].
    exists e1'. f_equal. f_equal. destruct v, v', v1, v2. score_eq.
Qed.

(** The value after the loop does not depend on the order of the list. *)
Lemma pawn_loop_Permutation (c : Color) (pos : Position) (pl pl' : list Square) :
  Permutation pl pl' ->
  forall e e' v v1 e1,
    pawn_loop c pos pl (e, v) = Ok (e1, v1) ->
    exists e1', pawn_loop c pos pl' (e', v) = Ok (e1', v1).
Proof.
  induction 1 as [|x l l' Hperm IH|x y l|l l' l'' H1 IH1 H2 IH2]; intros e e' v v1 e1.
  - cbn. intros [= <- <-]. eauto.
  - cbn [pawn_loop].
    destruct (pawn_step c pos x (e, v)) as [[e2 v2]|] eqn:Hx; cbn [mbind result_bind];
      [|discriminate].
    intros H. destruct (pawn_step_shift c pos x e e2 e' v v2 v Hx) as [e2' Hx'].
    rewrite score_shift_id in Hx'. rewrite Hx'. cbn [mbind result_bind].
    apply (IH e2 e2' v2 v1 e1 H).
  - cbn [pawn_loop].
    destruct (pawn_step c pos y (e, v)) as [[ey vy]|] eqn:Hy; cbn [mbind result_bind];
      [|discriminate].
    destruct (pawn_step c pos x (ey, vy)) as [[ex vx]|] eqn:Hx; cbn [mbind result_bind];
      [|discriminate].
    intros H.
    destruct (pawn_step_shift c pos x ey ex e' vy vx v Hx) as [ex' Hx'].
    rewrite Hx'. cbn [mbind result_bind].
    destruct (pawn_step_shift c pos y e ey ex' v vy (score_add v (score_sub vx vy)) Hy)
      as [ey' Hy'].
    rewrite Hy'. cbn [mbind result_bind].
    destruct (pawn_loop_shift c pos l ex e1 ey' vx v1
                (score_add (score_add v (score_sub vx vy)) (score_sub vy v)) H) as [e1' H'].
    exists e1'. rewrite H'. f_equal. f_equal. destruct v, vx, vy, v1. score_eq.
  - intros H. destruct (IH1 e e' v v1 e1 H) as [e1' H']. apply (IH2 e' e' v v1 e1' H').
Qed.

(** *** Mirrors of a position *)

Lemma is_ok_spec (s : Square) : is_ok s = true <-> 0 <= s < 64.
Proof. unfold is_ok, SQ_A1, SQ_NONE. rewrite andb_true_iff, Z.leb_le, Z.ltb_lt. tauto. Qed.

Lemma same_squares_Permutation (l1 l2 : list Square) :
  same_squares l1 l2 = true -> Permutation l1 l2.
Proof.
  unfold same_squares. rewrite !andb_true_iff, !forallb_forall.
  intros [[H1 H2] Hc]. apply (Permutation_count_occ Z.eq_dec). intros x.
  destruct (Z_le_dec 0 x) as [H0|H0]; [destruct (Z_lt_dec x 64) as [H64|H64]|].
  - apply Nat.eqb_eq, Hc, squares_spec. lia.
  - assert (N1 : ~ In x l1) by (intros Hin; apply H1, is_ok_spec in Hin; lia).
    assert (N2 : ~ In x l2) by (intros Hin; apply H2, is_ok_spec in Hin; lia).
    apply (count_occ_not_In Z.eq_dec) in N1, N2. congruence.
  - assert (N1 : ~ In x l1) by (intros Hin; apply H1, is_ok_spec in Hin; lia).
    assert (N2 : ~ In x l2) by (intros Hin; apply H2, is_ok_spec in Hin; lia).
    apply (count_occ_not_In Z.eq_dec) in N1, N2. congruence.
Qed.

Lemma is_mirror_pieces (pos mpos : Position) (c : Color) :
  is_mirror pos mpos = true -> pieces mpos c = flip_bb (pieces pos (opp c)).
Proof.
  unfold is_mirror. rewrite !andb_true_iff, !Z.eqb_eq.
  intros [[[[[[Ht Hw] Hb] _] _] _] _]. unfold pieces. rewrite flip_bb_land, <- Ht.
  unfold pieces_c in Hw, Hb. destruct c; cbn [opp]; [rewrite Hw|rewrite Hb]; reflexivity.
Qed.

Lemma is_mirror_piece_on (pos mpos : Position) (c : Color) (s : Square) :
  is_mirror pos mpos = true -> 0 <= s < 64 ->
  piece_on pos s = make_piece c PAWN ->
  piece_on mpos (flip_sq s) = make_piece (opp c) PAWN.
Proof.
  unfold is_mirror. rewrite !andb_true_iff.
  intros [[[[_ Hboard] _] _] _] Hs Hp.
  pose proof (forallb_squares _ Hboard s Hs) as H. cbv beta in H.
  apply Z.eqb_eq in H. rewrite H, Hp. destruct c; reflexivity.
Qed.

Lemma is_mirror_list (pos mpos : Position) (c : Color) :
  is_mirror pos mpos = true ->
  Permutation (map flip_sq (list_PAWN pos c)) (list_PAWN mpos (opp c)).
Proof.
  unfold is_mirror. rewrite !andb_true_iff.
  intros [[[_ Hw] Hb] _]. apply Permutation_sym, same_squares_Permutation.
  destruct c; cbn [opp]; assumption.
Qed.

Lemma count_occ_refl (l : list Square) :
  forallb (fun s => (count_occ Z.eq_dec l s =? count_occ Z.eq_dec l s)%nat) squares = true.
Proof. apply forallb_forall. intros s _. apply Nat.eqb_refl. Qed.

(** The mirror built by [mirror] is one. *)
Lemma mirror_is_mirror (k : Key) (pos : Position) :
  wf_position pos = true -> is_mirror pos (mirror k pos) = true.
Proof.
  intros Hwf. unfold is_mirror.
  assert (Hlist : forall c, same_squares (map flip_sq (list_PAWN pos c))
                                         (map flip_sq (list_PAWN pos c)) = true).
  { intros c. unfold same_squares. rewrite count_occ_refl, andb_true_r, andb_diag.
    apply forallb_forall. intros s Hs. apply in_map_iff in Hs as (t & <- & Ht).
    apply is_ok_spec, flip_sq_range. eapply wf_position_squares; eauto. }
  rewrite !list_PAWN_mirror. cbn [opp]. rewrite !Hlist.
  change (byTypeBB_PAWN (mirror k pos)) with (flip_bb (byTypeBB_PAWN pos)).
  change (pieces_c (mirror k pos) WHITE) with (flip_bb (pieces_c pos BLACK)).
  change (pieces_c (mirror k pos) BLACK) with (flip_bb (pieces_c pos WHITE)).
  change (st_castlingRights (mirror k pos)) with (flip_castling (st_castlingRights pos)).
  rewrite !Z.eqb_refl. cbn [andb]. rewrite !andb_true_r.
  apply forallb_forall. intros s Hs. apply squares_spec in Hs.
  unfold piece_on at 1. cbn [mirror board]. rewrite nth_squares by (apply flip_sq_range, Hs).
  rewrite flip_sq_involutive. apply Z.eqb_refl.
Qed.

Lemma pawn_step_mirror (c : Color) (pos mpos : Position) (s : Square)
  (e e1 e' : Entry) (v v1 : Score) :
  wf_position pos = true -> is_mirror pos mpos = true -> 8 <= s < 56 ->
  pawn_step c pos s (e, v) = Ok (e1, v1) ->
  exists e1', pawn_step (opp c) mpos (flip_sq s) (e', v) = Ok (e1', v1).
Proof.
  intros Hwf Hm Hs H. apply pawn_step_Ok in H as (Hp & fl & Hfl & Hv & _).
  unfold pawn_step.
  rewrite (is_mirror_piece_on pos mpos c s) by (auto; lia). rewrite Z.eqb_refl. cbn [negb].
  rewrite !(is_mirror_pieces pos mpos) by exact Hm. rewrite opp_involutive.
  rewrite classify_mirror, Hfl by (auto using wf_position_pieces).
  cbn [result_map mbind result_bind].
  destruct (classify_is_bb _ _ _ _ _ (wf_position_pieces pos c Hwf) Hfl) as [Hc Hd].
  rewrite score_pawn_mirror, Hv by (auto; lia). cbn [mbind result_bind]. eauto.
Qed.

Lemma pawn_loop_mirror (c : Color) (pos mpos : Position) (pl : list Square)
  (e e1 e' : Entry) (v v1 : Score) :
  wf_position pos = true -> is_mirror pos mpos = true ->
  (forall s, In s pl -> 8 <= s < 56) ->
  pawn_loop c pos pl (e, v) = Ok (e1, v1) ->
  exists e1', pawn_loop (opp c) mpos (map flip_sq pl) (e', v) = Ok (e1', v1).
Proof.
  intros Hwf Hm. revert e e' v.
  induction pl as [|s pl IH]; intros e e' v Hpl; cbn [pawn_loop map].
  - intros [= <- <-]. eauto.
  - destruct (pawn_step c pos s (e, v)) as [[e2 v2]|] eqn:H1; cbn [mbind result_bind];
      [|discriminate].
    intros H.
    destruct (pawn_step_mirror c pos mpos s e e2 e' v v2 Hwf Hm) as [e2' ->]; auto.
    { apply Hpl. left. reflexivity. }
    cbn [mbind result_bind]. eapply IH; [|exact H].
    intros t Ht. apply Hpl. right. exact Ht.
Qed.

Lemma evaluate_mirror (c : Color) (pos mpos : Position) (e e1 e' : Entry) (v : Score) :
  wf_position pos = true -> is_mirror pos mpos = true ->
  evaluate c pos e = Ok (v, e1) ->
  exists e1', evaluate (opp c) mpos e' = Ok (v, e1').
Proof.
  intros Hwf Hm H.
  apply evaluate_Ok in H; [|apply wf_position_squares, Hwf].
  destruct H as (_ & _ & _ & _ & _ & e2 & Hloop).
  destruct (pawn_loop_mirror c pos mpos (list_PAWN pos c) (evaluate_init c pos e) e2
              (evaluate_init (opp c) mpos e') SCORE_ZERO v Hwf Hm) as [e2' Hloop'].
  { intros s Hs. apply (wf_position_list pos c s Hwf Hs). }
  { exact Hloop. }
  destruct (pawn_loop_Permutation (opp c) mpos _ _ (is_mirror_list pos mpos c Hm)
              _ (evaluate_init (opp c) mpos e') _ _ _ Hloop') as [e3 Hloop''].
  apply (evaluate_of_loop (opp c) mpos e' e3). exact Hloop''.
Qed.

Lemma repopulate_mirror (pos mpos : Position) (e e1 e' : Entry) :
  wf_position pos = true -> is_mirror pos mpos = true ->
  repopulate pos e = Ok e1 ->
  exists e1', repopulate mpos e' = Ok e1' /\ value e1' = score_neg (value e1).
Proof.
  intros Hwf Hm H. apply repopulate_Ok in H as (_ & w & b & ea & eb & Hw & Hb & ->).
  unfold repopulate.
  destruct (evaluate_mirror BLACK pos mpos ea eb (set_key (pawn_key mpos) e') b Hwf Hm Hb)
    as [ea' Hb'].
  cbn [opp] in Hb'. rewrite Hb'. cbn [mbind result_bind].
  destruct (evaluate_mirror WHITE pos mpos _ ea ea' w Hwf Hm Hw) as [eb' Hw'].
  cbn [opp] in Hw'. rewrite Hw'. cbn [mbind result_bind].
  eexists. split; [reflexivity|]. cbn. apply score_sub_swap.
Qed.

(** C7.  Let [mpos] be a colour-flipped mirror of a well-formed position
    [pos] (whatever the order of its pawn lists and its key), and let both
    miss in their tables.  Then both probes return, and the score stored for
    the mirror is the negation of the score stored for the position. *)
Theorem mirror_negates_the_pawn_score (pos mpos : Position) (entries entries' : Table) :
  wf_position pos = true -> is_mirror pos mpos = true ->
  is_miss pos entries = true -> is_miss mpos entries' = true ->
  exists i t e j t' e',
    probe pos entries = Ok (i, t) /\ table t !! i = Some e
    /\ probe mpos entries' = Ok (j, t') /\ table t' !! j = Some e'
    /\ value e' = score_neg (value e).
Proof.
  intros Hwf Hm Hmiss Hmiss'.
  destruct (probe_miss pos entries Hwf Hmiss) as (e0 & e & He0 & Hre & _).
  destruct (probe_repopulated pos entries e0 e He0 Hmiss Hre) as (t & Hp & Ht).
  assert (He0' : exists e0', table entries' !! slot entries' (pawn_key mpos) = Some e0').
  { unfold is_miss in Hmiss'. destruct (table entries' !! _) as [x|]; [eauto|discriminate]. }
  destruct He0' as [e0' He0'].
  destruct (repopulate_mirror pos mpos e0 e e0' Hwf Hm Hre) as (e' & Hre' & Hval).
  destruct (probe_repopulated mpos entries' e0' e' He0' Hmiss' Hre') as (t' & Hp' & Ht').
  exists (slot entries (pawn_key pos)), t, e, (slot entries' (pawn_key mpos)), t', e'.
  auto 10.
Qed.

Lemma mirror_negates_the_pawn_score_witness :
  exists i t e j t' e',
    probe (sample_position 5) (new_table 1024) = Ok (i, t) /\ table t !! i = Some e
    /\ probe (mirror 9 (sample_position 5)) (new_table 1024) = Ok (j, t')
    /\ table t' !! j = Some e'
    /\ value e' = score_neg (value e).
Proof.
  apply (mirror_negates_the_pawn_score (sample_position 5) (mirror 9 (sample_position 5))
           (new_table 1024) (new_table 1024)).
  - vm_compute; reflexivity.
  - vm_compute; reflexivity.
  - vm_compute; reflexivity.
  - vm_compute; reflexivity.
Defined.

(** * Further properties *)

(** ** The generator, draw by draw *)

Lemma u64_lxor (a b : Z) : u64 (Z.lxor a b) = Z.lxor (u64 a) (u64 b).
Proof.
  unfold u64. apply Z.bits_inj'. intros i Hi.
  rewrite !Z.lxor_spec, !Z.land_spec, !Z.lxor_spec.
  destruct (Z.testbit a i), (Z.testbit b i), (Z.testbit _ i); reflexivity.
Qed.

Lemma is_bb_lxor (a b : Z) : is_bb a = true -> is_bb b = true -> is_bb (Z.lxor a b) = true.
Proof.
  intros Ha Hb. apply is_bb_u64. apply is_bb_u64 in Ha, Hb.
  rewrite u64_lxor, Ha, Hb. reflexivity.
Qed.

(** [x ^ (x >> n)] keeps the highest set bit of [x]. *)
Lemma xorshift_right_nz (a n : Z) : 0 < a -> 0 < n -> Z.lxor a (Z.shiftr a n) <> 0.
Proof.
  intros Ha Hn E.
  assert (B : Z.testbit (Z.lxor a (Z.shiftr a n)) (Z.log2 a) = false)
    by (rewrite E; apply Z.bits_0).
  pose proof (Z.log2_nonneg a) as L.
  rewrite Z.lxor_spec, Z.bit_log2, Z.shiftr_spec in B by lia.
  rewrite Z.bits_above_log2 in B by lia. discriminate.
Qed.

(** [x ^ (x << n)], cut to 64 bits, keeps the lowest set bit of [x]. *)
Lemma xorshift_left_nz (a n : Z) :
  is_bb a = true -> a <> 0 -> 0 < n -> Z.lxor a (u64 (Z.shiftl a n)) <> 0.
Proof.
  intros Ha Hnz Hn E.
  destruct (lsb_defined a Ha (proj2 (nz_true a) Hnz)) as [i Hi].
  apply lsb_Some in Hi. destruct Hi as (Hb & Hr & Hlow).
  assert (B : Z.testbit (Z.lxor a (u64 (Z.shiftl a n))) i = false)
    by (rewrite E; apply Z.bits_0).
  rewrite Z.lxor_spec, Hb, u64_spec, Z.shiftl_spec in B by lia.
  destruct (Z.ltb_spec (i - n) 0) as [Hneg|Hpos].
  - rewrite Z.testbit_neg_r in B by lia. discriminate.
  - rewrite Hlow in B by lia. discriminate.
Qed.

Lemma rand64_xorshift (s : PRNG.t) :
  PRNG.rand64 s = (u64 (xorshift (PRNG.x s) * 2685821657736338717),
                   PRNG.mk (xorshift (PRNG.x s))).
Proof. reflexivity. Qed.

Lemma is_bb_pos (a : Z) : is_bb a = true -> a <> 0 -> 0 < a.
Proof. intros H N. apply is_bb_spec in H. lia. Qed.

Lemma xorshift_is_bb (a : Z) : is_bb a = true -> is_bb (xorshift a) = true.
Proof.
  intros Ha. unfold xorshift.
  assert (B1 : is_bb (Z.lxor a (Z.shiftr a 12)) = true)
    by (apply is_bb_lxor; [assumption|apply is_bb_shiftr; [assumption|lia]]).
  apply is_bb_lxor; [|apply is_bb_shiftr; [|lia]];
    (apply is_bb_lxor; [assumption|apply u64_is_bb]).
Qed.

Lemma xorshift_nz (a : Z) : is_bb a = true -> a <> 0 -> xorshift a <> 0.
Proof.
  intros Ha Hnz. unfold xorshift.
  set (x1 := Z.lxor a (Z.shiftr a 12)).
  assert (B1 : is_bb x1 = true)
    by (apply is_bb_lxor; [assumption|apply is_bb_shiftr; [assumption|lia]]).
  assert (N1 : x1 <> 0) by (apply xorshift_right_nz; [apply is_bb_pos; assumption|lia]).
  set (x2 := Z.lxor x1 (u64 (Z.shiftl x1 25))).
  assert (B2 : is_bb x2 = true) by (apply is_bb_lxor; [assumption|apply u64_is_bb]).
  assert (N2 : x2 <> 0) by (apply xorshift_left_nz; [assumption|assumption|lia]).
  apply xorshift_right_nz; [apply is_bb_pos; assumption|lia].
Qed.

Lemma lxor_swap (a b c d : Z) :
  Z.lxor (Z.lxor a b) (Z.lxor c d) = Z.lxor (Z.lxor a c) (Z.lxor b d).
Proof.
  apply Z.bits_inj'. intros i _. rewrite !Z.lxor_spec.
  destruct (Z.testbit a i), (Z.testbit b i), (Z.testbit c i), (Z.testbit d i); reflexivity.
Qed.

(** Each xor-shift commutes with the exclusive or of two states. *)
Lemma xorshift_right_lxor (n a b : Z) :
  Z.lxor (Z.lxor a b) (Z.shiftr (Z.lxor a b) n)
  = Z.lxor (Z.lxor a (Z.shiftr a n)) (Z.lxor b (Z.shiftr b n)).
Proof. rewrite Z.shiftr_lxor. apply lxor_swap. Qed.

Lemma xorshift_left_lxor (n a b : Z) :
  Z.lxor (Z.lxor a b) (u64 (Z.shiftl (Z.lxor a b) n))
  = Z.lxor (Z.lxor a (u64 (Z.shiftl a n))) (Z.lxor b (u64 (Z.shiftl b n))).
Proof. rewrite Z.shiftl_lxor, u64_lxor. apply lxor_swap. Qed.

Lemma xorshift_lxor (a b : Z) : xorshift (Z.lxor a b) = Z.lxor (xorshift a) (xorshift b).
Proof.
  unfold xorshift. cbv zeta.
  rewrite (xorshift_right_lxor 12 a b), xorshift_left_lxor, xorshift_right_lxor.
  reflexivity.
Qed.

Lemma xorshift_inj (a b : Z) :
  is_bb a = true -> is_bb b = true -> xorshift a = xorshift b -> a = b.
Proof.
  intros Ha Hb E. apply Z.lxor_eq.
  destruct (Z.eq_dec (Z.lxor a b) 0) as [|N]; [assumption|exfalso].
  apply (xorshift_nz (Z.lxor a b)); [apply is_bb_lxor; assumption|exact N|].
  rewrite xorshift_lxor, E. apply Z.lxor_nilpotent.
Qed.

(** The multiplier of [rand64] is odd: multiplying by it loses nothing
    modulo 2^64. *)
Lemma multiplier_rel_prime : Z.gcd (2 ^ 64) 2685821657736338717 = 1.
Proof. vm_compute. reflexivity. Qed.

Lemma star_inj (a b : Z) :
  is_bb a = true -> is_bb b = true ->
  u64 (a * 2685821657736338717) = u64 (b * 2685821657736338717) -> a = b.
Proof.
  intros Ha Hb E. apply is_bb_spec in Ha, Hb. rewrite !u64_mod in E.
  assert (D : (2 ^ 64 | (a - b) * 2685821657736338717)).
  { apply Z.mod_divide; [lia|].
    rewrite Z.mul_sub_distr_r, Zminus_mod, E, Z.sub_diag. reflexivity. }
  rewrite Z.mul_comm in D. apply Z.gauss in D; [|exact multiplier_rel_prime].
  destruct D as [q Hq]. nia.
Qed.

Lemma live_spec (s : PRNG.t) : live s = true <-> is_bb (PRNG.x s) = true /\ PRNG.x s <> 0.
Proof. unfold live. rewrite andb_true_iff, nz_true. tauto. Qed.

Lemma rand64_live (s : PRNG.t) :
  live s = true ->
  live (snd (PRNG.rand64 s)) = true
  /\ is_bb (fst (PRNG.rand64 s)) = true /\ fst (PRNG.rand64 s) <> 0.
Proof.
  rewrite live_spec. intros [Hb Hn]. rewrite rand64_xorshift. cbn [fst snd].
  pose proof (xorshift_is_bb _ Hb) as Hb'. pose proof (xorshift_nz _ Hb Hn) as Hn'.
  split; [apply live_spec; cbn; tauto|]. split; [apply u64_is_bb|].
  intros E. apply Hn'. apply star_inj; [exact Hb'|reflexivity|].
  rewrite E. reflexivity.
Qed.

(** X1.  The state of the generator never becomes zero: the constructor
    accepts a 64-bit seed only if it is not zero, and a draw of [rand64] (or
    of [rand]) from a non-zero 64-bit state leaves a non-zero 64-bit state
    and returns a non-zero 64-bit value. *)
Theorem rand64_keeps_the_state_alive :
  (forall seed s, is_bb seed = true -> PRNG.PRNG seed = Ok s -> live s = true)
  /\ (forall s v s', live s = true -> PRNG.rand64 s = (v, s') ->
        live s' = true /\ is_bb v = true /\ v <> 0)
  /\ (forall s v s', live s = true -> PRNG.rand s = (v, s') ->
        live s' = true /\ is_bb v = true /\ v <> 0).
Proof.
  assert (R : forall s v s', live s = true -> PRNG.rand64 s = (v, s') ->
                live s' = true /\ is_bb v = true /\ v <> 0).
  { intros s v s' L E. pose proof (rand64_live s L) as H. rewrite E in H. exact H. }
  split; [|split; [exact R|exact R]].
  intros seed s Hb E. unfold PRNG.PRNG in E.
  destruct (nz seed) eqn:N; [|discriminate].
  injection E as <-. unfold live. cbn. rewrite Hb, N. reflexivity.
Qed.

Lemma rand64_keeps_the_state_alive_witness :
  live (PRNG.mk 1070372) = true
  /\ (live (snd (PRNG.rand64 (PRNG.mk 1070372))) = true
      /\ is_bb (fst (PRNG.rand64 (PRNG.mk 1070372))) = true
      /\ fst (PRNG.rand64 (PRNG.mk 1070372)) <> 0).
Proof.
  split.
  - apply (proj1 rand64_keeps_the_state_alive 1070372); reflexivity.
  - apply (proj1 (proj2 rand64_keeps_the_state_alive) (PRNG.mk 1070372));
      [reflexivity|vm_compute; reflexivity].
Defined.

(** X2.  [rand64] merges no two states: two non-zero 64-bit states that
    lead to the same next state, or that return the same value, are equal. *)
Theorem rand64_is_injective (s1 s2 : PRNG.t) :
  live s1 = true -> live s2 = true ->
  (snd (PRNG.rand64 s1) = snd (PRNG.rand64 s2) -> s1 = s2)
  /\ (fst (PRNG.rand64 s1) = fst (PRNG.rand64 s2) -> s1 = s2).
Proof.
  rewrite !live_spec. intros [B1 _] [B2 _]. rewrite !rand64_xorshift. cbn [fst snd].
  assert (X : xorshift (PRNG.x s1) = xorshift (PRNG.x s2) -> s1 = s2).
  { intros E. apply xorshift_inj in E; [|assumption|assumption].
    destruct s1, s2. cbn in E. congruence. }
  split; intros E.
  - apply X. congruence.
  - apply X. apply star_inj; [apply xorshift_is_bb; assumption..|exact E].
Qed.

Lemma rand64_is_injective_witness :
  fst (PRNG.rand64 (PRNG.mk 1)) <> fst (PRNG.rand64 (PRNG.mk 2)).
Proof.
  intros E.
  pose proof (proj2 (rand64_is_injective (PRNG.mk 1) (PRNG.mk 2) eq_refl eq_refl) E) as H.
  discriminate H.
Defined.

(** X3.  [sparse_rand] makes three draws of [rand64]: from a non-zero 64-bit
    state it leaves the state three draws further, again non-zero, and its
    value is the bitwise and of the three values drawn, so every bit of it
    is a bit of each of them. *)
Theorem sparse_rand_draws_three_times (s s1 s2 s3 : PRNG.t) (a b c : Z) :
  live s = true ->
  PRNG.rand64 s = (a, s1) -> PRNG.rand64 s1 = (b, s2) -> PRNG.rand64 s2 = (c, s3) ->
  PRNG.sparse_rand s = (Z.land (Z.land a b) c, s3)
  /\ live s3 = true
  /\ is_bb (Z.land (Z.land a b) c) = true
  /\ forall i, Z.testbit (Z.land (Z.land a b) c) i = true ->
       Z.testbit a i = true /\ Z.testbit b i = true /\ Z.testbit c i = true.
Proof.
  intros L E1 E2 E3.
  destruct (rand64_live s L) as (L1 & _). rewrite E1 in L1. cbn [snd] in L1.
  destruct (rand64_live s1 L1) as (L2 & _). rewrite E2 in L2. cbn [snd] in L2.
  destruct (rand64_live s2 L2) as (L3 & B3 & _). rewrite E3 in L3, B3. cbn [fst snd] in L3, B3.
  split; [unfold PRNG.sparse_rand; rewrite E1, E2, E3; reflexivity|].
  split; [exact L3|]. split; [apply is_bb_land_r; exact B3|].
  intros i Hi. rewrite !Z.land_spec, !andb_true_iff in Hi. tauto.
Qed.

Lemma sparse_rand_draws_three_times_witness :
  live (snd (PRNG.sparse_rand (PRNG.mk 1070372))) = true.
Proof.
  destruct (PRNG.rand64 (PRNG.mk 1070372)) as [a s1] eqn:E1.
  destruct (PRNG.rand64 s1) as [b s2] eqn:E2.
  destruct (PRNG.rand64 s2) as [c s3] eqn:E3.
  destruct (sparse_rand_draws_three_times (PRNG.mk 1070372) s1 s2 s3 a b c eq_refl E1 E2 E3)
    as (E & L & _).
  rewrite E. exact L.
Defined.

(** ** The table of [init] *)

(** X4.  The connected-pawn bonus that [init] computes, for a rank of the
    board: it is zero on the ranks 1 and 8, which the loop does not visit;
    it is never negative and at most (98, 196); its midgame term does not
    depend on [opposed] and is half the unopposed endgame term; being opposed
    halves the endgame term. *)
Theorem Connected_bonus_shape (opposed phalanx : bool) (r : Rank) :
  RANK_1 <= r <= RANK_8 ->
  (r = RANK_1 \/ r = RANK_8 -> Connected opposed phalanx r = SCORE_ZERO)
  /\ 0 <= mg_value (Connected opposed phalanx r) <= 98
  /\ 0 <= eg_value (Connected opposed phalanx r) <= 196
  /\ mg_value (Connected opposed phalanx r) = eg_value (Connected false phalanx r) / 2
  /\ eg_value (Connected true phalanx r) = eg_value (Connected false phalanx r) / 2.
Proof.
  unfold RANK_1, RANK_8. intros Hr.
  assert (C : r = 0 \/ r = 1 \/ r = 2 \/ r = 3 \/ r = 4 \/ r = 5 \/ r = 6 \/ r = 7) by lia.
  destruct opposed, phalanx;
    repeat (destruct C as [->|C]); try subst r;
    (split; [intros [E|E]; try discriminate E; reflexivity|]);
    vm_compute; repeat split; congruence.
Qed.

Lemma Connected_bonus_shape_witness :
  Connected true true RANK_8 = SCORE_ZERO
  /\ eg_value (Connected true true 5) = eg_value (Connected false true 5) / 2.
Proof.
  split.
  - apply (Connected_bonus_shape true true RANK_8); [vm_compute; split; discriminate|].
    right. reflexivity.
  - apply (Connected_bonus_shape true true 5). vm_compute. split; discriminate.
Defined.

(** ** The flags of one pawn, one against the other *)

Lemma land_sub_0 (a m m' : Z) :
  (forall i, Z.testbit m' i = true -> Z.testbit m i = true) ->
  Z.land a m = 0 -> Z.land a m' = 0.
Proof.
  intros S E. apply Z.bits_inj_0. intros i.
  assert (B : Z.testbit (Z.land a m) i = false) by (rewrite E; apply Z.bits_0).
  rewrite Z.land_spec in *. destruct (Z.testbit a i); [|reflexivity].
  destruct (Z.testbit m' i) eqn:M; [|reflexivity].
  rewrite (S i M) in B. discriminate.
Qed.

Lemma nz_land_sub (a m m' : Z) :
  (forall i, Z.testbit m' i = true -> Z.testbit m i = true) ->
  nz (Z.land a m') = true -> nz (Z.land a m) = true.
Proof.
  intros S H. apply nz_true. intros E. apply nz_true in H. apply H.
  exact (land_sub_0 a m m' S E).
Qed.

(** X5.  How the support flags hang together: a supported pawn is connected,
    so never isolated nor backward; a pawn in a phalanx is connected; an
    isolated pawn is unsupported; a backward pawn is unsupported and is
    neither passed nor a lever. *)
Theorem support_flags_are_consistent (Us : Color) (ours theirs : Bitboard) (s : Square)
  (fl : PawnFlags) :
  classify Us ours theirs s = Ok fl ->
  (unsupported fl = false ->
   nz (connected fl) = true /\ isolated fl = false /\ backward fl = false)
  /\ (phalanx fl = true -> nz (connected fl) = true)
  /\ (isolated fl = true -> unsupported fl = true /\ phalanx fl = false)
  /\ (backward fl = true ->
      unsupported fl = true /\ passed fl = false /\ lever fl = false).
Proof.
  intros H. apply classify_Ok in H. cbv zeta in H.
  destruct H as (Hc & Hph & Hu & Hi & _ & _ & _ & _ & Hb & _).
  set (adj := Z.land ours (adjacent_files_bb (file_of s))) in *.
  set (p := rank_bb_sq (s - pawn_push Us)) in *.
  assert (S1 : unsupported fl = false -> nz (connected fl) = true).
  { intros U. rewrite Hu, negb_false_iff in U. rewrite Hc.
    revert U. apply nz_land_sub. intros i B. rewrite Z.lor_spec, B. apply orb_true_r. }
  assert (S2 : nz (connected fl) = true -> isolated fl = false).
  { intros C. rewrite Hi, negb_false_iff. rewrite Hc in C.
    destruct (nz adj) eqn:A; [reflexivity|].
    rewrite (nz_land_0_l _ _ A) in C. discriminate. }
  assert (S3 : nz (connected fl) = true -> backward fl = false).
  { intros C. destruct (backward fl); [|reflexivity].
    destruct (Hb eq_refl) as (_ & _ & C' & _). congruence. }
  assert (S4 : phalanx fl = true -> nz (connected fl) = true).
  { intros P. rewrite Hph in P. destruct (nz (connected fl)) eqn:C; [reflexivity|].
    rewrite (nz_land_0_l _ _ C) in P. discriminate. }
  split; [|split; [exact S4|split]].
  - intros U. pose proof (S1 U) as C. auto.
  - intros I. split.
    + destruct (unsupported fl) eqn:U; [reflexivity|].
      rewrite (S2 (S1 eq_refl)) in I. discriminate.
    + destruct (phalanx fl) eqn:P; [|reflexivity].
      rewrite (S2 (S4 eq_refl)) in I. discriminate.
  - intros B. destruct (Hb B) as (P & _ & C & _ & L).
    split; [|split; assumption].
    destruct (unsupported fl) eqn:U; [reflexivity|].
    rewrite (S1 eq_refl) in C. discriminate.
Qed.

Lemma support_flags_are_consistent_witness :
  exists fl,
    classify WHITE (Z.lor (SquareBB 8) (SquareBB 17)) 0 17 = Ok fl
    /\ unsupported fl = false /\ nz (connected fl) = true.
Proof.
  destruct (classify WHITE (Z.lor (SquareBB 8) (SquareBB 17)) 0 17) as [fl|] eqn:E;
    [|vm_compute in E; discriminate].
  exists fl. split; [reflexivity|].
  assert (U : unsupported fl = false) by (vm_compute in E; injection E as <-; reflexivity).
  split; [exact U|].
  exact (proj1 (proj1 (support_flags_are_consistent _ _ _ _ _ E) U)).
Defined.

(** X6.  A passed pawn is neither opposed nor a lever, and a lever is not
    backward: the squares a pawn attacks and the squares ahead on its file
    all lie in its passed-pawn mask. *)
Theorem passed_pawn_meets_no_enemy (Us : Color) (ours theirs : Bitboard) (s : Square)
  (fl : PawnFlags) :
  0 <= s < 64 ->
  classify Us ours theirs s = Ok fl ->
  (passed fl = true -> opposed fl = false /\ lever fl = false)
  /\ (lever fl = true -> passed fl = false /\ backward fl = false).
Proof.
  intros Hs H. apply classify_Ok in H. cbv zeta in H.
  destruct H as (_ & _ & _ & _ & _ & Ho & Hp & Hl & Hb & _).
  destruct (passed_pawn_mask_spec Us s Hs) as [Bm Mm].
  destruct (forward_bb_spec Us s Hs) as [Bf Mf].
  destruct (pawn_attacks_bb_spec Us s Hs) as [Ba Ma].
  assert (F : opposed fl = true -> passed fl = false).
  { rewrite Ho, Hp, negb_false_iff, !nz_land_squares by assumption.
    rewrite !some_pawn_true. intros (t & Ht & B & M). exists t. split; [exact Ht|].
    split; [exact B|]. rewrite Mm by exact Ht. rewrite Mf in M by exact Ht.
    apply andb_true_iff in M. destruct M as [M1 M2]. rewrite M1, M2. reflexivity. }
  assert (L : lever fl = true -> passed fl = false).
  { rewrite Hl, Hp, negb_false_iff, !nz_land_squares by assumption.
    rewrite !some_pawn_true. intros (t & Ht & B & M). exists t. split; [exact Ht|].
    split; [exact B|]. rewrite Mm by exact Ht. rewrite Ma in M by exact Ht.
    apply andb_true_iff in M. destruct M as [M1 M2]. rewrite M1, orb_true_r.
    apply Z.eqb_eq in M2. unfold ahead. destruct Us; cbn in M2; apply Z.ltb_lt; lia. }
  split.
  - intros P. split.
    + destruct (opposed fl); [|reflexivity]. rewrite (F eq_refl) in P. discriminate.
    + destruct (lever fl); [|reflexivity]. rewrite (L eq_refl) in P. discriminate.
  - intros V. split; [exact (L V)|].
    destruct (backward fl); [|reflexivity].
    destruct (Hb eq_refl) as (_ & _ & _ & _ & V'). congruence.
Qed.

Lemma passed_pawn_meets_no_enemy_witness :
  exists fl,
    classify WHITE (SquareBB 27) (SquareBB 36) 27 = Ok fl
    /\ lever fl = true /\ passed fl = false /\ backward fl = false.
Proof.
  destruct (classify WHITE (SquareBB 27) (SquareBB 36) 27) as [fl|] eqn:E;
    [|vm_compute in E; discriminate].
  exists fl. split; [reflexivity|].
  assert (V : lever fl = true) by (vm_compute in E; injection E as <-; reflexivity).
  split; [exact V|].
  assert (R : 0 <= 27 < 64) by lia.
  exact (proj2 (passed_pawn_meets_no_enemy _ _ _ _ _ R E) V).
Defined.

(** ** The flags of one pawn, read on the board *)

Lemma previous_rank_spec (c : Color) (s : Square) :
  8 <= s < 56 ->
  is_bb (rank_bb_sq (s - pawn_push c)) = true
  /\ forall t, 0 <= t < 64 ->
       Z.testbit (rank_bb_sq (s - pawn_push c)) t = one_rank_behind c s t.
Proof.
  intros Hs.
  assert (R : 0 <= s - pawn_push c < 64) by (destruct c; unfold pawn_push, DELTA_N, DELTA_S; lia).
  destruct (rank_bb_sq_spec _ R) as [B M]. split; [exact B|].
  intros t Ht. rewrite (M t Ht). unfold same_rank, one_rank_behind.
  assert (E : rank_of (s - pawn_push c) = rank_of s - (1 - 2 * color_index c)).
  { destruct c; cbn [pawn_push color_index]; unfold DELTA_N, DELTA_S.
    - pose proof (rank_of_add8 (s - 8)) as A.
      replace (s - 8 + 8) with s in A by lia. lia.
    - pose proof (rank_of_add8 s) as A.
      replace (s - -8) with (s + 8) by lia. lia. }
  rewrite E. apply Z.eqb_sym.
Qed.

(** X7.  What the flags say of the board, for a pawn on the ranks 2 to 7:
    isolated, no own pawn on an adjacent file; unsupported, none of them on
    the rank behind; phalanx, one on the same rank; connected, one on the same
    rank or on the rank behind; opposed, an enemy pawn ahead on the file;
    lever, an enemy pawn on one of the two squares the pawn attacks; doubled,
    an own pawn ahead on the file; passed, no enemy pawn ahead on the file or
    on an adjacent file. *)
Theorem flags_read_the_board (Us : Color) (ours theirs : Bitboard) (s : Square)
  (fl : PawnFlags) :
  8 <= s < 56 ->
  classify Us ours theirs s = Ok fl ->
  isolated fl = negb (some_pawn ours (adjacent_file s))
  /\ unsupported fl
     = negb (some_pawn ours (fun t => adjacent_file s t && one_rank_behind Us s t))
  /\ phalanx fl = some_pawn ours (fun t => adjacent_file s t && same_rank s t)
  /\ nz (connected fl)
     = some_pawn ours
         (fun t => adjacent_file s t && (same_rank s t || one_rank_behind Us s t))
  /\ opposed fl = some_pawn theirs (fun t => same_file s t && ahead Us s t)
  /\ lever fl = some_pawn theirs (fun t => adjacent_file s t && one_rank_ahead Us s t)
  /\ nz (doubled fl) = is_doubled Us ours s
  /\ passed fl = is_passed Us theirs s.
Proof.
  intros Hs8 H. assert (Hs : 0 <= s < 64) by lia.
  apply classify_Ok in H. cbv zeta in H.
  destruct H as (Hc & Hph & Hu & Hi & Hd & Ho & Hp & Hl & _).
  destruct (adjacent_files_bb_spec s Hs) as [Ba Ma].
  destruct (rank_bb_sq_spec s Hs) as [Br Mr].
  destruct (previous_rank_spec Us s Hs8) as [Bp Mp].
  destruct (forward_bb_spec Us s Hs) as [Bf Mf].
  destruct (passed_pawn_mask_spec Us s Hs) as [Bm Mm].
  destruct (pawn_attacks_bb_spec Us s Hs) as [Bk Mk].
  repeat split.
  - rewrite Hi, nz_land_squares by exact Ba. f_equal. apply some_pawn_ext. exact Ma.
  - rewrite Hu, <- Z.land_assoc, nz_land_squares by (apply is_bb_land_r; exact Bp).
    f_equal. apply some_pawn_ext. intros t Ht. rewrite Z.land_spec, Ma, Mp by exact Ht.
    reflexivity.
  - rewrite Hph, Hc, <- !Z.land_assoc, nz_land_squares
      by (apply is_bb_land_r, is_bb_land_r; exact Br).
    apply some_pawn_ext. intros t Ht.
    rewrite !Z.land_spec, Z.lor_spec, Ma, Mr, Mp by exact Ht.
    destruct (adjacent_file s t), (same_rank s t), (one_rank_behind Us s t); reflexivity.
  - rewrite Hc, <- Z.land_assoc, nz_land_squares
      by (apply is_bb_land_r, is_bb_lor; assumption).
    apply some_pawn_ext. intros t Ht.
    rewrite Z.land_spec, Z.lor_spec, Ma, Mr, Mp by exact Ht. reflexivity.
  - rewrite Ho, nz_land_squares by exact Bf. apply some_pawn_ext. exact Mf.
  - rewrite Hl, nz_land_squares by exact Bk. apply some_pawn_ext. exact Mk.
  - rewrite Hd, nz_land_squares by exact Bf. apply some_pawn_ext. exact Mf.
  - rewrite Hp, nz_land_squares by exact Bm. unfold is_passed. f_equal.
    apply some_pawn_ext. exact Mm.
Qed.

Lemma flags_read_the_board_witness :
  exists fl,
    classify WHITE (Z.lor (SquareBB 8) (SquareBB 17)) (SquareBB 49) 17 = Ok fl
    /\ opposed fl = some_pawn (SquareBB 49) (fun t => same_file 17 t && ahead WHITE 17 t).
Proof.
  destruct (classify WHITE (Z.lor (SquareBB 8) (SquareBB 17)) (SquareBB 49) 17)
    as [fl|] eqn:E; [|vm_compute in E; discriminate].
  exists fl. split; [reflexivity|].
  assert (R : 8 <= 17 < 56) by lia.
  apply (flags_read_the_board _ _ _ _ _ R E).
Defined.

(** ** The backward pawn *)

(** The test for the backward pawn, as [classify] runs it. *)
Lemma classify_backward (Us : Color) (ours theirs : Bitboard) (s : Square)
  (fl : PawnFlags) :
  classify Us ours theirs s = Ok fl ->
  (if passed fl || isolated fl || nz (connected fl)
      || nz (Z.land ours (pawn_attack_span (opp Us) s))
      || lever fl
   then Ok false
   else
     sq ← of_option EmptyScan
            (backmost_sq Us (Z.land (pawn_attack_span Us s) (Z.lor ours theirs)));
     let b := Z.land (pawn_attack_span Us s) (rank_bb_sq sq) in
     Ok (nz (Z.land (Z.lor b (shift_bb (pawn_push Us) b)) theirs)))
  = Ok (backward fl).
Proof.
  unfold classify. cbv zeta. rewrite !nz_lor, !nz_b2z, (asserted_flags Us theirs s).
  rewrite (Z.land_comm (pawn_attacks_bb Us s) theirs).
  match goal with
  | |- (?r ≫= _) = _ -> _ => destruct r as [bw|] eqn:B
  end; cbn [mbind result_bind]; [|discriminate].
  intros [= <-]. cbn [passed isolated connected lever backward]. exact B.
Qed.

Lemma stop_squares (c : Color) (s sq : Square) :
  0 <= s < 64 -> 0 <= sq < 64 -> ahead c s sq = true ->
  let b := Z.land (pawn_attack_span c s) (rank_bb_sq sq) in
  is_bb (Z.lor b (shift_bb (pawn_push c) b)) = true
  /\ forall u, 0 <= u < 64 ->
       Z.testbit (Z.lor b (shift_bb (pawn_push c) b)) u
       = adjacent_file s u && (same_rank sq u || one_rank_ahead c sq u).
Proof.
  intros Hs Hq Ha. cbv zeta.
  assert (K : forallb (fun s => forallb (fun sq =>
                implb (ahead c s sq)
                  (let b := Z.land (pawn_attack_span c s) (rank_bb_sq sq) in
                   is_bb (Z.lor b (shift_bb (pawn_push c) b))
                   && forallb (fun u =>
                        eqb (Z.testbit (Z.lor b (shift_bb (pawn_push c) b)) u)
                            (adjacent_file s u && (same_rank sq u || one_rank_ahead c sq u)))
                        squares)) squares) squares = true)
    by (destruct c; vm_compute; reflexivity).
  pose proof (forallb_squares _ K s Hs) as K1. cbv beta in K1.
  pose proof (forallb_squares _ K1 sq Hq) as K2. cbv beta zeta in K2.
  rewrite Ha in K2. cbn [implb] in K2. apply andb_true_iff in K2 as [B M].
  split; [exact B|]. intros u Hu.
  pose proof (forallb_squares _ M u Hu) as M1. cbv beta in M1. apply eqb_prop, M1.
Qed.

Lemma backmost_is_rearmost (c : Color) (b : Bitboard) (sq t : Square) :
  backmost_sq c b = Some sq -> 0 <= t < 64 -> Z.testbit b t = true ->
  ahead c sq t = true \/ same_rank sq t = true.
Proof.
  intros H Ht B. unfold ahead, same_rank. destruct c; cbn [backmost_sq] in H.
  - apply lsb_Some in H. destruct H as (_ & Hq & Low).
    assert (L : sq <= t).
    { destruct (Z_le_gt_dec sq t) as [|G]; [assumption|].
      rewrite (Low t) in B by lia. discriminate. }
    pose proof (rank_of_mono sq t L).
    destruct (Z.eq_dec (rank_of sq) (rank_of t)) as [E|N].
    + right. apply Z.eqb_eq, E.
    + left. apply Z.ltb_lt. lia.
  - apply msb_Some in H. destruct H as (_ & Hq & High).
    assert (L : t <= sq).
    { destruct (Z_le_gt_dec t sq) as [|G]; [assumption|].
      rewrite (High t) in B by lia. discriminate. }
    pose proof (rank_of_mono t sq L).
    destruct (Z.eq_dec (rank_of sq) (rank_of t)) as [E|N].
    + right. apply Z.eqb_eq, E.
    + left. apply Z.ltb_lt. lia.
Qed.

(** X8.  The backward pawn, read on the board, for a pawn on the ranks 2
    to 7.  A pawn that is passed, isolated, connected or a lever, or that has
    an own pawn behind it on an adjacent file, is not backward.  Otherwise
    some pawn stands ahead of it on an adjacent file; with [t] the rearmost
    of these, the pawn is backward exactly when an enemy pawn stands on an
    adjacent file on the rank of [t] or on the rank after it. *)
Theorem backward_reads_the_board (Us : Color) (ours theirs : Bitboard) (s : Square)
  (fl : PawnFlags) :
  8 <= s < 56 ->
  classify Us ours theirs s = Ok fl ->
  let behind := some_pawn ours (fun t => adjacent_file s t && ahead (opp Us) s t) in
  (passed fl || isolated fl || nz (connected fl) || lever fl || behind = true ->
   backward fl = false)
  /\ (passed fl || isolated fl || nz (connected fl) || lever fl || behind = false ->
      exists t,
        0 <= t < 64
        /\ pawn_ahead_beside Us (Z.lor ours theirs) s t = true
        /\ (forall t', 0 <= t' < 64 ->
              pawn_ahead_beside Us (Z.lor ours theirs) s t' = true ->
              ahead Us t t' = true \/ same_rank t t' = true)
        /\ backward fl
           = some_pawn theirs
               (fun u => adjacent_file s u && (same_rank t u || one_rank_ahead Us t u))).
Proof.
  intros Hs8 H behind. assert (Hs : 0 <= s < 64) by lia.
  pose proof (classify_backward _ _ _ _ _ H) as Hb.
  destruct (pawn_attack_span_spec (opp Us) s Hs) as [Bt Mt].
  destruct (pawn_attack_span_spec Us s Hs) as [Bu Mu].
  assert (G : nz (Z.land ours (pawn_attack_span (opp Us) s)) = behind).
  { rewrite nz_land_squares by exact Bt. apply some_pawn_ext. exact Mt. }
  rewrite G in Hb.
  assert (R : passed fl || isolated fl || nz (connected fl) || behind || lever fl
              = passed fl || isolated fl || nz (connected fl) || lever fl || behind).
  { destruct (passed fl), (isolated fl), (nz (connected fl)), behind, (lever fl);
      reflexivity. }
  rewrite R in Hb. clear R. split; intros E; rewrite E in Hb.
  - injection Hb as <-. reflexivity.
  - destruct (backmost_sq Us (Z.land (pawn_attack_span Us s) (Z.lor ours theirs)))
      as [sq|] eqn:Q; cbn [of_option mbind result_bind] in Hb; [|discriminate].
    cbv zeta in Hb. injection Hb as Hb.
    destruct (backmost_sq_Some _ _ _ Q) as [Hq Bq].
    rewrite Z.land_spec, (Mu sq Hq) in Bq. apply andb_true_iff in Bq as [Sq Pq].
    apply andb_true_iff in Sq as [Adj Ah].
    exists sq. split; [exact Hq|]. split; [|split].
    + unfold pawn_ahead_beside. rewrite Pq, Adj, Ah. reflexivity.
    + intros t' Ht' P'. unfold pawn_ahead_beside in P'.
      apply andb_true_iff in P' as [P' Ah']. apply andb_true_iff in P' as [P' Adj'].
      apply (backmost_is_rearmost Us _ sq t' Q Ht').
      rewrite Z.land_spec, (Mu t' Ht'), P', Adj', Ah'. reflexivity.
    + destruct (stop_squares Us s sq Hs Hq Ah) as [Bs Ms]. cbv zeta in Bs, Ms.
      rewrite <- Hb, Z.land_comm, nz_land_squares by exact Bs.
      apply some_pawn_ext. exact Ms.
Qed.

Lemma backward_reads_the_board_witness :
  exists fl,
    classify WHITE (Z.lor (SquareBB 12) (SquareBB 27)) (SquareBB 36) 12 = Ok fl
    /\ backward fl = false.
Proof.
  destruct (classify WHITE (Z.lor (SquareBB 12) (SquareBB 27)) (SquareBB 36) 12)
    as [fl|] eqn:E; [|vm_compute in E; discriminate].
  exists fl. split; [reflexivity|].
  assert (R : 8 <= 12 < 56) by lia.
  destruct (proj2 (backward_reads_the_board _ _ _ _ _ R E)) as (t & _ & _ & _ & B).
  - vm_compute in E. injection E as <-. vm_compute. reflexivity.
  - vm_compute in E. injection E as <-. reflexivity.
Defined.

(** ** The score of one pawn, within bounds *)

Lemma penalty_ranges (o : bool) (f : File) :
  0 <= f < 8 ->
  (0 <= mg_value (at_S (Isolated o) f) <= 60 /\ 0 <= eg_value (at_S (Isolated o) f) <= 52)
  /\ (0 <= mg_value (at_S (Backward o) f) <= 49 /\ 0 <= eg_value (at_S (Backward o) f) <= 46)
  /\ (0 <= mg_value (at_S Doubled f) <= 23 /\ 0 <= eg_value (at_S Doubled f) <= 48).
Proof.
  intros Hf.
  assert (C : f = 0 \/ f = 1 \/ f = 2 \/ f = 3 \/ f = 4 \/ f = 5 \/ f = 6 \/ f = 7) by lia.
  destruct o; repeat (destruct C as [->|C]); try subst f; vm_compute;
    repeat split; congruence.
Qed.

(** The two bonuses are read at the same rank: the lever bonus is paid on
    the ranks 5 and 6, the largest connected bonus on rank 7. *)
Lemma bonus_ranges (o p : bool) (r : Rank) :
  (0 <= mg_value (Connected o p r) /\ 0 <= eg_value (Connected o p r))
  /\ (0 <= mg_value (at_S Lever r) /\ 0 <= eg_value (at_S Lever r))
  /\ mg_value (Connected o p r) + mg_value (at_S Lever r) <= 98
  /\ eg_value (Connected o p r) + eg_value (at_S Lever r) <= 196.
Proof.
  unfold Connected, init.
  destruct (Z.leb_spec RANK_2 r) as [Lo|Lo]; destruct (Z.ltb_spec r RANK_8) as [U|U];
    cbn [andb]; unfold RANK_2, RANK_8 in *.
  - assert (C : r = 1 \/ r = 2 \/ r = 3 \/ r = 4 \/ r = 5 \/ r = 6) by lia.
    destruct o, p; repeat (destruct C as [->|C]); try subst r; vm_compute;
      repeat split; congruence.
  - assert (E : at_S Lever r = SCORE_ZERO).
    { unfold at_S. assert (N : (7 <= Z.to_nat r)%nat) by lia.
      destruct (Z.to_nat r) as [|[|[|[|[|[|[|[|n]]]]]]]]; try lia; [reflexivity|].
      destruct n; reflexivity. }
    rewrite E. cbn. lia.
  - assert (E : at_S Lever r = SCORE_ZERO).
    { unfold at_S. destruct (Z.to_nat r) as [|[|n]] eqn:N; [reflexivity|reflexivity|lia]. }
    rewrite E. cbn. lia.
  - lia.
Qed.

Lemma quot_range (a d : Z) : 0 <= a -> 1 <= d -> 0 <= Z.quot a d <= a.
Proof.
  intros Ha Hd. rewrite Z.quot_div_nonneg by lia. split; [apply Z.div_pos; lia|].
  apply Z.div_le_upper_bound; [lia|]. nia.
Qed.

Lemma flags_consistent (Us : Color) (ours theirs : Bitboard) (s : Square) (fl : PawnFlags) :
  classify Us ours theirs s = Ok fl ->
  (nz (connected fl) = true -> isolated fl = false /\ backward fl = false)
  /\ (backward fl = true -> isolated fl = false).
Proof.
  intros H. apply classify_Ok in H. cbv zeta in H.
  destruct H as (Hc & _ & _ & Hi & _ & _ & _ & _ & Hb & _).
  split.
  - intros C. split.
    + rewrite Hi, negb_false_iff. rewrite Hc in C.
      destruct (nz (Z.land ours (adjacent_files_bb (file_of s)))) eqn:A; [reflexivity|].
      rewrite (nz_land_0_l _ _ A) in C. discriminate.
    + destruct (backward fl); [|reflexivity].
      destruct (Hb eq_refl) as (_ & _ & C' & _). congruence.
  - intros B. apply (Hb B).
Qed.

(** The rank distance to the frontmost own pawn ahead is at least one. *)
Lemma doubled_distance (Us : Color) (ours theirs : Bitboard) (s : Square) (fl : PawnFlags) :
  0 <= s < 64 -> classify Us ours theirs s = Ok fl -> nz (doubled fl) = true ->
  exists front, frontmost_sq Us (doubled fl) = Some front /\ 1 <= distance_Rank s front.
Proof.
  intros Hs Hfl End. apply classify_Ok in Hfl. cbv zeta in Hfl.
  destruct Hfl as (_ & _ & _ & _ & Hd & _).
  destruct (forward_bb_spec Us s Hs) as [Hf_bb Hf].
  destruct (frontmost_sq_defined Us (doubled fl)) as [front Hfront];
    [rewrite Hd; apply is_bb_land_r, Hf_bb|exact End|].
  exists front. split; [exact Hfront|].
  destruct (frontmost_sq_Some _ _ _ Hfront) as [Hfr Hbit].
  rewrite Hd, Z.land_spec, Hf in Hbit by exact Hfr.
  apply andb_true_iff in Hbit as [_ Hbit]. apply andb_true_iff in Hbit as [_ Hah].
  unfold distance_Rank. unfold ahead in Hah. destruct Us; apply Z.ltb_lt in Hah; lia.
Qed.

(** X9.  What one pawn adds to the value of its side is bounded: the
    penalties of an unsupported, doubled and backward pawn add up to at most
    (92, 104), the bonuses of a connected pawn and of a lever, which are read
    at the same rank, to at most (98, 196); the doubled penalty is divided by
    a rank distance of at least one. *)
Theorem pawn_score_is_bounded (Us : Color) (ours theirs : Bitboard) (s : Square)
  (fl : PawnFlags) :
  0 <= s < 64 ->
  classify Us ours theirs s = Ok fl ->
  exists w,
    score_pawn Us s fl SCORE_ZERO = Ok w
    /\ -92 <= mg_value w <= 98 /\ -104 <= eg_value w <= 196.
Proof.
  intros Hs Hfl.
  destruct (flags_consistent _ _ _ _ _ Hfl) as [Cc Cb].
  pose proof (penalty_ranges (opposed fl) (file_of s) (file_of_range s))
    as ((I1 & I2) & (B1 & B2) & (D1 & D2)).
  pose proof (bonus_ranges (opposed fl) (phalanx fl) (relative_rank_sq Us s))
    as ((C1 & C2) & (L1 & L2) & CL1 & CL2).
  unfold score_pawn. cbv zeta.
  assert (Dd : exists dd,
             (if nz (doubled fl)
              then front ← of_option EmptyScan (frontmost_sq Us (doubled fl));
                   d ← score_div (at_S Doubled (file_of s)) (distance_Rank s front);
                   Ok d
              else Ok SCORE_ZERO) = Ok dd
             /\ 0 <= mg_value dd <= 23 /\ 0 <= eg_value dd <= 48).
  { destruct (nz (doubled fl)) eqn:End.
    - destruct (doubled_distance _ _ _ _ _ Hs Hfl End) as (front & -> & Hd).
      cbn [of_option mbind result_bind]. unfold score_div.
      destruct (Z.eqb_spec (distance_Rank s front) 0) as [Z0|_]; [lia|].
      cbn [mbind result_bind]. eexists. split; [reflexivity|]. cbn [mg_value eg_value].
      pose proof (quot_range (mg_value (at_S Doubled (file_of s))) _ (proj1 D1) Hd).
      pose proof (quot_range (eg_value (at_S Doubled (file_of s))) _ (proj1 D2) Hd).
      lia.
    - exists SCORE_ZERO. split; [reflexivity|]. cbn. lia. }
  destruct Dd as (dd & Ed & Dm & De).
  destruct (nz (doubled fl)) eqn:End.
  - destruct (frontmost_sq Us (doubled fl)) as [front|];
      cbn [of_option mbind result_bind] in Ed |- *; [|discriminate].
    destruct (score_div (at_S Doubled (file_of s)) (distance_Rank s front)) as [d|];
      cbn [mbind result_bind] in Ed |- *; [|discriminate].
    injection Ed as ->. eexists. split; [reflexivity|].
    unfold UnsupportedPawnPenalty.
    destruct (isolated fl), (unsupported fl), (backward fl), (nz (connected fl)), (lever fl);
      cbn [andb negb score_sub score_add mg_value eg_value SCORE_ZERO];
      try (specialize (Cc eq_refl); destruct Cc; discriminate);
      try (specialize (Cb eq_refl); discriminate);
      lia.
  - cbn [mbind result_bind]. eexists. split; [reflexivity|].
    unfold UnsupportedPawnPenalty.
    destruct (isolated fl), (unsupported fl), (backward fl), (nz (connected fl)), (lever fl);
      cbn [andb negb score_sub score_add mg_value eg_value SCORE_ZERO];
      try (specialize (Cc eq_refl); destruct Cc; discriminate);
      try (specialize (Cb eq_refl); discriminate);
      lia.
Qed.

Lemma pawn_score_is_bounded_witness :
  exists fl w,
    classify WHITE (Z.lor (SquareBB 8) (SquareBB 17)) (SquareBB 49) 17 = Ok fl
    /\ score_pawn WHITE 17 fl SCORE_ZERO = Ok w
    /\ -92 <= mg_value w <= 98 /\ -104 <= eg_value w <= 196.
Proof.
  destruct (classify WHITE (Z.lor (SquareBB 8) (SquareBB 17)) (SquareBB 49) 17)
    as [fl|] eqn:E; [|vm_compute in E; discriminate].
  assert (R : 0 <= 17 < 64) by lia.
  destruct (pawn_score_is_bounded _ _ _ _ _ R E) as (w & H & B).
  exists fl, w. split; [reflexivity|]. split; [exact H|exact B].
Defined.

(** ** What [evaluate] leaves alone *)

Ltac entry_cases e Us :=
  destruct e as [? ? [? ?] [? ?] [? ?] [? ?] [? ?] [? ?] [? ?] [? ?] [[? ?] [? ?]]];
  destruct Us.

Lemma step_entry_absorbed (Us : Color) (s : Square) (fl : PawnFlags) (pp so : Z)
  (e : Entry) :
  set_passedPawns Us pp (set_semiopenFiles Us so (step_entry Us s fl e))
  = set_passedPawns Us pp (set_semiopenFiles Us so e).
Proof.
  unfold step_entry. destruct (passed fl && negb (nz (doubled fl)));
    entry_cases e Us; reflexivity.
Qed.

Lemma entry_slots_id (Us : Color) (e : Entry) :
  set_passedPawns Us (get Us (passedPawns e))
    (set_semiopenFiles Us (get Us (semiopenFiles e)) e) = e.
Proof. entry_cases e Us; reflexivity. Qed.

(** The loop writes two slots of the entry, and nothing else. *)
Lemma pawn_loop_frame (Us : Color) (pos : Position) (pl : list Square)
  (e e1 : Entry) (v v1 : Score) :
  pawn_loop Us pos pl (e, v) = Ok (e1, v1) ->
  e1 = set_passedPawns Us (get Us (passedPawns e1))
         (set_semiopenFiles Us (get Us (semiopenFiles e1)) e).
Proof.
  revert e v. induction pl as [|s pl IH]; intros e v; cbn [pawn_loop].
  - intros [= <- <-]. symmetry. apply entry_slots_id.
  - destruct (pawn_step Us pos s (e, v)) as [[e2 v2]|] eqn:H1; cbn [mbind result_bind];
      [|discriminate].
    intros H. apply IH in H.
    apply pawn_step_Ok in H1 as (_ & fl & _ & _ & ->).
    rewrite step_entry_absorbed in H. exact H.
Qed.

Lemma evaluate_frame (Us : Color) (pos : Position) (e e1 : Entry) (v : Score) :
  evaluate Us pos e = Ok (v, e1) ->
  e1 = set_pawnSpan Us (get Us (pawnSpan e1))
         (set_passedPawns Us (get Us (passedPawns e1))
            (set_semiopenFiles Us (get Us (semiopenFiles e1)) (evaluate_init Us pos e))).
Proof.
  rewrite evaluate_unfold.
  destruct (pawn_loop Us pos (list_PAWN pos Us) (evaluate_init Us pos e, SCORE_ZERO))
    as [[el vl]|] eqn:L; cbn [mbind result_bind]; [|discriminate].
  destruct (span_of_mask (get Us (semiopenFiles el))) as [span|] eqn:S;
    cbn [mbind result_bind]; [|discriminate].
  intros [= <- <-]. apply pawn_loop_frame in L.
  replace (get Us (pawnSpan (set_pawnSpan Us span el))) with span
    by (destruct Us; reflexivity).
  replace (get Us (passedPawns (set_pawnSpan Us span el))) with (get Us (passedPawns el))
    by (destruct Us; reflexivity).
  replace (get Us (semiopenFiles (set_pawnSpan Us span el)))
    with (get Us (semiopenFiles el)) by (destruct Us; reflexivity).
  rewrite <- L. reflexivity.
Qed.

(** X10.  [evaluate<Us>] writes the pawn slots of [Us] and nothing else: the
    key, the value, the king-safety slots of both sides and every pawn slot
    of the other side are as before; and it resets [kingSquares[Us]] to
    [SQ_NONE], so that the king safety of [Us] is computed anew. *)
Theorem evaluate_writes_one_side (Us : Color) (pos : Position) (e e' : Entry) (v : Score) :
  evaluate Us pos e = Ok (v, e') ->
  key e' = key e /\ value e' = value e
  /\ pawn_slots (opp Us) e' = pawn_slots (opp Us) e
  /\ kingSafety e' = kingSafety e
  /\ minKingPawnDistance e' = minKingPawnDistance e
  /\ castlingRights e' = castlingRights e
  /\ get Us (kingSquares e') = SQ_NONE.
Proof.
  intros H. apply evaluate_frame in H. rewrite H. clear H.
  generalize (get Us (pawnSpan e')) (get Us (passedPawns e'))
             (get Us (semiopenFiles e')).
  intros sp pp so. unfold evaluate_init, pawn_slots.
  entry_cases e Us; cbn; repeat split; reflexivity.
Qed.

Lemma evaluate_writes_one_side_witness :
  exists v e',
    evaluate BLACK (sample_position 7) zero_entry = Ok (v, e')
    /\ pawn_slots WHITE e' = pawn_slots WHITE zero_entry
    /\ get BLACK (kingSquares e') = SQ_NONE.
Proof.
  destruct (evaluate BLACK (sample_position 7) zero_entry) as [[v e']|] eqn:E;
    [|vm_compute in E; discriminate].
  exists v, e'. split; [reflexivity|].
  pose proof (evaluate_writes_one_side _ _ _ _ _ E) as H. cbn [opp] in H. tauto.
Defined.

(** ** The squares the pawns attack *)

Lemma some_pawn_two (b : Bitboard) (P p p' : Square -> bool) (a a' : Z) :
  (forall s, 0 <= s < 64 -> P s = ((s =? a) && p s) || ((s =? a') && p' s)) ->
  (Z.testbit b a && p a = true -> 0 <= a < 64) ->
  (Z.testbit b a' && p' a' = true -> 0 <= a' < 64) ->
  some_pawn b P = (Z.testbit b a && p a) || (Z.testbit b a' && p' a').
Proof.
  intros HP Ha Ha'. apply eq_true_iff_eq. rewrite some_pawn_true, orb_true_iff. split.
  - intros (s & Hs & Hb & H). rewrite (HP s Hs), orb_true_iff, !andb_true_iff in H.
    destruct H as [[E H]|[E H]]; apply Z.eqb_eq in E; subst s; rewrite Hb, H; auto.
  - intros [H|H]; [pose proof (Ha H) as R; exists a|pose proof (Ha' H) as R; exists a'];
      (split; [exact R|]); apply andb_true_iff in H; destruct H as [Hb H];
      (split; [exact Hb|]); rewrite (HP _ R), Z.eqb_refl, H; cbn;
      [reflexivity|apply orb_true_r].
Qed.

Lemma pawn_attacks_from (c : Color) (s t : Square) :
  0 <= s < 64 -> 0 <= t < 64 ->
  Z.testbit (pawn_attacks_bb c s) t
  = match c with
    | WHITE => ((s =? t - 9) && Z.testbit (bb_not FileHBB) s)
               || ((s =? t - 7) && Z.testbit (bb_not FileABB) s)
    | BLACK => ((s =? t + 9) && Z.testbit (bb_not FileABB) s)
               || ((s =? t + 7) && Z.testbit (bb_not FileHBB) s)
    end.
Proof.
  intros Hs Ht.
  assert (K : forallb (fun t => forallb (fun s =>
                eqb (Z.testbit (pawn_attacks_bb c s) t)
                    match c with
                    | WHITE => ((s =? t - 9) && Z.testbit (bb_not FileHBB) s)
                               || ((s =? t - 7) && Z.testbit (bb_not FileABB) s)
                    | BLACK => ((s =? t + 9) && Z.testbit (bb_not FileABB) s)
                               || ((s =? t + 7) && Z.testbit (bb_not FileHBB) s)
                    end) squares) squares = true)
    by (destruct c; vm_compute; reflexivity).
  pose proof (forallb_squares _ K t Ht) as K1. cbv beta in K1.
  pose proof (forallb_squares _ K1 s Hs) as K2. cbv beta in K2.
  apply eqb_prop in K2. exact K2.
Qed.

Lemma bb_not_is_bb (b : Bitboard) : is_bb (bb_not b) = true.
Proof. apply u64_is_bb. Qed.

Lemma bb_not_range (b : Bitboard) (i : Z) : Z.testbit (bb_not b) i = true -> 0 <= i < 64.
Proof.
  intros H. destruct (Z.ltb_spec i 0) as [N|N].
  - rewrite Z.testbit_neg_r in H by lia. discriminate.
  - destruct (Z.ltb_spec i 64) as [U|U]; [lia|].
    rewrite (is_bb_high _ i (bb_not_is_bb b) U) in H. discriminate.
Qed.

Lemma shifted_pawns_attack (c : Color) (b : Bitboard) (t : Square) :
  0 <= t < 64 ->
  Z.testbit (Z.lor (shift_bb (match c with WHITE => DELTA_NE | BLACK => DELTA_SW end) b)
                   (shift_bb (match c with WHITE => DELTA_NW | BLACK => DELTA_SE end) b)) t
  = some_pawn b (fun s => Z.testbit (pawn_attacks_bb c s) t).
Proof.
  intros Ht. symmetry. destruct c.
  - change (shift_bb DELTA_NE b) with (u64 (Z.shiftl (Z.land b (bb_not FileHBB)) 9)).
    change (shift_bb DELTA_NW b) with (u64 (Z.shiftl (Z.land b (bb_not FileABB)) 7)).
    rewrite Z.lor_spec, !u64_spec, !Z.shiftl_spec, !Z.land_spec by lia.
    apply (some_pawn_two b _ (Z.testbit (bb_not FileHBB)) (Z.testbit (bb_not FileABB))).
    + intros s Hs. apply (pawn_attacks_from WHITE s t Hs Ht).
    + intros H. apply andb_true_iff in H. apply (bb_not_range FileHBB), H.
    + intros H. apply andb_true_iff in H. apply (bb_not_range FileABB), H.
  - change (shift_bb DELTA_SW b) with (Z.shiftr (Z.land b (bb_not FileABB)) 9).
    change (shift_bb DELTA_SE b) with (Z.shiftr (Z.land b (bb_not FileHBB)) 7).
    rewrite Z.lor_spec, !Z.shiftr_spec, !Z.land_spec by lia.
    apply (some_pawn_two b _ (Z.testbit (bb_not FileABB)) (Z.testbit (bb_not FileHBB))).
    + intros s Hs. apply (pawn_attacks_from BLACK s t Hs Ht).
    + intros H. apply andb_true_iff in H. apply (bb_not_range FileABB), H.
    + intros H. apply andb_true_iff in H. apply (bb_not_range FileHBB), H.
Qed.

Lemma evaluate_pawnAttacks (Us : Color) (pos : Position) (e e' : Entry) (v : Score) :
  evaluate Us pos e = Ok (v, e') ->
  get Us (pawnAttacks e')
  = Z.lor (shift_bb (match Us with WHITE => DELTA_NE | BLACK => DELTA_SW end) (pieces pos Us))
          (shift_bb (match Us with WHITE => DELTA_NW | BLACK => DELTA_SE end) (pieces pos Us)).
Proof.
  intros H. apply evaluate_frame in H. rewrite H. clear H.
  generalize (get Us (pawnSpan e')) (get Us (passedPawns e'))
             (get Us (semiopenFiles e')).
  intros sp pp so. unfold evaluate_init. destruct Us; reflexivity.
Qed.

(** X11.  After [evaluate<Us>], [pawnAttacks[Us]] holds exactly the squares
    that some pawn of [Us] attacks, that is the squares one rank ahead of a
    pawn on an adjacent file: the two shifts of the pawn bitboard agree with
    the attack table, pawn by pawn, and nothing falls off the board or wraps
    around its edge. *)
Theorem pawnAttacks_are_the_attacked_squares (Us : Color) (pos : Position) (e e' : Entry)
  (v : Score) :
  evaluate Us pos e = Ok (v, e') ->
  is_bb (get Us (pawnAttacks e')) = true
  /\ forall t, 0 <= t < 64 ->
       Z.testbit (get Us (pawnAttacks e')) t
       = some_pawn (pieces pos Us) (fun s => Z.testbit (pawn_attacks_bb Us s) t)
       /\ Z.testbit (get Us (pawnAttacks e')) t
          = some_pawn (pieces pos Us)
              (fun s => adjacent_file s t && one_rank_ahead Us s t).
Proof.
  intros H. rewrite (evaluate_pawnAttacks _ _ _ _ _ H). split.
  - destruct Us.
    + apply is_bb_lor; apply u64_is_bb.
    + apply is_bb_lor; (apply is_bb_shiftr; [apply is_bb_land_r, bb_not_is_bb|]);
        unfold DELTA_SW, DELTA_SE; cbn; lia.
  - intros t Ht. rewrite shifted_pawns_attack by exact Ht. split; [reflexivity|].
    apply some_pawn_ext. intros s Hs.
    destruct (pawn_attacks_bb_spec Us s Hs) as [_ M]. apply (M t Ht).
Qed.

Lemma pawnAttacks_are_the_attacked_squares_witness :
  exists v e',
    evaluate WHITE (sample_position 7) zero_entry = Ok (v, e')
    /\ is_bb (get WHITE (pawnAttacks e')) = true.
Proof.
  destruct (evaluate WHITE (sample_position 7) zero_entry) as [[v e']|] eqn:E;
    [|vm_compute in E; discriminate].
  exists v, e'. split; [reflexivity|].
  exact (proj1 (pawnAttacks_are_the_attacked_squares _ _ _ _ _ E)).
Defined.

(** ** Pawns on dark and on light squares *)

Lemma NoDup_squares : List.NoDup squares.
Proof.
  unfold squares. generalize (List.seq_NoDup 64 0).
  induction 1 as [|n l Hn _ IH]; cbn [map]; constructor; [|exact IH].
  rewrite in_map_iff. intros (m & E & Hm). apply Nat2Z.inj in E. subst m. contradiction.
Qed.

Lemma filter_split_length {A : Type} (p q : A -> bool) (l : list A) :
  length (List.filter p l)
  = (length (List.filter (fun a => p a && q a) l)
     + length (List.filter (fun a => p a && negb (q a)) l))%nat.
Proof.
  induction l as [|a l IH]; [reflexivity|]. cbn.
  destruct (p a), (q a); cbn; lia.
Qed.

Lemma popcount_ext (a b : Bitboard) :
  (forall s, 0 <= s < 64 -> Z.testbit a s = Z.testbit b s) -> popcount a = popcount b.
Proof.
  intros H. unfold popcount. f_equal. f_equal. apply filter_ext_in.
  intros s Hs. apply H, squares_spec, Hs.
Qed.

(** The pawn count of a list without repetition is the number of pawns of
    the bitboard. *)
Lemma count_PAWN_popcount (pos : Position) (c : Color) :
  wf_position pos = true -> List.NoDup (list_PAWN pos c) ->
  count_PAWN pos c = popcount (pieces pos c).
Proof.
  intros Hwf Hnd. unfold count_PAWN, popcount. f_equal.
  apply Permutation_length, Permutation.NoDup_Permutation; [exact Hnd| |].
  - apply List.NoDup_filter, NoDup_squares.
  - intros s. rewrite filter_In, squares_spec. split.
    + intros Hs. destruct (wf_position_list pos c s Hwf Hs) as (R & _ & B).
      split; [lia|exact B].
    + intros [Hs B]. pose proof (wf_position_side pos c Hwf) as W.
      unfold wf_side in W. rewrite !andb_true_iff in W. destruct W as [_ W].
      pose proof (forallb_squares _ W s Hs) as W'. cbv beta in W'.
      rewrite B in W'. cbn in W'. apply existsb_exists in W'.
      destruct W' as (x & Hx & E). apply Z.eqb_eq in E. subst x. exact Hx.
Qed.

(** X12.  After [evaluate<Us>], [pawnsOnSquares[Us]] holds the number of
    pawns of [Us] on dark squares and, when the pawn list repeats no square,
    the number of those on light squares; the two add up to the pawn count. *)
Theorem pawnsOnSquares_count_dark_and_light (Us : Color) (pos : Position) (e e' : Entry)
  (v : Score) :
  wf_position pos = true -> List.NoDup (list_PAWN pos Us) ->
  evaluate Us pos e = Ok (v, e') ->
  get BLACK (get Us (pawnsOnSquares e')) = popcount (Z.land (pieces pos Us) DarkSquares)
  /\ get WHITE (get Us (pawnsOnSquares e'))
     = popcount (Z.land (pieces pos Us) (bb_not DarkSquares))
  /\ get BLACK (get Us (pawnsOnSquares e')) + get WHITE (get Us (pawnsOnSquares e'))
     = count_PAWN pos Us.
Proof.
  intros Hwf Hnd H. apply evaluate_frame in H.
  assert (E : get Us (pawnsOnSquares e')
              = by_color (count_PAWN pos Us - popcount (Z.land (pieces pos Us) DarkSquares))
                         (popcount (Z.land (pieces pos Us) DarkSquares))).
  { rewrite H. clear H.
    generalize (get Us (pawnSpan e')) (get Us (passedPawns e'))
               (get Us (semiopenFiles e')).
    intros sp pp so. unfold evaluate_init. destruct Us; reflexivity. }
  rewrite E. cbn [get of_white of_black].
  split; [reflexivity|]. split; [|lia].
  rewrite (count_PAWN_popcount pos Us Hwf Hnd). unfold popcount.
  rewrite (filter_split_length (Z.testbit (pieces pos Us)) (Z.testbit DarkSquares)).
  assert (D : List.filter (Z.testbit (Z.land (pieces pos Us) DarkSquares)) squares
              = List.filter (fun a => Z.testbit (pieces pos Us) a && Z.testbit DarkSquares a)
                            squares).
  { apply filter_ext. intros a. apply Z.land_spec. }
  assert (L : List.filter (Z.testbit (Z.land (pieces pos Us) (bb_not DarkSquares))) squares
              = List.filter (fun a => Z.testbit (pieces pos Us) a
                                      && negb (Z.testbit DarkSquares a)) squares).
  { apply filter_ext_in. intros a Ha. apply squares_spec in Ha.
    rewrite Z.land_spec. f_equal. unfold bb_not. rewrite u64_spec by exact Ha.
    apply Z.lnot_spec. lia. }
  rewrite D, L. lia.
Qed.

Lemma pawnsOnSquares_count_dark_and_light_witness :
  exists v e',
    evaluate WHITE (sample_position 7) zero_entry = Ok (v, e')
    /\ get BLACK (get WHITE (pawnsOnSquares e')) + get WHITE (get WHITE (pawnsOnSquares e'))
       = count_PAWN (sample_position 7) WHITE.
Proof.
  destruct (evaluate WHITE (sample_position 7) zero_entry) as [[v e']|] eqn:E;
    [|vm_compute in E; discriminate].
  exists v, e'. split; [reflexivity|].
  assert (W : wf_position (sample_position 7) = true) by (vm_compute; reflexivity).
  assert (N : List.NoDup (list_PAWN (sample_position 7) WHITE)).
  { change (List.NoDup [8; 16; 27]). repeat constructor; cbn; lia. }
  exact (proj2 (proj2 (pawnsOnSquares_count_dark_and_light _ _ _ _ _ W N E))).
Defined.

(** ** The order of the pawn list *)

Lemma pawn_loop_same_board (Us : Color) (pos pos' : Position) (pl : list Square)
  (st : Entry * Score) :
  byTypeBB_PAWN pos' = byTypeBB_PAWN pos -> byColorBB pos' = byColorBB pos ->
  board pos' = board pos ->
  pawn_loop Us pos' pl st = pawn_loop Us pos pl st.
Proof.
  intros HT HC HB. revert st. induction pl as [|s pl IH]; intros st; [reflexivity|].
  cbn [pawn_loop].
  assert (E : pawn_step Us pos' s st = pawn_step Us pos s st).
  { unfold pawn_step, pieces, piece_on. rewrite HT, HC, HB. reflexivity. }
  rewrite E. destruct (pawn_step Us pos s st); cbn [mbind result_bind]; [apply IH|reflexivity].
Qed.

Lemma existsb_Permutation {A : Type} (p : A -> bool) (l l' : list A) :
  Permutation l l' -> existsb p l = existsb p l'.
Proof.
  intros H. apply eq_true_iff_eq. rewrite !existsb_exists.
  split; intros (x & Hx & Px); exists x; (split; [|exact Px]).
  - apply (Permutation_in _ H Hx).
  - apply (Permutation_in _ (Permutation_sym H) Hx).
Qed.

(** The loop over a reordered list ends on the same entry and the same value. *)
Lemma pawn_loop_reordered (c : Color) (pos : Position) (pl pl' : list Square)
  (e e1 : Entry) (v v1 : Score) :
  Permutation pl pl' ->
  (forall s, In s pl -> 0 <= s < 64) ->
  pawn_loop c pos pl (e, v) = Ok (e1, v1) ->
  pawn_loop c pos pl' (e, v) = Ok (e1, v1).
Proof.
  intros HP Hr H.
  destruct (pawn_loop_Permutation c pos pl pl' HP e e v v1 e1 H) as [e1' H'].
  rewrite H'. f_equal. f_equal.
  assert (Hr' : forall s, In s pl' -> 0 <= s < 64)
    by (intros s Hs; apply Hr, (Permutation_in _ (Permutation_sym HP) Hs)).
  destruct (pawn_loop_fields _ _ _ _ _ _ _ Hr H) as (_ & _ & So & Pp).
  destruct (pawn_loop_fields _ _ _ _ _ _ _ Hr' H') as (_ & _ & So' & Pp').
  rewrite (pawn_loop_frame _ _ _ _ _ _ _ H), (pawn_loop_frame _ _ _ _ _ _ _ H').
  f_equal; [|f_equal].
  - apply Z.bits_inj. intros t. rewrite Pp, Pp'. f_equal.
    apply existsb_Permutation, Permutation_sym, HP.
  - rewrite So, So'. apply Z.bits_inj. intros i. rewrite !semiopen_after_spec. f_equal.
    f_equal. apply existsb_Permutation, Permutation_sym, HP.
Qed.

Lemma evaluate_reordered (Us : Color) (pos pos' : Position) (e : Entry) :
  wf_position pos = true ->
  byTypeBB_PAWN pos' = byTypeBB_PAWN pos -> byColorBB pos' = byColorBB pos ->
  board pos' = board pos ->
  Permutation (list_PAWN pos Us) (list_PAWN pos' Us) ->
  evaluate Us pos' e = evaluate Us pos e.
Proof.
  intros Hwf HT HC HB HP.
  destruct (evaluate_total Us pos e Hwf) as (v & e1 & H).
  rewrite H. rewrite evaluate_unfold in *.
  assert (I : evaluate_init Us pos' e = evaluate_init Us pos e).
  { unfold evaluate_init, pieces, count_PAWN. rewrite HT, HC.
    rewrite (Permutation_length HP). reflexivity. }
  rewrite I, (pawn_loop_same_board Us pos pos' _ _ HT HC HB).
  destruct (pawn_loop Us pos (list_PAWN pos Us) (evaluate_init Us pos e, SCORE_ZERO))
    as [[el vl]|] eqn:L; cbn [mbind result_bind] in H; [|discriminate].
  rewrite (pawn_loop_reordered Us pos _ _ _ _ _ _ HP (wf_position_squares pos Us Hwf) L).
  cbn [mbind result_bind]. exact H.
Qed.

(** X13.  The pawn key does not record the order of the piece lists, and
    nothing that [evaluate] or [probe] computes depends on it: on a position
    with the same board and the same pawns, listed in another order,
    [evaluate] returns the same value and the same entry, and [probe], under
    the same key, the same table. *)
Theorem evaluate_ignores_the_list_order (pos pos' : Position) :
  wf_position pos = true ->
  byTypeBB_PAWN pos' = byTypeBB_PAWN pos -> byColorBB pos' = byColorBB pos ->
  board pos' = board pos ->
  (forall c, Permutation (list_PAWN pos c) (list_PAWN pos' c)) ->
  (forall c e, evaluate c pos' e = evaluate c pos e)
  /\ (pawn_key pos' = pawn_key pos ->
      forall entries, probe pos' entries = probe pos entries).
Proof.
  intros Hwf HT HC HB HP.
  assert (E : forall c e, evaluate c pos' e = evaluate c pos e)
    by (intros c e; apply evaluate_reordered; auto).
  split; [exact E|]. intros HK entries. unfold probe. rewrite HK.
  destruct (table entries !! slot entries (pawn_key pos)) as [e|];
    cbn [of_option mbind result_bind]; [|reflexivity].
  destruct (key e =? pawn_key pos); [reflexivity|].
  rewrite E. destruct (evaluate WHITE pos (set_key (pawn_key pos) e)) as [[w e1]|];
    cbn [mbind result_bind]; [|reflexivity].
  rewrite E. reflexivity.
Qed.

Lemma evaluate_ignores_the_list_order_witness :
  evaluate WHITE (pawns_position [27; 8; 16] [41; 35] 0 7) zero_entry
  = evaluate WHITE (sample_position 7) zero_entry.
Proof.
  assert (P : forall c, Permutation (list_PAWN (sample_position 7) c)
                          (list_PAWN (pawns_position [27; 8; 16] [41; 35] 0 7) c)).
  { intros [|].
    - apply Permutation_sym, (Permutation_cons_append [8; 16] 27).
    - apply perm_swap. }
  apply (proj1 (evaluate_ignores_the_list_order
                  (sample_position 7) (pawns_position [27; 8; 16] [41; 35] 0 7)
                  ltac:(vm_compute; reflexivity) ltac:(vm_compute; reflexivity)
                  ltac:(vm_compute; reflexivity) ltac:(vm_compute; reflexivity) P)).
Defined.

(** ** The value, pawn by pawn *)

Lemma pawn_loop_sum (Us : Color) (pos : Position) (pl : list Square)
  (e e1 : Entry) (v v1 : Score) :
  pawn_loop Us pos pl (e, v) = Ok (e1, v1) ->
  exists ws, Forall2 (fun s w => pawn_score Us pos s = Ok w) pl ws
             /\ v1 = fold_left score_add ws v.
Proof.
  revert e v. induction pl as [|s pl IH]; intros e v; cbn [pawn_loop].
  - intros [= <- <-]. exists []. split; [constructor|reflexivity].
  - destruct (pawn_step Us pos s (e, v)) as [[e2 v2]|] eqn:H1; cbn [mbind result_bind];
      [|discriminate].
    intros H. destruct (IH _ _ H) as (ws & F & E).
    apply pawn_step_Ok in H1 as (_ & fl & Hfl & Hsc & _).
    rewrite score_pawn_additive in Hsc.
    destruct (score_pawn Us s fl SCORE_ZERO) as [w|] eqn:W; [|discriminate].
    cbn in Hsc. injection Hsc as <-.
    exists (w :: ws). split; [|exact E].
    constructor; [|exact F]. unfold pawn_score. rewrite Hfl. cbn [mbind result_bind].
    exact W.
Qed.

(** X14.  The value [evaluate] returns is the sum of what each pawn of the
    list scores on its own: the penalties and bonuses of one pawn do not
    depend on the value accumulated before it. *)
Theorem evaluate_adds_up_the_pawns (Us : Color) (pos : Position) (e e' : Entry)
  (v : Score) :
  evaluate Us pos e = Ok (v, e') ->
  exists ws, Forall2 (fun s w => pawn_score Us pos s = Ok w) (list_PAWN pos Us) ws
             /\ v = fold_left score_add ws SCORE_ZERO.
Proof.
  rewrite evaluate_unfold.
  destruct (pawn_loop Us pos (list_PAWN pos Us) (evaluate_init Us pos e, SCORE_ZERO))
    as [[el vl]|] eqn:L; cbn [mbind result_bind]; [|discriminate].
  destruct (span_of_mask (get Us (semiopenFiles el))) as [span|];
    cbn [mbind result_bind]; [|discriminate].
  intros [= <- <-]. exact (pawn_loop_sum _ _ _ _ _ _ _ L).
Qed.

Lemma evaluate_adds_up_the_pawns_witness :
  exists v e' ws,
    evaluate WHITE (sample_position 7) zero_entry = Ok (v, e')
    /\ Forall2 (fun s w => pawn_score WHITE (sample_position 7) s = Ok w) [8; 16; 27] ws
    /\ v = fold_left score_add ws SCORE_ZERO.
Proof.
  destruct (evaluate WHITE (sample_position 7) zero_entry) as [[v e']|] eqn:E;
    [|vm_compute in E; discriminate].
  destruct (evaluate_adds_up_the_pawns _ _ _ _ _ E) as (ws & F & S).
  exists v, e', ws. split; [reflexivity|]. split; [exact F|exact S].
Defined.

(** ** Both sides in one entry *)

Lemma evaluate_kingSquares (Us : Color) (pos : Position) (e e' : Entry) (v : Score) :
  evaluate Us pos e = Ok (v, e') -> get Us (kingSquares e') = SQ_NONE.
Proof.
  intros H. apply evaluate_frame in H. rewrite H. clear H.
  generalize (get Us (pawnSpan e')) (get Us (passedPawns e'))
             (get Us (semiopenFiles e')).
  intros sp pp so. unfold evaluate_init. destruct Us; reflexivity.
Qed.

Lemma evaluate_pawnsOnSquares (Us : Color) (pos : Position) (e e' : Entry) (v : Score) :
  evaluate Us pos e = Ok (v, e') ->
  get Us (pawnsOnSquares e')
  = by_color (count_PAWN pos Us - popcount (Z.land (pieces pos Us) DarkSquares))
             (popcount (Z.land (pieces pos Us) DarkSquares)).
Proof.
  intros H. apply evaluate_frame in H. rewrite H. clear H.
  generalize (get Us (pawnSpan e')) (get Us (passedPawns e'))
             (get Us (semiopenFiles e')).
  intros sp pp so. unfold evaluate_init. destruct Us; reflexivity.
Qed.

Lemma evaluate_other_side (Us : Color) (pos : Position) (e e' : Entry) (v : Score) :
  evaluate Us pos e = Ok (v, e') ->
  pawn_slots (opp Us) e' = pawn_slots (opp Us) e
  /\ kingSafety e' = kingSafety e
  /\ minKingPawnDistance e' = minKingPawnDistance e
  /\ castlingRights e' = castlingRights e.
Proof.
  intros H. apply evaluate_frame in H. rewrite H. clear H.
  generalize (get Us (pawnSpan e')) (get Us (passedPawns e'))
             (get Us (semiopenFiles e')).
  intros sp pp so. unfold evaluate_init, pawn_slots.
  entry_cases e Us; cbn; repeat split; reflexivity.
Qed.

(** What [evaluate<Us>] leaves in the slots of [Us] does not depend on the
    entry it starts from. *)
Lemma evaluate_any_entry (Us : Color) (pos : Position) (e e0 e1 : Entry) (v : Score) :
  (forall s, In s (list_PAWN pos Us) -> 0 <= s < 64) ->
  evaluate Us pos e = Ok (v, e1) ->
  exists e1', evaluate Us pos e0 = Ok (v, e1') /\ pawn_slots Us e1' = pawn_slots Us e1.
Proof.
  intros Hr H.
  destruct (evaluate_Ok Us pos e e1 v Hr H) as (_ & _ & So & Sp & Pp & el & L).
  destruct (pawn_loop_Permutation Us pos _ _ (Permutation_refl _)
              _ (evaluate_init Us pos e0) _ _ _ L) as [el' L'].
  destruct (evaluate_of_loop Us pos e0 el' v L') as [e1' H'].
  exists e1'. split; [exact H'|].
  destruct (evaluate_Ok Us pos e0 e1' v Hr H') as (_ & _ & So' & Sp' & Pp' & _).
  unfold pawn_slots.
  rewrite (evaluate_pawnAttacks _ _ _ _ _ H), (evaluate_pawnAttacks _ _ _ _ _ H').
  rewrite (evaluate_kingSquares _ _ _ _ _ H), (evaluate_kingSquares _ _ _ _ _ H').
  rewrite (evaluate_pawnsOnSquares _ _ _ _ _ H), (evaluate_pawnsOnSquares _ _ _ _ _ H').
  rewrite So, So', Sp, Sp'.
  replace (get Us (passedPawns e1')) with (get Us (passedPawns e1)); [reflexivity|].
  apply Z.bits_inj. intros t. rewrite Pp, Pp'. reflexivity.
Qed.

Lemma pawn_slots_set_value (c : Color) (v : Score) (e : Entry) :
  pawn_slots c (set_value v e) = pawn_slots c e.
Proof. reflexivity. Qed.

(** X15.  An entry that [probe] has repopulated holds the results of both
    sides: for each side the pawn slots are those that [evaluate] computes
    for that side alone, from any entry (the run for Black overwrites nothing
    of White's), the value is White's minus Black's, and the king-safety
    slots of the old entry are kept, but for the two king squares, which are
    reset to [SQ_NONE]. *)
Theorem repopulated_entry_holds_both_sides (pos : Position) (e e' : Entry) :
  wf_position pos = true ->
  repopulate pos e = Ok e' ->
  key e' = pawn_key pos
  /\ kingSafety e' = kingSafety e
  /\ minKingPawnDistance e' = minKingPawnDistance e
  /\ castlingRights e' = castlingRights e
  /\ kingSquares e' = by_color SQ_NONE SQ_NONE
  /\ forall e0, exists w b ew eb,
       evaluate WHITE pos e0 = Ok (w, ew) /\ evaluate BLACK pos e0 = Ok (b, eb)
       /\ value e' = score_sub w b
       /\ pawn_slots WHITE e' = pawn_slots WHITE ew
       /\ pawn_slots BLACK e' = pawn_slots BLACK eb.
Proof.
  intros Hwf H. apply repopulate_Ok in H.
  destruct H as (K & w & b & e1 & e2 & HW & HB & ->).
  destruct (evaluate_other_side _ _ _ _ _ HW) as (_ & S1 & D1 & C1).
  destruct (evaluate_other_side _ _ _ _ _ HB) as (O2 & S2 & D2 & C2).
  cbn [opp] in O2. cbn [set_key kingSafety minKingPawnDistance castlingRights] in S1, D1, C1.
  split; [exact K|]. split; [cbn; congruence|]. split; [cbn; congruence|].
  split; [cbn; congruence|]. split.
  - pose proof (evaluate_kingSquares _ _ _ _ _ HW) as KW.
    pose proof (evaluate_kingSquares _ _ _ _ _ HB) as KB.
    assert (KW' : get WHITE (kingSquares e2) = SQ_NONE).
    { unfold pawn_slots in O2. injection O2 as _ _ O _ _ _. cbn [get] in *. congruence. }
    cbn [kingSquares set_value]. destruct (kingSquares e2) as [kw kb].
    cbn in KW', KB. congruence.
  - intros e0.
    destruct (evaluate_any_entry WHITE pos _ e0 _ _ (wf_position_squares pos WHITE Hwf) HW)
      as (ew & HW' & SW).
    destruct (evaluate_any_entry BLACK pos _ e0 _ _ (wf_position_squares pos BLACK Hwf) HB)
      as (eb & HB' & SB).
    exists w, b, ew, eb. split; [exact HW'|]. split; [exact HB'|].
    split; [reflexivity|]. rewrite !pawn_slots_set_value. split; congruence.
Qed.

Lemma repopulated_entry_holds_both_sides_witness :
  exists e',
    repopulate (sample_position 7) zero_entry = Ok e'
    /\ key e' = 7 /\ kingSquares e' = by_color SQ_NONE SQ_NONE.
Proof.
  destruct (repopulate (sample_position 7) zero_entry) as [e'|] eqn:E;
    [|vm_compute in E; discriminate].
  exists e'. split; [reflexivity|].
  assert (W : wf_position (sample_position 7) = true) by (vm_compute; reflexivity).
  pose proof (repopulated_entry_holds_both_sides _ _ _ W E) as H.
  split; [apply H|apply H].
Defined.

(** ** The cache, probe after probe *)

Lemma probe_Ok_lookup (pos : Position) (entries t1 : Table) (i : nat) :
  probe pos entries = Ok (i, t1) ->
  exists e, table entries !! slot entries (pawn_key pos) = Some e.
Proof.
  unfold probe. destruct (table entries !! slot entries (pawn_key pos)) as [e|];
    [eauto|discriminate].
Qed.

(** X16.  A probe that follows a successful probe with the same pawn key is a
    hit: it returns the same slot and leaves the table as it is, without a
    run of the classifier, whatever position carries the key.  The cache
    trusts the key alone. *)
Theorem probe_again_is_a_hit (pos pos' : Position) (entries t1 : Table) (i : nat) :
  probe pos entries = Ok (i, t1) ->
  pawn_key pos' = pawn_key pos ->
  probe pos' t1 = Ok (i, t1).
Proof.
  intros H HK. apply probe_key in H. destruct H as (-> & Hlen & e & He & Hk).
  rewrite <- (slot_same_length entries t1 (pawn_key pos) Hlen), <- HK in He.
  rewrite (probe_unfold pos' t1 e He), HK, Hk, Z.eqb_refl.
  rewrite (slot_same_length entries t1 (pawn_key pos) Hlen). reflexivity.
Qed.

Lemma probe_again_is_a_hit_witness :
  exists i t1,
    probe (sample_position 7) (new_table 4) = Ok (i, t1)
    /\ probe (start_position 7) t1 = Ok (i, t1).
Proof.
  destruct (probe (sample_position 7) (new_table 4)) as [[i t1]|] eqn:E;
    [|vm_compute in E; discriminate].
  exists i, t1. split; [reflexivity|].
  apply (probe_again_is_a_hit (sample_position 7) (start_position 7) _ _ _ E).
  reflexivity.
Defined.

(** X17.  A probe writes at most the slot it returns: every other slot of the
    table is as before, the number of slots is kept (and stays a power of
    two), and the record of the classifier runs is either unchanged (a hit) or
    longer by one run for each side (a miss). *)
Theorem probe_writes_one_slot (pos : Position) (entries t1 : Table) (i : nat) :
  probe pos entries = Ok (i, t1) ->
  length (table t1) = length (table entries)
  /\ (wf_table entries = true -> wf_table t1 = true)
  /\ (forall j, j <> i -> table t1 !! j = table entries !! j)
  /\ (t1 = entries
      \/ is_miss pos entries = true
         /\ runs t1 = runs entries ++ [(WHITE, pawn_key pos); (BLACK, pawn_key pos)]).
Proof.
  intros H. pose proof (probe_key _ _ _ _ H) as (Hi & Hlen & _).
  split; [exact Hlen|]. split; [apply wf_table_same_length, Hlen|].
  destruct (probe_Ok_lookup _ _ _ _ H) as [e He].
  rewrite (probe_unfold pos entries e He) in H.
  destruct (key e =? pawn_key pos) eqn:K.
  - injection H as _ <-. split; [reflexivity|left; reflexivity].
  - destruct (repopulate pos e) as [e'|]; cbn [mbind result_bind] in H; [|discriminate].
    injection H as _ <-. cbn [table runs]. split.
    + intros j Hj. apply list_lookup_insert_ne. congruence.
    + right. split; [|reflexivity]. unfold is_miss. rewrite He, K. reflexivity.
Qed.

Lemma probe_writes_one_slot_witness :
  exists i t1,
    probe (sample_position 7) (new_table 4) = Ok (i, t1)
    /\ length (table t1) = 4%nat
    /\ forall j, j <> i -> table t1 !! j = table (new_table 4) !! j.
Proof.
  destruct (probe (sample_position 7) (new_table 4)) as [[i t1]|] eqn:E;
    [|vm_compute in E; discriminate].
  exists i, t1. split; [reflexivity|].
  pose proof (probe_writes_one_slot _ _ _ _ E) as H.
  split; [apply H|apply H].
Defined.

(** X18.  On a freshly allocated table the key of every slot is zero: a
    probe with a pawn key other than zero is a miss, and a probe with the pawn
    key zero is a hit on a slot that was never computed; it returns the
    zero-initialised entry, and the classifier does not run. *)
Theorem fresh_table_takes_key_zero_for_a_hit (pos : Position) (n : nat) :
  wf_table (new_table n) = true ->
  (pawn_key pos <> 0 -> is_miss pos (new_table n) = true)
  /\ (pawn_key pos = 0 ->
      probe pos (new_table n) = Ok (0%nat, new_table n)
      /\ table (new_table n) !! 0%nat = Some zero_entry).
Proof.
  intros Hwf.
  pose proof (slot_lt (new_table n) (pawn_key pos) Hwf) as Hlt.
  cbn [new_table table] in Hlt. rewrite length_replicate in Hlt.
  assert (L : table (new_table n) !! slot (new_table n) (pawn_key pos) = Some zero_entry)
    by (apply lookup_replicate_2; exact Hlt).
  split.
  - intros HK. unfold is_miss. rewrite L. cbn [key zero_entry].
    apply negb_true_iff, Z.eqb_neq. congruence.
  - intros HK.
    assert (S0 : slot (new_table n) (pawn_key pos) = 0%nat)
      by (unfold slot; rewrite HK, Z.land_0_l; reflexivity).
    rewrite (probe_unfold pos (new_table n) zero_entry L), S0. rewrite S0 in L.
    rewrite HK. cbn [key zero_entry]. split; [reflexivity|exact L].
Qed.

Lemma fresh_table_takes_key_zero_for_a_hit_witness :
  probe (sample_position 0) (new_table 4) = Ok (0%nat, new_table 4)
  /\ is_miss (sample_position 7) (new_table 4) = true.
Proof.
  split.
  - apply (fresh_table_takes_key_zero_for_a_hit (sample_position 0) 4);
      vm_compute; reflexivity.
  - apply (fresh_table_takes_key_zero_for_a_hit (sample_position 7) 4);
      [vm_compute; reflexivity|vm_compute; discriminate].
Defined.

(** ** The shelter, file by file *)

Lemma shelter_file_unfold (Us : Color) (ours theirs : Bitboard) (ksq : Square) (f : File)
  (safety : Value) :
  shelter_file Us ours theirs ksq f safety
  = (rkUs ← shelter_rank Us ours f;
     rkThem ← storm_rank Us theirs f;
     Ok (if edge_bonus Us ksq f rkThem then safety + 200
         else safety - file_penalty rkUs rkThem)).
Proof.
  unfold shelter_file, shelter_rank, storm_rank, edge_bonus, file_penalty. cbv zeta.
  destruct (nz (Z.land ours (file_bb f)));
    [destruct (backmost_sq Us (Z.land ours (file_bb f)))|];
    cbn [of_option mbind result_bind]; try reflexivity;
    (destruct (nz (Z.land theirs (file_bb f)));
     [destruct (frontmost_sq (opp Us) (Z.land theirs (file_bb f)))|];
     cbn [of_option mbind result_bind]; try reflexivity;
     match goal with |- (if ?c then _ else _) = _ => destruct c end; reflexivity).
Qed.

Lemma relative_rank_sq_range (c : Color) (sq : Square) :
  0 <= sq < 64 -> 0 <= relative_rank_sq c sq < 8.
Proof.
  intros Hs.
  assert (H : forallb (fun sq => (0 <=? relative_rank_sq c sq)
                                 && (relative_rank_sq c sq <? 8)) squares = true)
    by (destruct c; vm_compute; reflexivity).
  pose proof (forallb_squares _ H sq Hs) as H'.
  apply andb_true_iff in H' as [H1 H2]. apply Z.leb_le in H1. apply Z.ltb_lt in H2. lia.
Qed.

Lemma shelter_rank_total (Us : Color) (ours : Bitboard) (f : File) :
  0 <= f < 8 -> exists r, shelter_rank Us ours f = Ok r /\ 0 <= r < 8.
Proof.
  intros Hf. unfold shelter_rank. cbv zeta.
  destruct (nz (Z.land ours (file_bb f))) eqn:E.
  - destruct (backmost_sq_defined Us (Z.land ours (file_bb f))) as [sq Hsq];
      [apply is_bb_land_r, file_bb_spec, Hf|exact E|].
    rewrite Hsq. cbn [of_option mbind result_bind]. eexists. split; [reflexivity|].
    apply relative_rank_sq_range. apply (backmost_sq_Some _ _ _ Hsq).
  - exists RANK_1. split; [reflexivity|unfold RANK_1; lia].
Qed.

Lemma storm_rank_total (Us : Color) (theirs : Bitboard) (f : File) :
  0 <= f < 8 -> exists r, storm_rank Us theirs f = Ok r /\ 0 <= r < 8.
Proof.
  intros Hf. unfold storm_rank. cbv zeta.
  destruct (nz (Z.land theirs (file_bb f))) eqn:E.
  - destruct (frontmost_sq_defined (opp Us) (Z.land theirs (file_bb f))) as [sq Hsq];
      [apply is_bb_land_r, file_bb_spec, Hf|exact E|].
    rewrite Hsq. cbn [of_option mbind result_bind]. eexists. split; [reflexivity|].
    apply relative_rank_sq_range. apply (frontmost_sq_Some _ _ _ Hsq).
  - exists RANK_1. split; [reflexivity|unfold RANK_1; lia].
Qed.

Lemma file_penalty_range (rkUs rkThem : Rank) :
  0 <= rkUs < 8 -> 0 <= rkThem < 8 -> 0 <= file_penalty rkUs rkThem <= 228.
Proof.
  intros Hu Ht.
  assert (H : forallb (fun u => forallb (fun t =>
                (0 <=? file_penalty u t) && (file_penalty u t <=? 228)) files) files = true)
    by (vm_compute; reflexivity).
  rewrite forallb_forall in H.
  assert (Iu : In rkUs files) by (unfold files; cbn; lia).
  assert (It : In rkThem files) by (unfold files; cbn; lia).
  specialize (H rkUs Iu). cbv beta in H. rewrite forallb_forall in H.
  specialize (H rkThem It). cbv beta in H.
  apply andb_true_iff in H as [H1 H2]. apply Z.leb_le in H1, H2. lia.
Qed.

Lemma edge_bonus_file (Us : Color) (ksq : Square) (f : File) (rkThem : Rank) :
  edge_bonus Us ksq f rkThem = true -> file_of ksq = f.
Proof.
  unfold edge_bonus. rewrite !andb_true_iff. intros [[_ H] _]. apply Z.eqb_eq, H.
Qed.

Lemma shelter_file_range (Us : Color) (ours theirs : Bitboard) (ksq : Square) (f : File)
  (safety : Value) :
  0 <= f < 8 ->
  exists v, shelter_file Us ours theirs ksq f safety = Ok v
            /\ safety - 228 <= v <= safety + 200
            /\ (file_of ksq <> f -> v <= safety).
Proof.
  intros Hf. rewrite shelter_file_unfold.
  destruct (shelter_rank_total Us ours f Hf) as (ru & -> & Hu).
  destruct (storm_rank_total Us theirs f Hf) as (rt & -> & Ht).
  cbn [mbind result_bind]. eexists. split; [reflexivity|].
  pose proof (file_penalty_range ru rt Hu Ht) as P.
  destruct (edge_bonus Us ksq f rt) eqn:B.
  - apply edge_bonus_file in B. split; [lia|]. intros N. contradiction.
  - split; [lia|]. intros _. lia.
Qed.

Lemma shelter_storm_range (Us : Color) (pos : Position) (ksq : Square) :
  exists v, shelter_storm Us pos ksq = Ok v /\ -421 <= v <= 463.
Proof.
  unfold shelter_storm. cbv zeta.
  set (kf := Z.max FILE_B (Z.min FILE_G (file_of ksq))).
  assert (Hkf : 1 <= kf <= 6) by (unfold kf, FILE_B, FILE_G; lia).
  set (ours := Z.land _ (pieces_c pos Us)). set (theirs := Z.land _ (pieces_c pos (opp Us))).
  destruct (shelter_file_range Us ours theirs ksq (kf - 1) MaxSafetyBonus)
    as (v1 & -> & R1 & N1); [lia|].
  cbn [mbind result_bind].
  destruct (shelter_file_range Us ours theirs ksq kf v1) as (v2 & -> & R2 & N2); [lia|].
  cbn [mbind result_bind].
  destruct (shelter_file_range Us ours theirs ksq (kf + 1) v2) as (v3 & -> & R3 & N3); [lia|].
  cbn [mbind result_bind]. exists v3. split; [reflexivity|].
  unfold MaxSafetyBonus in *.
  destruct (Z.eq_dec (file_of ksq) (kf - 1)) as [E1|E1];
    destruct (Z.eq_dec (file_of ksq) kf) as [E2|E2];
    destruct (Z.eq_dec (file_of ksq) (kf + 1)) as [E3|E3];
    try specialize (N1 E1); try specialize (N2 E2); try specialize (N3 E3); lia.
Qed.

(** X19.  [shelter_storm] always returns: its bit scans run on non-empty
    files and the three files it looks at are on the board, whatever the king
    square.  Its value lies between -421 and 463, and both are reached: -421
    by three files without own pawn, each with an enemy pawn on its third
    rank; 463 by the bonus of 200, which at most one file can give, and no
    penalty on the other two files. *)
Theorem shelter_storm_is_bounded :
  (forall Us pos ksq, exists v, shelter_storm Us pos ksq = Ok v /\ -421 <= v <= 463)
  /\ shelter_storm WHITE (pawns_position [] [19; 20; 21] 0 1) 4 = Ok (-421)
  /\ shelter_storm WHITE (pawns_position [9; 10] [8; 41; 50] 0 1) 0 = Ok 463.
Proof.
  split; [exact shelter_storm_range|split; vm_compute; reflexivity].
Qed.

(** ** The edge pawn in front of the king *)

Lemma in_front_bb_spec (c : Color) (s : Square) :
  0 <= s < 64 ->
  is_bb (in_front_bb c (rank_of s)) = true
  /\ forall t, 0 <= t < 64 -> Z.testbit (in_front_bb c (rank_of s)) t = ahead c s t.
Proof.
  intros Hs.
  apply (mask_cases (fun s => in_front_bb c (rank_of s)) (fun s t => ahead c s t));
    [destruct c; vm_compute; reflexivity|exact Hs].
Qed.

(** A set bit with no set bit in front of it is the frontmost one. *)
Lemma frontmost_sq_is (c : Color) (b : Bitboard) (i : Square) :
  is_bb b = true -> 0 <= i < 64 -> Z.testbit b i = true ->
  (forall j, 0 <= j < 64 -> Z.testbit b j = true ->
             match c with WHITE => j <= i | BLACK => i <= j end) ->
  frontmost_sq c b = Some i.
Proof.
  intros Hb Hi Bi Front.
  destruct (frontmost_sq_defined c b Hb (nz_testbit _ _ Bi)) as [k Hk].
  rewrite Hk. f_equal. destruct (frontmost_sq_Some _ _ _ Hk) as [Rk Bk].
  specialize (Front k Rk Bk). destruct c; cbn [frontmost_sq] in Hk.
  - apply msb_Some in Hk. destruct Hk as (_ & _ & High).
    destruct (Z_le_gt_dec i k) as [|G]; [lia|].
    rewrite (High i) in Bi by lia. discriminate.
  - apply lsb_Some in Hk. destruct Hk as (_ & _ & Low).
    destruct (Z_le_gt_dec k i) as [|G]; [lia|].
    rewrite (Low i) in Bi by lia. discriminate.
Qed.

(** The geometry of a king behind an edge square: the king stands on the a-
    or h-file, the square in front of it is on the board, on the same file
    and one rank further, and nothing else of the file lies between. *)
Lemma edge_square_geometry (Us : Color) (ksq : Square) :
  0 <= ksq < 64 ->
  Z.testbit Edges (relative_square Us (ksq + pawn_push Us)) = true ->
  0 <= ksq + pawn_push Us < 64
  /\ (file_of ksq = FILE_A \/ file_of ksq = FILE_H)
  /\ file_of (ksq + pawn_push Us) = file_of ksq
  /\ ahead Us ksq (ksq + pawn_push Us) = true
  /\ relative_rank_sq Us ksq = relative_rank_sq Us (ksq + pawn_push Us) - 1
  /\ forall j, 0 <= j < 64 ->
       (ahead Us ksq j || same_rank ksq j) && (file_of j =? file_of ksq) = true ->
       j = ksq \/ match Us with
                  | WHITE => ksq + pawn_push Us <= j
                  | BLACK => j <= ksq + pawn_push Us
                  end.
Proof.
  intros Hk He.
  assert (K : forallb (fun ksq =>
                implb (Z.testbit Edges (relative_square Us (ksq + pawn_push Us)))
                  ((0 <=? ksq + pawn_push Us) && (ksq + pawn_push Us <? 64)
                   && ((file_of ksq =? FILE_A) || (file_of ksq =? FILE_H))
                   && (file_of (ksq + pawn_push Us) =? file_of ksq)
                   && ahead Us ksq (ksq + pawn_push Us)
                   && (relative_rank_sq Us ksq
                       =? relative_rank_sq Us (ksq + pawn_push Us) - 1)
                   && forallb (fun j =>
                        implb ((ahead Us ksq j || same_rank ksq j)
                               && (file_of j =? file_of ksq))
                              ((j =? ksq)
                               || match Us with
                                  | WHITE => ksq + pawn_push Us <=? j
                                  | BLACK => j <=? ksq + pawn_push Us
                                  end)) squares)) squares = true)
    by (destruct Us; vm_compute; reflexivity).
  pose proof (forallb_squares _ K ksq Hk) as K1. cbv beta in K1.
  rewrite He in K1. cbn [implb] in K1. rewrite !andb_true_iff in K1.
  destruct K1 as ((((((R0 & R1) & F) & Fs) & Ah) & Rk) & G).
  apply Z.leb_le in R0. apply Z.ltb_lt in R1. apply Z.eqb_eq in Fs, Rk.
  split; [lia|]. split.
  { apply orb_true_iff in F as [F|F]; apply Z.eqb_eq in F; auto. }
  split; [exact Fs|]. split; [exact Ah|]. split; [exact Rk|].
  intros j Hj Hm. pose proof (forallb_squares _ G j Hj) as G1. cbv beta in G1.
  rewrite Hm in G1. cbn [implb] in G1. apply orb_true_iff in G1 as [E|E].
  - left. apply Z.eqb_eq, E.
  - right. destruct Us; apply Z.leb_le, E.
Qed.

Lemma shelter_pawns_spec (Us : Color) (pos : Position) (ksq : Square) (c : Color) (j : Square) :
  0 <= ksq < 64 -> 0 <= j < 64 ->
  Z.testbit (shelter_pawns Us pos ksq c) j
  = Z.testbit (pieces pos c) j && (ahead Us ksq j || same_rank ksq j).
Proof.
  intros Hk Hj. unfold shelter_pawns, pieces, pieces_pt, pieces_c.
  destruct (in_front_bb_spec Us ksq Hk) as [_ Mi].
  destruct (rank_bb_sq_spec ksq Hk) as [_ Mr].
  rewrite !Z.land_spec, Z.lor_spec, (Mi j Hj), (Mr j Hj).
  destruct (Z.testbit (byTypeBB_PAWN pos) j), (Z.testbit (get c (byColorBB pos)) j),
    (ahead Us ksq j), (same_rank ksq j); reflexivity.
Qed.

(** The enemy pawn in front of the king is the one [shelter_storm] finds on
    the file of the king. *)
Lemma edge_pawn_is_frontmost (Us : Color) (pos : Position) (ksq : Square) :
  0 <= ksq < 64 ->
  Z.testbit (pieces pos (opp Us)) (ksq + pawn_push Us) = true ->
  Z.testbit (pieces pos (opp Us)) ksq = false ->
  Z.testbit Edges (relative_square Us (ksq + pawn_push Us)) = true ->
  frontmost_sq (opp Us) (Z.land (shelter_pawns Us pos ksq (opp Us)) (file_bb (file_of ksq)))
  = Some (ksq + pawn_push Us).
Proof.
  intros Hk Bs Bk He.
  destruct (edge_square_geometry Us ksq Hk He) as (Rs & _ & Fs & Ah & _ & G).
  destruct (file_bb_spec (file_of ksq) (file_of_range ksq)) as [Bf Mf].
  apply frontmost_sq_is; [apply is_bb_land_r, Bf|exact Rs| |].
  - rewrite Z.land_spec, (shelter_pawns_spec Us pos ksq _ _ Hk Rs), Bs, Ah, (Mf _ Rs), Fs.
    rewrite Z.eqb_refl. reflexivity.
  - intros j Hj Bj.
    rewrite Z.land_spec, (shelter_pawns_spec Us pos ksq _ _ Hk Hj), (Mf j Hj) in Bj.
    apply andb_true_iff in Bj as [Bj Fj]. apply andb_true_iff in Bj as [Pj Mj].
    destruct (G j Hj) as [E|E]; [rewrite Mj, Fj; reflexivity| |].
    + subst j. congruence.
    + destruct Us; cbn [opp]; exact E.
Qed.

(** A file other than that of the king gives no bonus: its weakness and its
    storm danger are subtracted. *)
Lemma shelter_file_penalty (Us : Color) (ours theirs : Bitboard) (ksq : Square) (g : File)
  (safety : Value) :
  0 <= g < 8 -> file_of ksq <> g ->
  exists ru rt,
    shelter_rank Us ours g = Ok ru /\ storm_rank Us theirs g = Ok rt
    /\ shelter_file Us ours theirs ksq g safety = Ok (safety - file_penalty ru rt).
Proof.
  intros Hg Hne. rewrite shelter_file_unfold.
  destruct (shelter_rank_total Us ours g Hg) as (ru & Eu & _).
  destruct (storm_rank_total Us theirs g Hg) as (rt & Et & _).
  exists ru, rt. rewrite Eu, Et. cbn [mbind result_bind].
  split; [reflexivity|]. split; [reflexivity|].
  unfold edge_bonus. apply Z.eqb_neq in Hne. rewrite Hne, andb_false_r. reflexivity.
Qed.

Lemma edge_file (Us : Color) (sq : Square) :
  0 <= sq < 64 -> Z.testbit Edges (relative_square Us sq) = true ->
  file_of sq = FILE_A \/ file_of sq = FILE_H.
Proof.
  intros Hs He.
  assert (K : forallb (fun sq => implb (Z.testbit Edges (relative_square Us sq))
                                   ((file_of sq =? FILE_A) || (file_of sq =? FILE_H)))
                squares = true) by (destruct Us; vm_compute; reflexivity).
  pose proof (forallb_squares _ K sq Hs) as K1. cbv beta in K1.
  rewrite He in K1. cbn [implb] in K1.
  apply orb_true_iff in K1 as [F|F]; apply Z.eqb_eq in F; auto.
Qed.

(** The whole of [shelter_storm], when the file of the king gives the bonus:
    the other two files are the inner files, and only they subtract. *)
Lemma shelter_storm_edge_bonus (Us : Color) (pos : Position) (ksq sq : Square) :
  0 <= ksq < 64 ->
  frontmost_sq (opp Us)
    (Z.land (shelter_pawns Us pos ksq (opp Us)) (file_bb (file_of ksq))) = Some sq ->
  Z.testbit Edges (relative_square Us sq) = true ->
  relative_rank_sq Us ksq = relative_rank_sq Us sq - 1 ->
  exists ru1 rt1 ru2 rt2,
    shelter_rank Us (shelter_pawns Us pos ksq Us) (fst (inner_files ksq)) = Ok ru1
    /\ storm_rank Us (shelter_pawns Us pos ksq (opp Us)) (fst (inner_files ksq)) = Ok rt1
    /\ shelter_rank Us (shelter_pawns Us pos ksq Us) (snd (inner_files ksq)) = Ok ru2
    /\ storm_rank Us (shelter_pawns Us pos ksq (opp Us)) (snd (inner_files ksq)) = Ok rt2
    /\ shelter_storm Us pos ksq
       = Ok (MaxSafetyBonus + 200 - file_penalty ru1 rt1 - file_penalty ru2 rt2).
Proof.
  intros Hk Front He Rk.
  set (ours := shelter_pawns Us pos ksq Us) in *.
  set (theirs := shelter_pawns Us pos ksq (opp Us)) in *.
  assert (FA : file_of ksq = FILE_A \/ file_of ksq = FILE_H).
  { destruct (frontmost_sq_Some _ _ _ Front) as [Rs Bs].
    destruct (file_bb_spec (file_of ksq) (file_of_range ksq)) as [_ Mf].
    rewrite Z.land_spec, (Mf sq Rs) in Bs. apply andb_true_iff in Bs as [_ Fs].
    apply Z.eqb_eq in Fs. rewrite <- Fs. exact (edge_file Us sq Rs He). }
  assert (Bonus : forall safety,
            shelter_file Us ours theirs ksq (file_of ksq) safety = Ok (safety + 200)).
  { intros safety.
    apply (shelter_file_edge_bonus Us ours theirs ksq (file_of ksq) safety sq);
      auto using file_of_range. }
  unfold shelter_storm. cbv zeta.
  change (Z.land (Z.land (pieces_pt pos)
                    (Z.lor (in_front_bb Us (rank_of ksq)) (rank_bb_sq ksq)))
                 (pieces_c pos Us)) with ours.
  change (Z.land (Z.land (pieces_pt pos)
                    (Z.lor (in_front_bb Us (rank_of ksq)) (rank_bb_sq ksq)))
                 (pieces_c pos (opp Us))) with theirs.
  unfold inner_files. destruct FA as [FA|FH].
  - rewrite FA in *. change (FILE_A =? FILE_A) with true. cbv iota. cbn [fst snd].
    change (Z.max FILE_B (Z.min FILE_G FILE_A)) with FILE_B.
    change (FILE_B - 1) with FILE_A. rewrite Bonus. cbn [mbind result_bind].
    destruct (shelter_file_penalty Us ours theirs ksq FILE_B (MaxSafetyBonus + 200))
      as (ru1 & rt1 & Eu1 & Et1 & E1);
      [unfold FILE_B; lia|rewrite FA; unfold FILE_A, FILE_B; lia|].
    rewrite E1. cbn [mbind result_bind].
    destruct (shelter_file_penalty Us ours theirs ksq 2
                (MaxSafetyBonus + 200 - file_penalty ru1 rt1))
      as (ru2 & rt2 & Eu2 & Et2 & E2); [lia|rewrite FA; unfold FILE_A; lia|].
    change (FILE_B + 1) with 2. rewrite E2. cbn [mbind result_bind].
    exists ru1, rt1, ru2, rt2. auto.
  - rewrite FH in *. change (FILE_H =? FILE_A) with false. cbv iota. cbn [fst snd].
    change (Z.max FILE_B (Z.min FILE_G FILE_H)) with FILE_G.
    destruct (shelter_file_penalty Us ours theirs ksq 5 MaxSafetyBonus)
      as (ru1 & rt1 & Eu1 & Et1 & E1); [lia|rewrite FH; unfold FILE_H; lia|].
    change (FILE_G - 1) with 5. rewrite E1. cbn [mbind result_bind].
    destruct (shelter_file_penalty Us ours theirs ksq FILE_G
                (MaxSafetyBonus - file_penalty ru1 rt1))
      as (ru2 & rt2 & Eu2 & Et2 & E2);
      [unfold FILE_G; lia|rewrite FH; unfold FILE_H, FILE_G; lia|].
    rewrite E2. cbn [mbind result_bind].
    change (FILE_G + 1) with FILE_H. rewrite Bonus. cbn [mbind result_bind].
    exists ru1, rt1, ru2, rt2. repeat (split; [assumption|]). f_equal. lia.
Qed.

(** C8.  In [shelter_storm], when the enemy pawn that the function finds on
    the file of the king (the frontmost one among those on the rank of the
    king or ahead of it) stands on one of the squares a2, a3, h2, h3 seen
    from the side of the king, and the king is one rank behind it, the file
    of the king adds 200 to [safety] and subtracts neither its shelter
    weakness nor its storm danger: the result is [MaxSafetyBonus] plus 200
    minus the penalties of the other two examined files alone.  On the
    board, this is the case whenever an enemy pawn stands on the square in
    front of the king, that square is such an edge square, and no enemy pawn
    stands on the king square itself. *)
Theorem edge_pawn_in_front_of_king_gives_bonus (Us : Color) (pos : Position)
  (ksq : Square) :
  is_ok ksq = true ->
  (forall sq,
     frontmost_sq (opp Us)
       (Z.land (shelter_pawns Us pos ksq (opp Us)) (file_bb (file_of ksq))) = Some sq ->
     Z.testbit Edges (relative_square Us sq) = true ->
     relative_rank_sq Us ksq = relative_rank_sq Us sq - 1 ->
     bonus_on_king_file Us pos ksq)
  /\ (Z.testbit (pieces pos (opp Us)) (ksq + pawn_push Us) = true ->
      Z.testbit (pieces pos (opp Us)) ksq = false ->
      Z.testbit Edges (relative_square Us (ksq + pawn_push Us)) = true ->
      bonus_on_king_file Us pos ksq).
Proof.
  intros Hok. apply is_ok_spec in Hok. split.
  - intros sq Front He Rk. exact (shelter_storm_edge_bonus Us pos ksq sq Hok Front He Rk).
  - intros Bs Bk He.
    destruct (edge_square_geometry Us ksq Hok He) as (_ & _ & _ & _ & Rk & _).
    exact (shelter_storm_edge_bonus Us pos ksq _ Hok
             (edge_pawn_is_frontmost Us pos ksq Hok Bs Bk He) He Rk).
Qed.

(** White king on a1, black pawn on a2: the a-file gives the bonus, the
    b-file and the c-file, each with a white pawn on its second rank and a
    black pawn far away, subtract nothing. *)
Lemma edge_pawn_in_front_of_king_gives_bonus_witness :
  shelter_storm WHITE (pawns_position [9; 10] [8; 41; 50] 0 1) 0
  = Ok (MaxSafetyBonus + 200).
Proof.
  destruct (proj2 (edge_pawn_in_front_of_king_gives_bonus WHITE
                     (pawns_position [9; 10] [8; 41; 50] 0 1) 0 eq_refl))
    as (ru1 & rt1 & ru2 & rt2 & Eu1 & Et1 & Eu2 & Et2 & E).
  - vm_compute; reflexivity.
  - vm_compute; reflexivity.
  - vm_compute; reflexivity.
  - rewrite E. vm_compute in Eu1, Et1, Eu2, Et2.
    injection Eu1 as <-. injection Et1 as <-. injection Eu2 as <-. injection Et2 as <-.
    vm_compute. reflexivity.
Defined.

(** ** King safety on the mirrored board *)

Lemma in_front_bb_flip (c : Color) (s : Square) :
  0 <= s < 64 ->
  in_front_bb (opp c) (rank_of (flip_sq s)) = flip_bb (in_front_bb c (rank_of s)).
Proof.
  intros Hs.
  by_squares s Hs (fun s => in_front_bb (opp c) (rank_of (flip_sq s))
                            =? flip_bb (in_front_bb c (rank_of s))).
Qed.

Lemma file_bb_flip (f : File) : 0 <= f < 8 -> flip_bb (file_bb f) = file_bb f.
Proof.
  intros Hf.
  assert (H : forallb (fun f => flip_bb (file_bb f) =? file_bb f) files = true)
    by (vm_compute; reflexivity).
  rewrite forallb_forall in H. apply Z.eqb_eq, H. unfold files. cbn. lia.
Qed.

Lemma mirrored_rank (c : Color) (i j : Square) :
  0 <= i < 64 -> 0 <= j < 64 -> rank_of j = 7 - rank_of i ->
  relative_rank_sq (opp c) j = relative_rank_sq c i.
Proof.
  intros Hi Hj E. rewrite <- (relative_rank_sq_flip c i Hi).
  unfold relative_rank_sq. rewrite E, (flip_sq_rank_of i Hi). reflexivity.
Qed.

Lemma shelter_rank_mirror (c : Color) (ours : Bitboard) (f : File) :
  0 <= f < 8 ->
  shelter_rank (opp c) (flip_bb ours) f = shelter_rank c ours f.
Proof.
  intros Hf. unfold shelter_rank. cbv zeta.
  assert (B : is_bb (Z.land ours (file_bb f)) = true)
    by (apply is_bb_land_r, file_bb_spec, Hf).
  replace (Z.land (flip_bb ours) (file_bb f)) with (flip_bb (Z.land ours (file_bb f)))
    by (rewrite flip_bb_land, (file_bb_flip f Hf); reflexivity).
  rewrite (nz_flip_bb _ B).
  destruct (nz (Z.land ours (file_bb f))); [|reflexivity].
  pose proof (backmost_sq_flip c (Z.land ours (file_bb f))) as M. unfold mirrored_scan in M.
  destruct (backmost_sq c (Z.land ours (file_bb f))) as [i|] eqn:S.
  - destruct M as (j & -> & Hj & Hr). cbn [of_option mbind result_bind]. f_equal.
    apply mirrored_rank; [apply (backmost_sq_Some _ _ _ S)|exact Hj|exact Hr].
  - rewrite M. reflexivity.
Qed.

Lemma storm_rank_mirror (c : Color) (theirs : Bitboard) (f : File) :
  0 <= f < 8 ->
  storm_rank (opp c) (flip_bb theirs) f = storm_rank c theirs f.
Proof.
  intros Hf. unfold storm_rank. cbv zeta.
  assert (B : is_bb (Z.land theirs (file_bb f)) = true)
    by (apply is_bb_land_r, file_bb_spec, Hf).
  replace (Z.land (flip_bb theirs) (file_bb f)) with (flip_bb (Z.land theirs (file_bb f)))
    by (rewrite flip_bb_land, (file_bb_flip f Hf); reflexivity).
  rewrite (nz_flip_bb _ B).
  destruct (nz (Z.land theirs (file_bb f))); [|reflexivity].
  pose proof (frontmost_sq_flip (opp c) (Z.land theirs (file_bb f))) as M.
  unfold mirrored_scan in M.
  destruct (frontmost_sq (opp c) (Z.land theirs (file_bb f))) as [i|] eqn:S.
  - destruct M as (j & -> & Hj & Hr). cbn [of_option mbind result_bind]. f_equal.
    apply mirrored_rank; [apply (frontmost_sq_Some _ _ _ S)|exact Hj|exact Hr].
  - rewrite M. reflexivity.
Qed.

Lemma shelter_file_mirror (c : Color) (ours theirs : Bitboard) (ksq : Square) (f : File)
  (safety : Value) :
  0 <= f < 8 -> 0 <= ksq < 64 ->
  shelter_file (opp c) (flip_bb ours) (flip_bb theirs) (flip_sq ksq) f safety
  = shelter_file c ours theirs ksq f safety.
Proof.
  intros Hf Hk. rewrite !shelter_file_unfold.
  rewrite (shelter_rank_mirror c ours f Hf), (storm_rank_mirror c theirs f Hf).
  unfold edge_bonus. rewrite (flip_sq_file ksq Hk), (relative_rank_sq_flip c ksq Hk).
  reflexivity.
Qed.

Lemma is_mirror_boards (pos mpos : Position) (c : Color) :
  is_mirror pos mpos = true ->
  pieces_pt mpos = flip_bb (pieces_pt pos)
  /\ pieces_c mpos (opp c) = flip_bb (pieces_c pos c)
  /\ st_castlingRights mpos = flip_castling (st_castlingRights pos).
Proof.
  unfold is_mirror. rewrite !andb_true_iff.
  intros [[[[[[HT HW] HB] _] _] _] HC].
  apply Z.eqb_eq in HT, HW, HB, HC. unfold pieces_pt.
  split; [exact HT|]. split; [|exact HC]. destruct c; cbn [opp]; assumption.
Qed.

Lemma shelter_storm_mirror (c : Color) (pos mpos : Position) (ksq : Square) :
  is_mirror pos mpos = true -> 0 <= ksq < 64 ->
  shelter_storm (opp c) mpos (flip_sq ksq) = shelter_storm c pos ksq.
Proof.
  intros Hm Hk. unfold shelter_storm. cbv zeta.
  destruct (is_mirror_boards pos mpos c Hm) as (HT & HU & _).
  destruct (is_mirror_boards pos mpos (opp c) Hm) as (_ & HV & _).
  rewrite opp_involutive in *.
  rewrite HT, HU, HV, (in_front_bb_flip c ksq Hk), (rank_bb_sq_flip ksq Hk).
  rewrite <- flip_bb_lor, <- !flip_bb_land, (flip_sq_file ksq Hk).
  set (kf := Z.max FILE_B (Z.min FILE_G (file_of ksq))).
  assert (Hkf : 1 <= kf <= 6) by (unfold kf, FILE_B, FILE_G; lia).
  rewrite (shelter_file_mirror c _ _ ksq (kf - 1)) by lia.
  destruct (shelter_file c _ _ ksq (kf - 1) MaxSafetyBonus) as [v1|];
    cbn [mbind result_bind]; [|reflexivity].
  rewrite (shelter_file_mirror c _ _ ksq kf) by lia.
  destruct (shelter_file c _ _ ksq kf v1) as [v2|]; cbn [mbind result_bind]; [|reflexivity].
  rewrite (shelter_file_mirror c _ _ ksq (kf + 1)) by lia. reflexivity.
Qed.

(** X20.  King shelter is colour-blind: on a mirror of the position, the
    other side, with its king on the vertically flipped square, gets the same
    [shelter_storm] value. *)
Theorem shelter_storm_of_the_mirror (c : Color) (pos mpos : Position) (ksq : Square) :
  is_mirror pos mpos = true -> is_ok ksq = true ->
  shelter_storm (opp c) mpos (flip_sq ksq) = shelter_storm c pos ksq.
Proof.
  intros Hm Hk. apply shelter_storm_mirror; [exact Hm|apply is_ok_spec, Hk].
Qed.

Lemma shelter_storm_of_the_mirror_witness :
  shelter_storm BLACK (mirror 9 (sample_position 7)) (flip_sq 2)
  = shelter_storm WHITE (sample_position 7) 2.
Proof.
  apply (shelter_storm_of_the_mirror WHITE (sample_position 7)
           (mirror 9 (sample_position 7)) 2); vm_compute; reflexivity.
Defined.

Lemma DistanceRingsBB_flip (ksq : Square) (d : Z) :
  0 <= ksq < 64 -> 0 <= d < 8 ->
  DistanceRingsBB (flip_sq ksq) d = flip_bb (DistanceRingsBB ksq d).
Proof.
  intros Hk Hd.
  assert (H : forallb (fun d => forallb (fun s =>
                DistanceRingsBB (flip_sq s) d =? flip_bb (DistanceRingsBB s d)) squares)
                files = true) by (vm_compute; reflexivity).
  rewrite forallb_forall in H.
  assert (Id : In d files) by (unfold files; cbn; lia).
  specialize (H d Id). cbv beta in H.
  apply Z.eqb_eq. exact (forallb_squares _ H ksq Hk).
Qed.

Lemma ring_search_mirror (rings : nat) (ksq : Square) (pawns : Bitboard) (d : Z) :
  0 <= ksq < 64 -> 0 <= d -> d + Z.of_nat rings <= 8 ->
  ring_search rings (flip_sq ksq) (flip_bb pawns) d = ring_search rings ksq pawns d.
Proof.
  intros Hk. revert d. induction rings as [|n IH]; intros d Hd Hn; [reflexivity|].
  cbn [ring_search].
  assert (Hd8 : 0 <= d < 8) by lia.
  rewrite (DistanceRingsBB_flip ksq d Hk Hd8), <- flip_bb_land.
  rewrite nz_flip_bb
    by (apply is_bb_land_l; apply (DistanceRingsBB_spec ksq d Hk Hd8)).
  destruct (nz (Z.land (DistanceRingsBB ksq d) pawns)); [reflexivity|].
  apply IH; lia.
Qed.

Lemma can_castle_mirror (pos mpos : Position) (c : Color) (cs : CastlingSide) :
  st_castlingRights mpos = flip_castling (st_castlingRights pos) ->
  nz (can_castle mpos (MakeCastling_right (opp c) cs))
  = nz (can_castle pos (MakeCastling_right c cs)).
Proof.
  intros HC. unfold can_castle. rewrite HC. unfold flip_castling.
  set (cr := st_castlingRights pos).
  assert (B : forall k, 0 <= k -> nz (Z.land cr (SquareBB k)) = Z.testbit cr k)
    by (intros k Hk; apply nz_land_SquareBB; exact Hk).
  assert (F : forall k, 0 <= k ->
            nz (Z.land (Z.lor (Z.shiftl (Z.land cr 3) 2) (Z.land (Z.shiftr cr 2) 3))
                       (SquareBB k))
            = Z.testbit (Z.lor (Z.shiftl (Z.land cr 3) 2) (Z.land (Z.shiftr cr 2) 3)) k)
    by (intros k Hk; apply nz_land_SquareBB; exact Hk).
  destruct c, cs; cbn [opp MakeCastling_right].
  - change 4 with (SquareBB 2). change 1 with (SquareBB 0). rewrite F, B by lia.
    rewrite Z.lor_spec, Z.shiftl_spec, !Z.land_spec, Z.shiftr_spec by lia.
    cbn. rewrite andb_true_r, andb_false_r, orb_false_r. reflexivity.
  - change 8 with (SquareBB 3). change 2 with (SquareBB 1). rewrite F, B by lia.
    rewrite Z.lor_spec, Z.shiftl_spec, !Z.land_spec, Z.shiftr_spec by lia.
    cbn. rewrite andb_true_r, andb_false_r, orb_false_r. reflexivity.
  - change 1 with (SquareBB 0). change 4 with (SquareBB 2). rewrite F, B by lia.
    rewrite Z.lor_spec, Z.shiftl_spec, !Z.land_spec, Z.shiftr_spec by lia.
    cbn. rewrite andb_true_r. reflexivity.
  - change 2 with (SquareBB 1). change 8 with (SquareBB 3). rewrite F, B by lia.
    rewrite Z.lor_spec, Z.shiftl_spec, !Z.land_spec, Z.shiftr_spec by lia.
    cbn. rewrite andb_true_r. reflexivity.
Qed.

Lemma do_king_safety_score (Us : Color) (pos : Position) (ksq : Square) (e : Entry) :
  result_map fst (do_king_safety Us pos ksq e) = king_score Us pos ksq.
Proof.
  rewrite do_king_safety_unfold. cbv zeta. unfold king_score, king_distance, king_bonus.
  rewrite get_set_minKingPawnDistance.
  destruct (nz (pieces pos Us));
    [destruct (ring_search 8 ksq (pieces pos Us) 0) as [d|]|];
    cbn [mbind result_bind result_map]; try reflexivity;
    rewrite ?get_set_minKingPawnDistance;
    (destruct (relative_rank_sq Us ksq >? RANK_4); [reflexivity|]);
    (destruct (shelter_storm Us pos ksq) as [b0|]; cbn [mbind result_bind]; [|reflexivity]);
    (destruct (nz (can_castle pos (MakeCastling_right Us KING_SIDE)));
     [destruct (shelter_storm Us pos (relative_square Us SQ_G1)) as [b1|]|];
     cbn [mbind result_bind]; try reflexivity);
    (destruct (nz (can_castle pos (MakeCastling_right Us QUEEN_SIDE)));
     [destruct (shelter_storm Us pos (relative_square Us SQ_C1)) as [b2|]|];
     cbn [mbind result_bind]; reflexivity).
Qed.

Lemma relative_square_flip (c : Color) (s : Square) :
  0 <= s < 64 -> relative_square (opp c) s = flip_sq (relative_square c s).
Proof.
  intros Hs.
  by_squares s Hs (fun s => relative_square (opp c) s =? flip_sq (relative_square c s)).
Qed.

Lemma king_bonus_mirror (c : Color) (pos mpos : Position) (ksq : Square) :
  is_mirror pos mpos = true -> 0 <= ksq < 64 ->
  king_bonus (opp c) mpos (flip_sq ksq) = king_bonus c pos ksq.
Proof.
  intros Hm Hk. unfold king_bonus.
  destruct (is_mirror_boards pos mpos c Hm) as (_ & _ & HC).
  rewrite (shelter_storm_mirror c pos mpos ksq Hm Hk).
  rewrite !(can_castle_mirror pos mpos c _ HC).
  rewrite (relative_square_flip c SQ_G1), (relative_square_flip c SQ_C1)
    by (unfold SQ_G1, SQ_C1; lia).
  rewrite !(shelter_storm_mirror c pos mpos)
    by (try exact Hm; apply relative_square_range; unfold SQ_G1, SQ_C1; lia).
  reflexivity.
Qed.

Lemma king_score_mirror (c : Color) (pos mpos : Position) (ksq : Square) :
  wf_position pos = true -> is_mirror pos mpos = true -> 0 <= ksq < 64 ->
  king_score (opp c) mpos (flip_sq ksq) = king_score c pos ksq.
Proof.
  intros Hwf Hm Hk. unfold king_score, king_distance.
  pose proof (is_mirror_pieces pos mpos (opp c) Hm) as HP. rewrite opp_involutive in HP.
  rewrite HP, (nz_flip_bb _ (wf_position_pieces pos c Hwf)).
  rewrite (ring_search_mirror 8 ksq (pieces pos c) 0 Hk) by (cbn; lia).
  rewrite (relative_rank_sq_flip c ksq Hk), (king_bonus_mirror c pos mpos ksq Hm Hk).
  reflexivity.
Qed.

(** X21.  King safety is colour-blind: on a mirror of a well-formed
    position, [do_king_safety] for the other side, with its king on the
    vertically flipped square, returns the same score, whatever the entries
    the two calls start from. *)
Theorem king_safety_of_the_mirror (c : Color) (pos mpos : Position) (ksq : Square)
  (e e' : Entry) :
  wf_position pos = true -> is_mirror pos mpos = true -> is_ok ksq = true ->
  result_map fst (do_king_safety (opp c) mpos (flip_sq ksq) e')
  = result_map fst (do_king_safety c pos ksq e).
Proof.
  intros Hwf Hm Hk. rewrite !do_king_safety_score.
  apply king_score_mirror; [exact Hwf|exact Hm|apply is_ok_spec, Hk].
Qed.

Lemma king_safety_of_the_mirror_witness :
  result_map fst (do_king_safety BLACK (mirror 9 (start_position 1)) (flip_sq 4) zero_entry)
  = result_map fst (do_king_safety WHITE (start_position 1) 4 zero_entry).
Proof.
  apply (king_safety_of_the_mirror WHITE (start_position 1) (mirror 9 (start_position 1)) 4);
    vm_compute; reflexivity.
Defined.

(** ** King safety and the right to castle *)

Lemma king_distance_total (Us : Color) (pos : Position) (ksq : Square) :
  wf_position pos = true -> wf_king pos Us ksq = true ->
  exists d, king_distance Us pos ksq = Ok d /\ 0 <= d <= 7.
Proof.
  intros Hwf Hk. unfold king_distance. apply wf_king_spec in Hk as [Hr Hoff].
  destruct (nz (pieces pos Us)) eqn:N.
  - destruct (ring_search_closest ksq (pieces pos Us) (wf_position_pieces pos Us Hwf)
                N Hr Hoff) as (d & -> & Hd & _).
    exists d. split; [reflexivity|lia].
  - exists 0. split; [reflexivity|lia].
Qed.

Lemma no_castling_right (pos : Position) (Us : Color) (cs : CastlingSide) :
  can_castle_c pos Us = 0 -> nz (can_castle pos (MakeCastling_right Us cs)) = false.
Proof.
  unfold can_castle_c, can_castle. intros H. apply nz_false.
  revert H. apply land_sub_0. intros i Hi.
  assert (Hi0 : 0 <= i).
  { destruct (Z.ltb_spec i 0); [|lia]. rewrite Z.testbit_neg_r in Hi by lia. discriminate. }
  destruct Us, cs; cbn [MakeCastling_right color_index] in *.
  - change 1 with (SquareBB 0) in Hi. rewrite SquareBB_spec in Hi by lia.
    apply Z.eqb_eq in Hi. subst i. reflexivity.
  - change 2 with (SquareBB 1) in Hi. rewrite SquareBB_spec in Hi by lia.
    apply Z.eqb_eq in Hi. subst i. reflexivity.
  - change 4 with (SquareBB 2) in Hi. rewrite SquareBB_spec in Hi by lia.
    apply Z.eqb_eq in Hi. subst i. reflexivity.
  - change 8 with (SquareBB 3) in Hi. rewrite SquareBB_spec in Hi by lia.
    apply Z.eqb_eq in Hi. subst i. reflexivity.
Qed.

(** X22.  For a king on its first four ranks, on a well-formed position:
    [do_king_safety] returns; the midgame term is at least the shelter of the
    king square, and at least the shelter of g1 (c1), seen from the side of
    the king, when the king may still castle short (long): the right to
    castle can only raise the bonus.  Without any right it is the shelter of
    the king square.  The midgame term is at most 463, and the endgame term,
    -16 times the distance to the closest own pawn, is between -112 and 0. *)
Theorem castling_can_only_raise_the_bonus (Us : Color) (pos : Position) (ksq : Square)
  (e : Entry) :
  wf_position pos = true -> wf_king pos Us ksq = true ->
  relative_rank_sq Us ksq <= RANK_4 ->
  exists sc e' b0 bg bc,
    do_king_safety Us pos ksq e = Ok (sc, e')
    /\ shelter_storm Us pos ksq = Ok b0
    /\ shelter_storm Us pos (relative_square Us SQ_G1) = Ok bg
    /\ shelter_storm Us pos (relative_square Us SQ_C1) = Ok bc
    /\ b0 <= mg_value sc <= 463
    /\ (can_castle pos (MakeCastling_right Us KING_SIDE) <> 0 -> bg <= mg_value sc)
    /\ (can_castle pos (MakeCastling_right Us QUEEN_SIDE) <> 0 -> bc <= mg_value sc)
    /\ (can_castle_c pos Us = 0 -> mg_value sc = b0)
    /\ -112 <= eg_value sc <= 0.
Proof.
  intros Hwf Hk Hr.
  pose proof (do_king_safety_score Us pos ksq e) as S.
  destruct (king_distance_total Us pos ksq Hwf Hk) as (d & Hd & Rd).
  destruct (shelter_storm_range Us pos ksq) as (b0 & H0 & R0).
  destruct (shelter_storm_range Us pos (relative_square Us SQ_G1)) as (bg & Hg & Rg).
  destruct (shelter_storm_range Us pos (relative_square Us SQ_C1)) as (bc & Hc & Rc).
  unfold king_score, king_bonus in S. rewrite Hd, H0, Hg, Hc in S.
  cbn [mbind result_bind] in S.
  destruct (Z.gtb_spec (relative_rank_sq Us ksq) RANK_4) as [G|_]; [lia|].
  destruct (do_king_safety Us pos ksq e) as [[sc e']|]; cbn [result_map fst] in S.
  2:{ destruct (nz (can_castle pos (MakeCastling_right Us KING_SIDE))),
               (nz (can_castle pos (MakeCastling_right Us QUEEN_SIDE)));
        discriminate S. }
  exists sc, e', b0, bg, bc. split; [reflexivity|].
  split; [exact H0|]. split; [exact Hg|]. split; [exact Hc|].
  assert (E : sc = make_score
                     (let b := if nz (can_castle pos (MakeCastling_right Us KING_SIDE))
                               then Z.max b0 bg else b0 in
                      if nz (can_castle pos (MakeCastling_right Us QUEEN_SIDE))
                      then Z.max b bc else b)
                     (-16 * d)).
  { destruct (nz (can_castle pos (MakeCastling_right Us KING_SIDE)));
      destruct (nz (can_castle pos (MakeCastling_right Us QUEEN_SIDE)));
      cbn [mbind result_bind] in S; injection S as ->; reflexivity. }
  rewrite E. cbn [mg_value eg_value]. cbv zeta. clear S E.
  split; [|split; [|split; [|split; [|lia]]]].
  - destruct (nz (can_castle pos (MakeCastling_right Us KING_SIDE)));
      destruct (nz (can_castle pos (MakeCastling_right Us QUEEN_SIDE))); lia.
  - intros N. apply nz_true in N. rewrite N.
    destruct (nz (can_castle pos (MakeCastling_right Us QUEEN_SIDE))); lia.
  - intros N. apply nz_true in N. rewrite N.
    destruct (nz (can_castle pos (MakeCastling_right Us KING_SIDE))); lia.
  - intros CC. rewrite !(no_castling_right pos Us _ CC). reflexivity.
Qed.

Lemma castling_can_only_raise_the_bonus_witness :
  exists sc e',
    do_king_safety WHITE (start_position 1) 4 zero_entry = Ok (sc, e')
    /\ -112 <= eg_value sc <= 0.
Proof.
  destruct (castling_can_only_raise_the_bonus WHITE (start_position 1) 4 zero_entry)
    as (sc & e' & b0 & bg & bc & H & _ & _ & _ & _ & _ & _ & _ & R).
  - vm_compute; reflexivity.
  - vm_compute; reflexivity.
  - vm_compute. discriminate.
  - exists sc, e'. split; [exact H|exact R].
Defined.

(** ** What [do_king_safety] writes *)

Lemma do_king_safety_entry (Us : Color) (pos : Position) (ksq : Square) (e e' : Entry)
  (sc : Score) :
  do_king_safety Us pos ksq e = Ok (sc, e') ->
  e' = set_minKingPawnDistance Us (get Us (minKingPawnDistance e'))
         (set_castlingRights Us (can_castle_c pos Us) (set_kingSquares Us ksq e))
  /\ eg_value sc = -16 * get Us (minKingPawnDistance e').
Proof.
  rewrite do_king_safety_unfold. cbv zeta.
  set (e0 := set_minKingPawnDistance Us 0 _).
  assert (F : forall d, set_minKingPawnDistance Us d e0
                        = set_minKingPawnDistance Us d
                            (set_castlingRights Us (can_castle_c pos Us)
                               (set_kingSquares Us ksq e)))
    by (intros d; unfold e0; entry_cases e Us; reflexivity).
  assert (K : forall e1 : Entry,
            (exists d, e1 = set_minKingPawnDistance Us d e0) ->
            (if relative_rank_sq Us ksq >? RANK_4
             then Ok (make_score 0 (-16 * get Us (minKingPawnDistance e1)), e1)
             else
               shelter_storm Us pos ksq ≫= (fun bonus : Z =>
               (if nz (can_castle pos (MakeCastling_right Us KING_SIDE))
                then shelter_storm Us pos (relative_square Us SQ_G1)
                     ≫= (fun b' : Z => Ok (Z.max bonus b'))
                else Ok bonus) ≫= (fun bonus0 : Z =>
               (if nz (can_castle pos (MakeCastling_right Us QUEEN_SIDE))
                then shelter_storm Us pos (relative_square Us SQ_C1)
                     ≫= (fun b' : Z => Ok (Z.max bonus0 b'))
                else Ok bonus0) ≫= (fun bonus1 : Z =>
               Ok (make_score bonus1 (-16 * get Us (minKingPawnDistance e1)), e1)))))
            = Ok (sc, e') ->
            e' = set_minKingPawnDistance Us (get Us (minKingPawnDistance e'))
                   (set_castlingRights Us (can_castle_c pos Us) (set_kingSquares Us ksq e))
            /\ eg_value sc = -16 * get Us (minKingPawnDistance e')).
  { intros e1 [d ->] H.
    assert (R : e' = set_minKingPawnDistance Us d e0
                /\ eg_value sc
                   = -16 * get Us (minKingPawnDistance (set_minKingPawnDistance Us d e0))).
    { destruct (relative_rank_sq Us ksq >? RANK_4).
      - injection H as <- <-. split; reflexivity.
      - destruct (shelter_storm Us pos ksq) as [b0|]; cbn [mbind result_bind] in H;
          [|discriminate].
        destruct (nz (can_castle pos (MakeCastling_right Us KING_SIDE)));
          [destruct (shelter_storm Us pos (relative_square Us SQ_G1)) as [b1|]|];
          cbn [mbind result_bind] in H; try discriminate;
          (destruct (nz (can_castle pos (MakeCastling_right Us QUEEN_SIDE)));
           [destruct (shelter_storm Us pos (relative_square Us SQ_C1)) as [b2|]|];
           cbn [mbind result_bind] in H; try discriminate);
          injection H as <- <-; split; reflexivity. }
    destruct R as [-> R]. rewrite R, get_set_minKingPawnDistance, F. split; reflexivity. }
  destruct (nz (pieces pos Us)).
  - destruct (ring_search 8 ksq (pieces pos Us) (get Us (minKingPawnDistance e0))) as [d|];
      cbn [mbind result_bind]; [|discriminate].
    apply K. exists d. reflexivity.
  - cbn [mbind result_bind]. apply K. exists 0. unfold e0. entry_cases e Us; reflexivity.
Qed.

(** X23.  [do_king_safety<Us>] records what the result depends on, the king
    square and the castling rights of [Us], next to the distance to the
    closest pawn, whose multiple the endgame term is; it writes nothing else:
    the key, the value, the pawn slots of both sides, the stored king-safety
    scores and the king slots of the other side are as before. *)
Theorem do_king_safety_records_the_king (Us : Color) (pos : Position) (ksq : Square)
  (e e' : Entry) (sc : Score) :
  do_king_safety Us pos ksq e = Ok (sc, e') ->
  get Us (kingSquares e') = ksq
  /\ get Us (castlingRights e') = can_castle_c pos Us
  /\ eg_value sc = -16 * get Us (minKingPawnDistance e')
  /\ key e' = key e /\ value e' = value e /\ kingSafety e' = kingSafety e
  /\ king_slots (opp Us) e' = king_slots (opp Us) e
  /\ passedPawns e' = passedPawns e /\ pawnAttacks e' = pawnAttacks e
  /\ semiopenFiles e' = semiopenFiles e /\ pawnSpan e' = pawnSpan e
  /\ pawnsOnSquares e' = pawnsOnSquares e.
Proof.
  intros H. apply do_king_safety_entry in H. destruct H as [H ->].
  rewrite H. clear H. generalize (get Us (minKingPawnDistance e')). intros d.
  unfold king_slots. entry_cases e Us; cbn; repeat split; reflexivity.
Qed.

Lemma do_king_safety_records_the_king_witness :
  exists sc e',
    do_king_safety BLACK (start_position 1) 60 zero_entry = Ok (sc, e')
    /\ get BLACK (kingSquares e') = 60
    /\ get BLACK (castlingRights e') = can_castle_c (start_position 1) BLACK.
Proof.
  destruct (do_king_safety BLACK (start_position 1) 60 zero_entry) as [[sc e']|] eqn:E;
    [|vm_compute in E; discriminate].
  exists sc, e'. split; [reflexivity|].
  pose proof (do_king_safety_records_the_king _ _ _ _ _ _ E) as H.
  split; [apply H|apply H].
Defined.

(** ** The entry of the mirror *)

Lemma some_pawn_flip (a : Bitboard) (p : Square -> bool) :
  some_pawn (flip_bb a) p = some_pawn a (fun s => p (flip_sq s)).
Proof.
  apply eq_true_iff_eq. rewrite !some_pawn_true. split.
  - intros (t & Ht & B & P). exists (flip_sq t). split; [apply flip_sq_range, Ht|].
    rewrite flip_bb_spec in B by exact Ht. rewrite flip_sq_involutive. auto.
  - intros (s & Hs & B & P). exists (flip_sq s). split; [apply flip_sq_range, Hs|].
    rewrite flip_bit by exact Hs. auto.
Qed.

Lemma existsb_map {A B : Type} (f : A -> B) (p : B -> bool) (l : list A) :
  existsb p (map f l) = existsb (fun a => p (f a)) l.
Proof. induction l as [|a l IH]; [reflexivity|]. cbn. rewrite IH. reflexivity. Qed.

Lemma flip_sq_eqb (s t : Square) :
  0 <= s < 64 -> 0 <= t < 64 -> (flip_sq s =? t) = (s =? flip_sq t).
Proof.
  intros Hs Ht. apply eq_true_iff_eq. rewrite !Z.eqb_eq. split.
  - intros <-. symmetry. apply flip_sq_involutive.
  - intros ->. apply flip_sq_involutive.
Qed.

Lemma candidate_mirror (c : Color) (ours theirs : Bitboard) (s : Square) :
  is_bb ours = true -> is_bb theirs = true -> 0 <= s < 64 ->
  candidate (opp c) (flip_bb ours) (flip_bb theirs) (flip_sq s) = candidate c ours theirs s.
Proof.
  intros Bo Bt Hs. unfold candidate.
  rewrite (passed_pawn_mask_flip c s Hs), (forward_bb_flip c s Hs), <- !flip_bb_land.
  rewrite !nz_flip_bb by (apply is_bb_land_l; assumption). reflexivity.
Qed.

(** A scan of the mirrored pawn list is a scan of the list, square by
    flipped square. *)
Lemma existsb_mirror_list (c : Color) (pos mpos : Position) (p : Square -> bool) :
  is_mirror pos mpos = true ->
  existsb p (list_PAWN mpos (opp c)) = existsb (fun s => p (flip_sq s)) (list_PAWN pos c).
Proof.
  intros Hm. rewrite <- (existsb_map flip_sq p).
  apply existsb_Permutation, Permutation_sym, is_mirror_list, Hm.
Qed.

Lemma mirror_list_range (c : Color) (pos mpos : Position) :
  wf_position pos = true -> is_mirror pos mpos = true ->
  forall s, In s (list_PAWN mpos (opp c)) -> 0 <= s < 64.
Proof.
  intros Hwf Hm s Hs.
  apply (Permutation_in _ (Permutation_sym (is_mirror_list pos mpos c Hm))) in Hs.
  apply in_map_iff in Hs. destruct Hs as (x & <- & Hx).
  apply flip_sq_range, (wf_position_squares pos c Hwf x Hx).
Qed.

Lemma attack_shifts_is_bb (c : Color) (b : Bitboard) :
  is_bb (Z.lor (shift_bb (match c with WHITE => DELTA_NE | BLACK => DELTA_SW end) b)
               (shift_bb (match c with WHITE => DELTA_NW | BLACK => DELTA_SE end) b)) = true.
Proof.
  destruct c.
  - apply is_bb_lor; apply u64_is_bb.
  - apply is_bb_lor; (apply is_bb_shiftr; [apply is_bb_land_r, bb_not_is_bb|]);
      unfold DELTA_SW, DELTA_SE; cbn; lia.
Qed.

Lemma attack_shifts_mirror (c : Color) (b : Bitboard) :
  Z.lor (shift_bb (match opp c with WHITE => DELTA_NE | BLACK => DELTA_SW end) (flip_bb b))
        (shift_bb (match opp c with WHITE => DELTA_NW | BLACK => DELTA_SE end) (flip_bb b))
  = flip_bb
      (Z.lor (shift_bb (match c with WHITE => DELTA_NE | BLACK => DELTA_SW end) b)
             (shift_bb (match c with WHITE => DELTA_NW | BLACK => DELTA_SE end) b)).
Proof.
  apply bb_ext; [apply attack_shifts_is_bb|apply flip_bb_is_bb|].
  intros t Ht. rewrite flip_bb_spec by exact Ht.
  rewrite (shifted_pawns_attack (opp c) (flip_bb b) t Ht).
  rewrite (shifted_pawns_attack c b (flip_sq t) (flip_sq_range t Ht)).
  rewrite some_pawn_flip. apply some_pawn_ext. intros s Hs.
  rewrite (pawn_attacks_bb_flip c s Hs). apply flip_bb_spec, Ht.
Qed.

Lemma squares_flipped : Permutation (map flip_sq squares) squares.
Proof. apply same_squares_Permutation. vm_compute. reflexivity. Qed.

Lemma filter_map_swap {A B : Type} (f : A -> B) (p : B -> bool) (l : list A) :
  List.filter p (map f l) = map f (List.filter (fun a => p (f a)) l).
Proof.
  induction l as [|a l IH]; [reflexivity|]. cbn.
  destruct (p (f a)); cbn; rewrite IH; reflexivity.
Qed.

Lemma filter_Permutation {A : Type} (p : A -> bool) (l l' : list A) :
  Permutation l l' -> Permutation (List.filter p l) (List.filter p l').
Proof.
  induction 1 as [|x l l' _ IH|x y l|l l' l'' _ IH1 _ IH2]; cbn.
  - constructor.
  - destruct (p x); [constructor|]; exact IH.
  - destruct (p x), (p y); try apply Permutation_refl. apply perm_swap.
  - exact (Permutation_trans IH1 IH2).
Qed.

Lemma popcount_flip (b : Bitboard) : popcount (flip_bb b) = popcount b.
Proof.
  unfold popcount. f_equal.
  rewrite (filter_ext_in (Z.testbit (flip_bb b)) (fun s => Z.testbit b (flip_sq s)))
    by (intros s Hs; apply flip_bb_spec, squares_spec, Hs).
  transitivity (length (List.filter (Z.testbit b) (map flip_sq squares))).
  - rewrite filter_map_swap. symmetry. apply length_map.
  - apply Permutation_length, filter_Permutation, squares_flipped.
Qed.

Lemma light_squares_flip : flip_bb (bb_not DarkSquares) = DarkSquares.
Proof. vm_compute. reflexivity. Qed.

(** X24.  The entry of the mirror is the mirror of the entry: on a mirror of
    a well-formed position, [evaluate] for the other side returns the same
    value, and leaves the passed pawns and the attacked squares upside down,
    the same semi-open files and pawn span, and the light-square pawns of the
    position as its dark-square pawns. *)
Theorem evaluate_of_the_mirror (c : Color) (pos mpos : Position) (e e1 e' : Entry)
  (v : Score) :
  wf_position pos = true -> is_mirror pos mpos = true ->
  evaluate c pos e = Ok (v, e1) ->
  exists e1',
    evaluate (opp c) mpos e' = Ok (v, e1')
    /\ get (opp c) (passedPawns e1') = flip_bb (get c (passedPawns e1))
    /\ get (opp c) (pawnAttacks e1') = flip_bb (get c (pawnAttacks e1))
    /\ get (opp c) (semiopenFiles e1') = get c (semiopenFiles e1)
    /\ get (opp c) (pawnSpan e1') = get c (pawnSpan e1)
    /\ get BLACK (get (opp c) (pawnsOnSquares e1'))
       = popcount (Z.land (pieces pos c) (bb_not DarkSquares))
    /\ get BLACK (get (opp c) (pawnsOnSquares e1'))
       + get WHITE (get (opp c) (pawnsOnSquares e1'))
       = get BLACK (get c (pawnsOnSquares e1)) + get WHITE (get c (pawnsOnSquares e1)).
Proof.
  intros Hwf Hm H.
  destruct (evaluate_mirror c pos mpos e e1 e' v Hwf Hm H) as [e1' H'].
  exists e1'. split; [exact H'|].
  pose proof (wf_position_squares pos c Hwf) as Hr.
  pose proof (mirror_list_range c pos mpos Hwf Hm) as Hr'.
  destruct (evaluate_Ok c pos e e1 v Hr H) as (_ & _ & So & Sp & Pp & _).
  destruct (evaluate_Ok (opp c) mpos e' e1' v Hr' H') as (_ & _ & So' & Sp' & Pp' & _).
  pose proof (is_mirror_pieces pos mpos (opp c) Hm) as Ours. rewrite opp_involutive in Ours.
  pose proof (is_mirror_pieces pos mpos c Hm) as Theirs.
  pose proof (wf_position_pieces pos c Hwf) as Bo.
  pose proof (wf_position_pieces pos (opp c) Hwf) as Bt.
  assert (Ex : forall i, existsb (fun s => file_of s =? i) (list_PAWN mpos (opp c))
                         = existsb (fun s => file_of s =? i) (list_PAWN pos c)).
  { intros i. rewrite (existsb_mirror_list c pos mpos _ Hm). apply existsb_ext_in.
    intros s Hs. rewrite (flip_sq_file s (Hr s Hs)). reflexivity. }
  split; [|split; [|split; [|split; [|split]]]].
  - apply Z.bits_inj'. intros t Ht0. rewrite Pp'.
    destruct (Z.ltb_spec t 64) as [Ht|Ht].
    + rewrite flip_bb_spec, Pp by lia. rewrite (existsb_mirror_list c pos mpos _ Hm).
      apply existsb_ext_in. intros s Hs. rewrite opp_involutive, Ours, Theirs.
      rewrite (candidate_mirror c _ _ s Bo Bt (Hr s Hs)).
      rewrite (flip_sq_eqb s t (Hr s Hs)) by lia. reflexivity.
    + rewrite (is_bb_high _ t (flip_bb_is_bb _) Ht).
      apply not_true_is_false. intros E. apply existsb_exists in E.
      destruct E as (s & Hs & E). apply andb_true_iff in E as [E _].
      apply Z.eqb_eq in E. specialize (Hr' s Hs). lia.
  - rewrite (evaluate_pawnAttacks _ _ _ _ _ H), (evaluate_pawnAttacks _ _ _ _ _ H'), Ours.
    apply attack_shifts_mirror.
  - rewrite So, So'. apply Z.bits_inj. intros i. rewrite !semiopen_after_spec, Ex.
    reflexivity.
  - rewrite Sp, Sp'. apply file_span_ext. intros f _. unfold occupied_file. apply Ex.
  - rewrite (evaluate_pawnsOnSquares _ _ _ _ _ H'). cbn [get of_black].
    rewrite Ours, <- light_squares_flip, <- flip_bb_land. apply popcount_flip.
  - rewrite (evaluate_pawnsOnSquares _ _ _ _ _ H), (evaluate_pawnsOnSquares _ _ _ _ _ H').
    cbn [get of_black of_white].
    assert (L : count_PAWN mpos (opp c) = count_PAWN pos c).
    { unfold count_PAWN. f_equal.
      rewrite <- (Permutation_length (is_mirror_list pos mpos c Hm)). apply length_map. }
    lia.
Qed.

Lemma evaluate_of_the_mirror_witness :
  exists v e1 e1',
    evaluate WHITE (sample_position 7) zero_entry = Ok (v, e1)
    /\ evaluate BLACK (mirror 9 (sample_position 7)) zero_entry = Ok (v, e1')
    /\ get BLACK (passedPawns e1') = flip_bb (get WHITE (passedPawns e1)).
Proof.
  destruct (evaluate WHITE (sample_position 7) zero_entry) as [[v e1]|] eqn:E;
    [|vm_compute in E; discriminate].
  destruct (evaluate_of_the_mirror WHITE (sample_position 7) (mirror 9 (sample_position 7))
              zero_entry e1 zero_entry v) as (e1' & H & P & _).
  - vm_compute; reflexivity.
  - vm_compute; reflexivity.
  - exact E.
  - exists v, e1, e1'. split; [reflexivity|]. split; [exact H|exact P].
Defined.

(** ** Scenarios *)

(** The starting position: the two pawn structures mirror each other, and the
    net score is zero. *)
Example start_position_is_balanced :
  result_map value (repopulate (start_position 1) zero_entry) = Ok SCORE_ZERO.
Proof. vm_compute; reflexivity. Qed.

(** The starting position: both kings, on e1 and e8, get the same score. *)
Example start_position_king_safety :
  result_map fst (do_king_safety WHITE (start_position 1) 4 zero_entry)
  = Ok (make_score 263 (-16))
  /\ result_map fst (do_king_safety BLACK (start_position 1) 60 zero_entry)
     = Ok (make_score 263 (-16)).
Proof. split; vm_compute; reflexivity. Qed.

(** A lone pawn on a2: isolated and not opposed, it costs the isolated
    penalty of the a-file. *)
Example lone_rook_pawn_is_isolated :
  result_map isolated (classify WHITE (SquareBB 8) 0 8) = Ok true
  /\ result_map fst (evaluate WHITE (pawns_position [8] [] 0 3) zero_entry)
     = Ok (score_sub SCORE_ZERO (at_S (Isolated false) FILE_A)).
Proof. split; vm_compute; reflexivity. Qed.
